(** * Off-chain DEX order engine: a shallow embedding and its properties

    The development follows the JavaScript sources of the backend:

    - [backend/models/Order.js]                    ([Module Order])
    - [backend/services/price-oracle.service.js]   ([Module Oracle])
    - [backend/services/matching.service.js]       ([Module Matching])
    - [backend/services/order.service.js]          ([Module OrderService])

    JavaScript numbers are IEEE-754 binary64 values; they are modelled by
    Rocq's primitive floats, which are the same format with the same
    rounding.  [null] is [None].  A string is the sequence of the bytes
    of its UTF-8 encoding; the case mapping and the length of a string
    are the runtime's and enter as an interface ([JS.Text]), as the
    [ethers] library does ([Ethers]).  Objects that the program shares and
    mutates (order records, books, price tables) live in an explicit
    engine state; an order object is referred to by its [id], which the
    order service keeps unique. *)

From Stdlib Require Import Floats ZArith String Ascii List Bool Lia.
From stdpp Require Import gmap strings list.
Import ListNotations.

Set Default Proof Using "Type".

(** ** JavaScript numbers and strings *)

Module JS.
Local Open Scope float_scope.

Definition isNaN (x : float) : bool := PrimFloat.is_nan x.
Definition isFinite (x : float) : bool := PrimFloat.is_finite x.

(** [x > y], [x >= y]; every comparison with NaN is false. *)
Definition gt (x y : float) : bool := y <? x.
Definition ge (x y : float) : bool := y <=? x.

(** [Number(v)] for a nullable number: [Number(null) = 0]. *)
Definition Number (v : option float) : float :=
  match v with Some x => x | None => 0 end.

(** [Number(v)] where [v] may be [undefined]: [Number(undefined) = NaN]. *)
Definition NumberU (v : option float) : float :=
  match v with Some x => x | None => nan end.

(** [Number.isFinite(v)] for a nullable number; [null] is not a number. *)
Definition isFiniteN (v : option float) : bool :=
  match v with Some x => isFinite x | None => false end.

(** Truthiness of a number: [0], [-0] and [NaN] are falsy. *)
Definition truthy (x : float) : bool := negb (isNaN x || (x =? 0)).

Definition negZero (x : float) : bool := (x =? 0) && PrimFloat.get_sign x.

(** [Math.min], [Math.max], [Math.abs]. *)
Definition min (a b : float) : float :=
  if isNaN a || isNaN b then nan
  else if a <? b then a
  else if b <? a then b
  else if negZero a then a else b.

Definition max (a b : float) : float :=
  if isNaN a || isNaN b then nan
  else if b <? a then a
  else if a <? b then b
  else if negZero a then b else a.

Definition abs (x : float) : float := PrimFloat.abs x.

(** *** Strings

    A string is the sequence of the bytes of its UTF-8 encoding, which is
    what [crypto]'s [update] hashes; ['-'] and ['|'] are single bytes in
    it, and no byte of a longer character equals them. *)

(** A string is truthy when it is not empty. *)
Definition nonEmpty (s : string) : bool :=
  match s with EmptyString => false | _ => true end.

(** [s.includes(c)] for a one-character needle. *)
Fixpoint includesChar (c : ascii) (s : string) : bool :=
  match s with
  | EmptyString => false
  | String d r => if Ascii.eqb c d then true else includesChar c r
  end.

(** [s.split(c)] for a one-character separator. *)
Fixpoint split (c : ascii) (s : string) : list string :=
  match s with
  | EmptyString => [EmptyString]
  | String d r =>
      if Ascii.eqb c d then EmptyString :: split c r
      else match split c r with
           | [] => [String d EmptyString]
           | p :: ps => String d p :: ps
           end
  end.

(** [String.prototype.toLowerCase], [toUpperCase] and [length], and the
    order in which [Array.prototype.sort] puts two strings, belong to
    the runtime: the case mapping of Unicode, which also folds the
    letters outside ASCII (['É'] to ['é']) and may change the length of
    a string, the number of UTF-16 code units, and the order of the
    strings by their UTF-16 code units.  They are taken as an interface,
    together with the facts about them that the development uses:
    lower-casing is idempotent, it maps no string to the empty string
    but the empty one, it neither adds nor removes a ['-'] (a character
    without case that no letter maps to), the empty string has length
    zero, and of two different strings exactly one precedes the
    other. *)
Class Text := {
  toLowerCase : string -> string;
  toUpperCase : string -> string;
  length : string -> nat;
  (** [a < b] on strings. *)
  precedes : string -> string -> bool;
  lower_idem : forall s, toLowerCase (toLowerCase s) = toLowerCase s;
  lower_nonEmpty : forall s, nonEmpty (toLowerCase s) = nonEmpty s;
  lower_dash : forall s, includesChar "-" (toLowerCase s) = includesChar "-" s;
  length_empty : length EmptyString = 0%nat;
  precedes_swap : forall a b, a <> b -> precedes b a = negb (precedes a b);
}.

(** The interface on ASCII strings, where the case mapping folds the 26
    letters and leaves every other character, a character is one code
    unit, and the order is the order of the character codes. *)
Definition lowerAscii (c : ascii) : ascii :=
  let n := nat_of_ascii c in
  if (65 <=? n)%nat && (n <=? 90)%nat then ascii_of_nat (n + 32) else c.

Definition upperAscii (c : ascii) : ascii :=
  let n := nat_of_ascii c in
  if (97 <=? n)%nat && (n <=? 122)%nat then ascii_of_nat (n - 32) else c.

Fixpoint mapString (f : ascii -> ascii) (s : string) : string :=
  match s with
  | EmptyString => EmptyString
  | String c r => String (f c) (mapString f r)
  end.

Lemma lowerAscii_idem c : lowerAscii (lowerAscii c) = lowerAscii c.
Proof. destruct c as [[] [] [] [] [] [] [] []]; reflexivity. Qed.

Lemma lowerAscii_dash c : Ascii.eqb "-" (lowerAscii c) = Ascii.eqb "-" c.
Proof. destruct c as [[] [] [] [] [] [] [] []]; reflexivity. Qed.

Lemma asciiLower_idem s :
  mapString lowerAscii (mapString lowerAscii s) = mapString lowerAscii s.
Proof.
  induction s as [| c s IH]; cbn [mapString]; [reflexivity |].
  now rewrite lowerAscii_idem, IH.
Qed.

Lemma asciiLower_nonEmpty s : nonEmpty (mapString lowerAscii s) = nonEmpty s.
Proof. now destruct s. Qed.

Lemma asciiLower_dash s :
  includesChar "-" (mapString lowerAscii s) = includesChar "-" s.
Proof.
  induction s as [| c s IH]; cbn [mapString includesChar]; [reflexivity |].
  now rewrite lowerAscii_dash, IH.
Qed.

Lemma ltb_swap (a b : string) :
  a <> b -> String.ltb b a = negb (String.ltb a b).
Proof.
  intros Hne. unfold String.ltb.
  rewrite (String.compare_antisym b a).
  destruct (String.compare a b) eqn:E; cbn; try reflexivity.
  now apply String.compare_eq_iff in E.
Qed.

Definition asciiText : Text := {|
  toLowerCase := mapString lowerAscii;
  toUpperCase := mapString upperAscii;
  length := String.length;
  precedes := String.ltb;
  lower_idem := asciiLower_idem;
  lower_nonEmpty := asciiLower_nonEmpty;
  lower_dash := asciiLower_dash;
  length_empty := eq_refl;
  precedes_swap := ltb_swap;
|}.

(** [s.trim().length > 0]: [trim] strips the white space and the line
    terminators of the language, U+0009 to U+000D, U+0020, U+00A0,
    U+1680, U+2000 to U+200A, U+2028, U+2029, U+202F, U+205F, U+3000 and
    U+FEFF, here by the bytes of their encoding. *)
Definition isSpace (c : ascii) : bool :=
  let n := nat_of_ascii c in
  (n =? 32)%nat || ((9 <=? n)%nat && (n <=? 13)%nat).

Definition isSpace2 (c d : ascii) : bool :=
  (nat_of_ascii c =? 194)%nat && (nat_of_ascii d =? 160)%nat.

Definition isSpace3 (c d e : ascii) : bool :=
  let x := nat_of_ascii c in
  let y := nat_of_ascii d in
  let z := nat_of_ascii e in
  ((x =? 225) && (y =? 154) && (z =? 128))%nat
  || ((x =? 226) && (y =? 128)
      && (((128 <=? z) && (z <=? 138)) || (z =? 168) || (z =? 169) || (z =? 175)))%nat
  || ((x =? 226) && (y =? 129) && (z =? 159))%nat
  || ((x =? 227) && (y =? 128) && (z =? 128))%nat
  || ((x =? 239) && (y =? 187) && (z =? 191))%nat.

Fixpoint notBlank (s : string) : bool :=
  match s with
  | EmptyString => false
  | String c r =>
      if isSpace c then notBlank r
      else
        match r with
        | String d r' =>
            if isSpace2 c d then notBlank r'
            else
              match r' with
              | String e r'' => if isSpace3 c d e then notBlank r'' else true
              | EmptyString => true
              end
        | EmptyString => true
        end
  end.
End JS.

(** ** Enumerations of [Order.js] *)

Inductive Side := BUY | SELL.
Inductive OrderType := LIMIT | MARKET | STOP_LOSS | STOP_LIMIT.
Inductive TimeInForce := GTC | IOC | FOK | POST_ONLY.
Inductive Status :=
  PENDING | PARTIAL | FILLED | CANCELLED | REJECTED | EXPIRED | TRIGGERED.

#[global] Instance Side_eq_dec : EqDecision Side.
Proof. solve_decision. Defined.
#[global] Instance OrderType_eq_dec : EqDecision OrderType.
Proof. solve_decision. Defined.
#[global] Instance TimeInForce_eq_dec : EqDecision TimeInForce.
Proof. solve_decision. Defined.
#[global] Instance Status_eq_dec : EqDecision Status.
Proof. solve_decision. Defined.

(** ** Trade records (the object literals pushed on [book.trades]) *)

Module Trade.
Record t := mk {
  price : float;
  amount : float;
  fillAmount : float;
  buyOrderId : string;
  sellOrderId : string;
  makerOrderId : string;
  takerOrderId : string;
  timestamp : Z;
  batchId : option string;
  synthetic : bool;
  syntheticCounterparty : option string;
  syntheticQuoteAmount : option float;
}.
End Trade.

(** ** [execution] objects created by [Order.recordFill] *)

Module Execution.
Record t := mk {
  amount : float;
  price : option float;
  counterparty : option string;
  timestamp : Z;
  batchId : option string;
  offerAmount : option float;
  receiveAmount : option float;
}.

Definition tagBatch (e : t) (b : string) (offer receive : float) : t :=
  mk (amount e) (price e) (counterparty e) (timestamp e)
     (Some b) (Some offer) (Some receive).
End Execution.

(** ** The [metadata] bag of an order: the keys the engine reads or writes *)

Module Metadata.
Record SyntheticFill := mkSyntheticFill {
  sf_counterparty : string;
  sf_price : float;
  sf_quoteAmount : option float;
  sf_filledAt : Z;
}.

Record BatchExecution := mkBatchExecution {
  be_batchId : string;
  be_index : nat;
  be_offerToken : string;
  be_requestToken : string;
  be_offerAmount : float;
  be_receiveAmount : float;
  be_executedAt : Z;
}.

Record t := mk {
  trades : option (list Trade.t);
  rejectReason : option string;
  cancelReason : option string;
  availableVolume : option float;
  unfilledAmount : option float;
  price : option float;
  priceSource : option string;
  lastTradePrice : option float;
  lastTradeAt : option Z;
  queuedAt : option Z;
  restedAt : option Z;
  triggeredPrice : option float;
  triggerSource : option string;
  triggeredAt : option Z;
  syntheticFill : option SyntheticFill;
  batchExecutions : option (list BatchExecution);
}.

Definition empty : t :=
  mk None None None None None None None None None None None None None None
     None None.

Definition set_trades v m :=
  mk v (rejectReason m) (cancelReason m) (availableVolume m)
     (unfilledAmount m) (price m) (priceSource m) (lastTradePrice m)
     (lastTradeAt m) (queuedAt m) (restedAt m) (triggeredPrice m)
     (triggerSource m) (triggeredAt m) (syntheticFill m) (batchExecutions m).
Definition set_rejectReason v m :=
  mk (trades m) v (cancelReason m) (availableVolume m)
     (unfilledAmount m) (price m) (priceSource m) (lastTradePrice m)
     (lastTradeAt m) (queuedAt m) (restedAt m) (triggeredPrice m)
     (triggerSource m) (triggeredAt m) (syntheticFill m) (batchExecutions m).
Definition set_cancelReason v m :=
  mk (trades m) (rejectReason m) v (availableVolume m)
     (unfilledAmount m) (price m) (priceSource m) (lastTradePrice m)
     (lastTradeAt m) (queuedAt m) (restedAt m) (triggeredPrice m)
     (triggerSource m) (triggeredAt m) (syntheticFill m) (batchExecutions m).
Definition set_availableVolume v m :=
  mk (trades m) (rejectReason m) (cancelReason m) v
     (unfilledAmount m) (price m) (priceSource m) (lastTradePrice m)
     (lastTradeAt m) (queuedAt m) (restedAt m) (triggeredPrice m)
     (triggerSource m) (triggeredAt m) (syntheticFill m) (batchExecutions m).
Definition set_unfilledAmount v m :=
  mk (trades m) (rejectReason m) (cancelReason m) (availableVolume m)
     v (price m) (priceSource m) (lastTradePrice m)
     (lastTradeAt m) (queuedAt m) (restedAt m) (triggeredPrice m)
     (triggerSource m) (triggeredAt m) (syntheticFill m) (batchExecutions m).
Definition set_price v m :=
  mk (trades m) (rejectReason m) (cancelReason m) (availableVolume m)
     (unfilledAmount m) v (priceSource m) (lastTradePrice m)
     (lastTradeAt m) (queuedAt m) (restedAt m) (triggeredPrice m)
     (triggerSource m) (triggeredAt m) (syntheticFill m) (batchExecutions m).
Definition set_priceSource v m :=
  mk (trades m) (rejectReason m) (cancelReason m) (availableVolume m)
     (unfilledAmount m) (price m) v (lastTradePrice m)
     (lastTradeAt m) (queuedAt m) (restedAt m) (triggeredPrice m)
     (triggerSource m) (triggeredAt m) (syntheticFill m) (batchExecutions m).
Definition set_lastTrade p ts m :=
  mk (trades m) (rejectReason m) (cancelReason m) (availableVolume m)
     (unfilledAmount m) (price m) (priceSource m) p
     ts (queuedAt m) (restedAt m) (triggeredPrice m)
     (triggerSource m) (triggeredAt m) (syntheticFill m) (batchExecutions m).
Definition set_queuedAt v m :=
  mk (trades m) (rejectReason m) (cancelReason m) (availableVolume m)
     (unfilledAmount m) (price m) (priceSource m) (lastTradePrice m)
     (lastTradeAt m) v (restedAt m) (triggeredPrice m)
     (triggerSource m) (triggeredAt m) (syntheticFill m) (batchExecutions m).
Definition set_restedAt v m :=
  mk (trades m) (rejectReason m) (cancelReason m) (availableVolume m)
     (unfilledAmount m) (price m) (priceSource m) (lastTradePrice m)
     (lastTradeAt m) (queuedAt m) v (triggeredPrice m)
     (triggerSource m) (triggeredAt m) (syntheticFill m) (batchExecutions m).
Definition set_triggeredPrice v m :=
  mk (trades m) (rejectReason m) (cancelReason m) (availableVolume m)
     (unfilledAmount m) (price m) (priceSource m) (lastTradePrice m)
     (lastTradeAt m) (queuedAt m) (restedAt m) v
     (triggerSource m) (triggeredAt m) (syntheticFill m) (batchExecutions m).
Definition set_triggerSource v m :=
  mk (trades m) (rejectReason m) (cancelReason m) (availableVolume m)
     (unfilledAmount m) (price m) (priceSource m) (lastTradePrice m)
     (lastTradeAt m) (queuedAt m) (restedAt m) (triggeredPrice m)
     v (triggeredAt m) (syntheticFill m) (batchExecutions m).
Definition set_triggeredAt v m :=
  mk (trades m) (rejectReason m) (cancelReason m) (availableVolume m)
     (unfilledAmount m) (price m) (priceSource m) (lastTradePrice m)
     (lastTradeAt m) (queuedAt m) (restedAt m) (triggeredPrice m)
     (triggerSource m) v (syntheticFill m) (batchExecutions m).
Definition set_syntheticFill v m :=
  mk (trades m) (rejectReason m) (cancelReason m) (availableVolume m)
     (unfilledAmount m) (price m) (priceSource m) (lastTradePrice m)
     (lastTradeAt m) (queuedAt m) (restedAt m) (triggeredPrice m)
     (triggerSource m) (triggeredAt m) v (batchExecutions m).
Definition set_batchExecutions v m :=
  mk (trades m) (rejectReason m) (cancelReason m) (availableVolume m)
     (unfilledAmount m) (price m) (priceSource m) (lastTradePrice m)
     (lastTradeAt m) (queuedAt m) (restedAt m) (triggeredPrice m)
     (triggerSource m) (triggeredAt m) (syntheticFill m) v.
End Metadata.

(** ** [class Order] *)

Module Order.
Local Open Scope float_scope.

Record t := mk {
  id : string;
  baseToken : string;
  quoteToken : string;
  side : Side;
  price : option float;
  amount : float;
  filled : float;
  status : Status;
  orderType : OrderType;
  timeInForce : TimeInForce;
  stopPrice : option float;
  allowPartialFill : bool;
  minFillAmount : option float;
  triggeredAt : option Z;
  metadata : Metadata.t;
  createdAt : Z;
  updatedAt : Z;
  executions : list Execution.t;
}.

Definition set_filled v o :=
  mk (id o) (baseToken o) (quoteToken o) (side o) (price o) (amount o)
     v (status o) (orderType o) (timeInForce o) (stopPrice o)
     (allowPartialFill o) (minFillAmount o) (triggeredAt o) (metadata o)
     (createdAt o) (updatedAt o) (executions o).
Definition set_status v o :=
  mk (id o) (baseToken o) (quoteToken o) (side o) (price o) (amount o)
     (filled o) v (orderType o) (timeInForce o) (stopPrice o)
     (allowPartialFill o) (minFillAmount o) (triggeredAt o) (metadata o)
     (createdAt o) (updatedAt o) (executions o).
Definition set_orderType v o :=
  mk (id o) (baseToken o) (quoteToken o) (side o) (price o) (amount o)
     (filled o) (status o) v (timeInForce o) (stopPrice o)
     (allowPartialFill o) (minFillAmount o) (triggeredAt o) (metadata o)
     (createdAt o) (updatedAt o) (executions o).
Definition set_triggeredAt v o :=
  mk (id o) (baseToken o) (quoteToken o) (side o) (price o) (amount o)
     (filled o) (status o) (orderType o) (timeInForce o) (stopPrice o)
     (allowPartialFill o) (minFillAmount o) v (metadata o)
     (createdAt o) (updatedAt o) (executions o).
Definition set_metadata v o :=
  mk (id o) (baseToken o) (quoteToken o) (side o) (price o) (amount o)
     (filled o) (status o) (orderType o) (timeInForce o) (stopPrice o)
     (allowPartialFill o) (minFillAmount o) (triggeredAt o) v
     (createdAt o) (updatedAt o) (executions o).
Definition set_updatedAt v o :=
  mk (id o) (baseToken o) (quoteToken o) (side o) (price o) (amount o)
     (filled o) (status o) (orderType o) (timeInForce o) (stopPrice o)
     (allowPartialFill o) (minFillAmount o) (triggeredAt o) (metadata o)
     (createdAt o) v (executions o).
Definition set_executions v o :=
  mk (id o) (baseToken o) (quoteToken o) (side o) (price o) (amount o)
     (filled o) (status o) (orderType o) (timeInForce o) (stopPrice o)
     (allowPartialFill o) (minFillAmount o) (triggeredAt o) (metadata o)
     (createdAt o) (updatedAt o) v.

(** [order.metadata.k = v] *)
Definition upd_metadata (f : Metadata.t -> Metadata.t) (o : t) : t :=
  set_metadata (f (metadata o)) o.

(** What the constructor builds from [{id, baseToken, quoteToken, side,
    price, amount, orderType, timeInForce, stopPrice}] with every other
    input left at its default. *)
Definition create (i b q : string) (sd : Side) (p : option float)
    (amt : float) (ty : OrderType) (tif : TimeInForce)
    (stop : option float) (created : Z) : t :=
  mk i b q sd p amt 0 PENDING ty tif stop true None None Metadata.empty
     created created [].

(** [get remaining()] *)
Definition remaining (o : t) : float :=
  let remainingAmount := amount o - filled o in
  if JS.gt remainingAmount 0 then remainingAmount else 0.

Definition isBuy (o : t) : bool := bool_decide (side o = BUY).
Definition isSell (o : t) : bool := bool_decide (side o = SELL).

Definition isStopOrder (o : t) : bool :=
  bool_decide (orderType o = STOP_LOSS) || bool_decide (orderType o = STOP_LIMIT).

(** [markTriggered(triggerTime)] *)
Definition markTriggered (triggerTime : Z) (o : t) : t :=
  set_updatedAt triggerTime (set_status TRIGGERED (set_triggeredAt (Some triggerTime) o)).

(** [recordFill(amount, price, counterpartyId, timestamp)]: the returned
    execution ([None] is [null]) and the order after the call. *)
Definition recordFill (amt : float) (prc : option float)
    (counterpartyId : string) (ts : Z) (o : t) : option Execution.t * t :=
  let fillAmount := amt in
  if JS.isNaN fillAmount || (fillAmount <=? 0) then (None, o)
  else
    let execution :=
      Execution.mk fillAmount prc
        (if JS.nonEmpty counterpartyId then Some counterpartyId else None)
        ts None None None in
    let o1 := set_filled (filled o + fillAmount) o in
    let o2 := if remaining o1 <=? 0 then set_status FILLED o1
              else set_status PARTIAL o1 in
    let o3 := set_updatedAt ts o2 in
    (Some execution, set_executions (executions o3 ++ [execution]) o3).

(** [cancel(reason)] at time [now]. *)
Definition cancel (reason : string) (now : Z) (o : t) : t :=
  set_updatedAt now
    (upd_metadata (Metadata.set_cancelReason (Some reason))
       (set_status CANCELLED o)).

(** A terminal status, as tested by the services
    ([['CANCELLED', 'FILLED', 'REJECTED', 'EXPIRED'].includes(status)]). *)
Definition isTerminal (o : t) : bool :=
  match status o with
  | CANCELLED | FILLED | REJECTED | EXPIRED => true
  | _ => false
  end.
End Order.

(** ** External libraries

    [ethers.getAddress] (checksum normalisation, which throws on anything
    that is not a 20-byte hex address) and [ethers.formatUnits] followed by
    [Number(...)] are library code outside the repository; they are taken
    as an interface. *)

Class Ethers := {
  (** [ethers.getAddress(a)]; [None] when it throws. *)
  getAddress : string -> option string;
  (** [Number(ethers.formatUnits(value, decimals))]; [None] when it throws. *)
  formatUnitsNumber : Z -> Z -> option float;
}.

(** ** [crypto.createHash('sha256')]: SHA-256 over the bytes of a string *)

Module SHA256.
Local Open Scope Z_scope.

Definition w32 (x : Z) : Z := x mod 4294967296.
Definition rotr (n x : Z) : Z :=
  w32 (Z.lor (Z.shiftr x n) (Z.shiftl x (32 - n))).
Definition shr (n x : Z) : Z := Z.shiftr x n.
Definition add32 (x y : Z) : Z := w32 (x + y).
Definition not32 (x : Z) : Z := 4294967295 - x.

Definition Ch (x y z : Z) := Z.lxor (Z.land x y) (Z.land (not32 x) z).
Definition Maj (x y z : Z) :=
  Z.lxor (Z.lxor (Z.land x y) (Z.land x z)) (Z.land y z).
Definition Sigma0 x := Z.lxor (Z.lxor (rotr 2 x) (rotr 13 x)) (rotr 22 x).
Definition Sigma1 x := Z.lxor (Z.lxor (rotr 6 x) (rotr 11 x)) (rotr 25 x).
Definition sigma0 x := Z.lxor (Z.lxor (rotr 7 x) (rotr 18 x)) (shr 3 x).
Definition sigma1 x := Z.lxor (Z.lxor (rotr 17 x) (rotr 19 x)) (shr 10 x).

(** The round constants and the initial hash value are derived as the
    standard defines them: the first 32 bits of the fractional parts of
    the cube roots of the first 64 primes, and of the square roots of the
    first 8 primes. *)
Definition isPrime (n : Z) : bool :=
  (1 <? n)
  && forallb (fun d => negb (n mod Z.of_nat d =? 0)) (seq 2 (Z.to_nat n - 2)).

Definition primes : list Z :=
  firstn 64 (List.filter isPrime (List.map Z.of_nat (seq 2 400))).

(** The integer cube root of [n], one bit at a time from bit [bits - 1]. *)
Fixpoint cubeRoot (bits : nat) (n acc : Z) : Z :=
  match bits with
  | O => acc
  | S b =>
      let candidate := acc + 2 ^ Z.of_nat b in
      if candidate * candidate * candidate <=? n
      then cubeRoot b n candidate else cubeRoot b n acc
  end.

Definition K : list Z :=
  List.map (fun p => w32 (cubeRoot 40 (p * 2 ^ 96) 0)) primes.

Definition H0 : list Z :=
  List.map (fun p => w32 (Z.sqrt (p * 2 ^ 64))) (firstn 8 primes).

Fixpoint bytesOf (s : string) : list Z :=
  match s with
  | EmptyString => []
  | String c r => Z.of_nat (nat_of_ascii c) :: bytesOf r
  end.

(** Big-endian bytes of [x], [n] of them. *)
Fixpoint beBytes (n : nat) (x : Z) : list Z :=
  match n with
  | O => []
  | S k => beBytes k (x / 256) ++ [x mod 256]
  end.

Definition pad (msg : list Z) : list Z :=
  let len := Z.of_nat (length msg) in
  let zeros := Z.to_nat ((55 - len) mod 64) in
  msg ++ [128] ++ repeat 0 zeros ++ beBytes 8 (8 * len).

Fixpoint words (fuel : nat) (bs : list Z) : list Z :=
  match fuel, bs with
  | S k, a :: b :: c :: d :: r =>
      (((a * 256 + b) * 256 + c) * 256 + d) :: words k r
  | _, _ => []
  end.

(** The message schedule, newest word first. *)
Fixpoint schedule (n : nat) (w : list Z) : list Z :=
  match n with
  | O => w
  | S k =>
      let w2 := nth 1 w 0 in
      let w7 := nth 6 w 0 in
      let w15 := nth 14 w 0 in
      let w16 := nth 15 w 0 in
      schedule k
        (add32 (add32 (sigma1 w2) w7) (add32 (sigma0 w15) w16) :: w)
  end.

Definition round (st : list Z) (kw : Z * Z) : list Z :=
  match st with
  | [a; b; c; d; e; f; g; h] =>
      let t1 :=
        add32 (add32 (add32 h (Sigma1 e)) (add32 (Ch e f g) (fst kw)))
              (snd kw) in
      let t2 := add32 (Sigma0 a) (Maj a b c) in
      [add32 t1 t2; a; b; c; add32 d t1; e; f; g]
  | _ => st
  end.

Definition compress (h : list Z) (block : list Z) : list Z :=
  let w := rev (schedule 48 (rev block)) in
  let st := fold_left round (combine K w) h in
  map (fun p => add32 (fst p) (snd p)) (combine h st).

Fixpoint blocks (fuel : nat) (h : list Z) (ws : list Z) : list Z :=
  match fuel with
  | O => h
  | S k =>
      match ws with
      | [] => h
      | _ => blocks k (compress h (firstn 16 ws)) (skipn 16 ws)
      end
  end.

(** The eight 32-bit words of the digest. *)
Definition digest (s : string) : list Z :=
  let bs := pad (bytesOf s) in
  blocks (length bs) H0 (words (length bs) bs).

(** [digest.readUInt32BE(0)] *)
Definition readUInt32BE0 (s : string) : Z := nth 0 (digest s) 0.
End SHA256.

(** ** [price-oracle.service.js] *)

Module Oracle.
Local Open Scope float_scope.
Local Set Warnings "-inexact-float".

(** Token metadata as the token directory serves it.  [totalSupply] is
    [None] when absent, [null] or not an integer literal ([BigInt] throws
    and [parseSupply] answers [null] in each case); [decimals] is [None]
    when it is not an integer. *)
Record TokenMeta := mkMeta {
  address : option string;
  symbol : option string;
  name : option string;
  decimals : option Z;
  totalSupply : option Z;
}.

Record PairState := mkPairState {
  tokenA : string;
  tokenB : string;
  price : float;
  baselinePrice : float;
  liquidityScore : float;
  lastUpdatedAt : Z;
  lastSource : string;
  lastSide : option Side;
}.

Record Descriptor := mkDescriptor {
  key : string;
  d_tokenA : string;
  d_tokenB : string;
  forward : bool;
}.

Record Snapshot := mkSnapshot {
  s_price : float;
  s_source : string;
  s_updatedAt : option Z;
}.

(** The service object: [this.pairStates]. *)
Record t := mk { pairStates : gmap string PairState }.

Definition empty : t := mk ∅.

Definition defaultLiquidityScore : float := 1000.
Definition liquidityDecay : float := 0.85.
Definition directionalImpactScale : float := 0.1.
Definition minPrice : float := 1e-12.
Definition maxPrice : float := 1e12.

(** An integer below 2^53 as a number. *)
Definition ofZ (z : Z) : float := PrimFloat.of_uint63 (Uint63.of_Z z).

Definition orEmpty (s : option string) : string :=
  match s with Some x => x | None => EmptyString end.

Section WithEthers.
Context `{Ethers} `{JS.Text}.

Definition normalizeAddress (a : string) : string :=
  if JS.nonEmpty a then
    match getAddress a with
    | Some checksummed => checksummed
    | None => JS.toLowerCase a
    end
  else EmptyString.

Definition parseSupply (meta : TokenMeta) : option float :=
  match totalSupply meta with
  | None => None
  | Some supplyBigInt =>
      let decs := match decimals meta with Some d => d | None => 18%Z end in
      if negb (0 <? supplyBigInt)%Z then None
      else match formatUnitsNumber supplyBigInt decs with
           | None => None
           | Some formatted =>
               if negb (JS.isFinite formatted) || negb (JS.gt formatted 0)
               then None else Some formatted
           end
  end.

Definition deterministicMultiplier (meta : TokenMeta)
    (fallbackAddress : string) : float :=
  let addr :=
    normalizeAddress
      (if JS.nonEmpty (orEmpty (address meta)) then orEmpty (address meta)
       else fallbackAddress) in
  let sym := JS.toUpperCase (orEmpty (symbol meta)) in
  let nm := JS.toUpperCase (orEmpty (name meta)) in
  let seed := (addr ++ "|" ++ sym ++ "|" ++ nm)%string in
  let bucket :=
    SHA256.readUInt32BE0
      (if JS.nonEmpty seed then seed else "synthetic-price"%string) in
  let fraction := ofZ bucket / 4294967295 in
  let base := 0.5 + fraction * 1.5 in
  let symbolFactor :=
    if JS.nonEmpty sym
    then 1 + ofZ (Z.of_nat (JS.length sym) mod 5) * 0.05
    else 1 in
  base * symbolFactor.

Definition deriveUnitValue (meta : TokenMeta) (fallbackAddress : string)
    : float :=
  let supply := parseSupply meta in
  let intrinsic0 : option float :=
    match supply with
    | Some s => if JS.gt s 0 then Some (1 / s) else None
    | None => None
    end in
  let intrinsic1 :=
    match intrinsic0 with
    | Some i => if JS.gt i 0 then i else 1
    | None => 1
    end in
  let intrinsic2 := intrinsic1 * deterministicMultiplier meta fallbackAddress in
  let intrinsic3 := if JS.gt intrinsic2 0 then intrinsic2 else 1 in
  let clampMin := 1e-12 in
  let clampMax := 1e12 in
  if intrinsic3 <? clampMin then clampMin
  else if JS.gt intrinsic3 clampMax then clampMax
  else intrinsic3.

Definition _getCanonicalDescriptor (baseToken quoteToken : string)
    : option Descriptor :=
  let baseAddress := normalizeAddress baseToken in
  let quoteAddress := normalizeAddress quoteToken in
  if negb (JS.nonEmpty baseAddress) || negb (JS.nonEmpty quoteAddress)
     || String.eqb baseAddress quoteAddress
  then None
  else
    let '(a, b) :=
      if JS.precedes quoteAddress baseAddress
      then (quoteAddress, baseAddress) else (baseAddress, quoteAddress) in
    Some (mkDescriptor (a ++ "-" ++ b)%string a b (String.eqb baseAddress a)).

Definition _getPriceFromState (state : PairState) (d : Descriptor)
    : option float :=
  if negb (JS.isFinite (price state)) || (price state <=? 0) then None
  else if forward d then Some (price state)
  else Some (1 / price state).

Definition getCachedPairSnapshot (baseToken quoteToken : string) (o : t)
    : option Snapshot :=
  match _getCanonicalDescriptor baseToken quoteToken with
  | None => None
  | Some d =>
      match pairStates o !! key d with
      | None => None
      | Some state =>
          match _getPriceFromState state d with
          | None => None
          | Some p =>
              if negb (JS.isFinite p) || (p <=? 0) then None
              else Some (mkSnapshot p
                           (if JS.nonEmpty (lastSource state)
                            then lastSource state else "synthetic"%string)
                           (Some (lastUpdatedAt state)))
          end
      end
  end.

Definition _ensurePairState (now : Z) (baseToken quoteToken : string)
    (fallbackPrice : float) (o : t) : option (Descriptor * PairState * t) :=
  match _getCanonicalDescriptor baseToken quoteToken with
  | None => None
  | Some d =>
      match pairStates o !! key d with
      | Some state => Some (d, state, o)
      | None =>
          let c0 := fallbackPrice in
          let c1 := if negb (JS.isFinite c0) || (c0 <=? 0) then 1 else c0 in
          let c2 := if forward d then c1
                    else if JS.gt c1 0 then 1 / c1 else 1 in
          let c3 := if negb (JS.isFinite c2) || (c2 <=? 0) then 1 else c2 in
          let state :=
            mkPairState (d_tokenA d) (d_tokenB d) c3 c3
              defaultLiquidityScore now "synthetic" None in
          Some (d, state, mk (<[key d := state]> (pairStates o)))
      end
  end.

Definition _clampPrice (value : float) : option float :=
  if negb (JS.isFinite value) || (value <=? 0) then None
  else if value <? minPrice then Some minPrice
  else if JS.gt value maxPrice then Some maxPrice
  else Some value.

Definition _computeVolumeWeight (state : PairState)
    (notionalVolume : float) : float :=
  if negb (JS.isFinite notionalVolume) || (notionalVolume <=? 0) then 0.05
  else
    let baseLiquidity :=
      if JS.isFinite (liquidityScore state) && JS.gt (liquidityScore state) 0
      then liquidityScore state else defaultLiquidityScore in
    let ratio := notionalVolume / (baseLiquidity + notionalVolume) in
    JS.min 0.85 (JS.max 0.05 ratio).

Definition positiveOrNull (x : float) : option float :=
  if JS.isFinite x && JS.gt x 0 then Some x else None.

(** [registerTrade(baseToken, quoteToken, {price, baseAmount,
    quoteAmount, side, source})]; the engine ignores the returned
    price, so only the service after the call is given. *)
Definition registerTrade (now : Z) (baseToken quoteToken : string)
    (tprice tbaseAmount tquoteAmount : float) (tside : option Side)
    (tsource : string) (o : t) : t :=
  let baseAddress := normalizeAddress baseToken in
  let quoteAddress := normalizeAddress quoteToken in
  if negb (JS.nonEmpty baseAddress) || negb (JS.nonEmpty quoteAddress)
     || String.eqb baseAddress quoteAddress
  then o
  else
    let resolvedBaseAmount := positiveOrNull tbaseAmount in
    let resolvedPrice0 := positiveOrNull tprice in
    let resolvedQuoteAmount0 := positiveOrNull tquoteAmount in
    let '(resolvedPrice, resolvedQuoteAmount) :=
      match resolvedPrice0, resolvedBaseAmount, resolvedQuoteAmount0 with
      | None, Some b, Some q => (Some (q / b), resolvedQuoteAmount0)
      | Some p, Some b, None => (resolvedPrice0, Some (b * p))
      | _, _, _ => (resolvedPrice0, resolvedQuoteAmount0)
      end in
    match resolvedPrice with
    | None => o
    | Some rp =>
        if negb (JS.truthy rp) || negb (JS.isFinite rp) || (rp <=? 0) then o
        else
          match _ensurePairState now baseAddress quoteAddress rp o with
          | None => o
          | Some (d, state, o1) =>
              let canonicalPrice := if forward d then rp else 1 / rp in
              if negb (JS.isFinite canonicalPrice) || (canonicalPrice <=? 0)
              then o1
              else
                let notionalVolume :=
                  match resolvedQuoteAmount with
                  | Some q =>
                      if JS.truthy q && JS.gt q 0 then q
                      else match resolvedBaseAmount with
                           | Some b => b * rp
                           | None => 0
                           end
                  | None =>
                      match resolvedBaseAmount with
                      | Some b => b * rp
                      | None => 0
                      end
                  end in
                let weight := _computeVolumeWeight state notionalVolume in
                let p1 :=
                  if negb (JS.isFinite (price state)) || (price state <=? 0)
                  then canonicalPrice
                  else price state + (canonicalPrice - price state) * weight in
                let directionalSign : float :=
                  match tside with
                  | Some SELL => if forward d then -1 else 1
                  | Some BUY => if forward d then 1 else -1
                  | None => 0
                  end in
                let p2 :=
                  if directionalSign =? 0 then p1
                  else
                    let nudge := JS.min 0.25 (weight * directionalImpactScale) in
                    let adjusted := p1 * (1 + directionalSign * nudge) in
                    match _clampPrice adjusted with
                    | Some c => c
                    | None => p1
                    end in
                let p3 :=
                  match _clampPrice p2 with
                  | Some c => c
                  | None => canonicalPrice
                  end in
                let decay := liquidityDecay in
                let currentLiquidity :=
                  if JS.isFinite (liquidityScore state)
                     && JS.gt (liquidityScore state) 0
                  then liquidityScore state else defaultLiquidityScore in
                let liq :=
                  currentLiquidity * decay
                  + (if JS.isFinite notionalVolume && JS.gt notionalVolume 0
                     then notionalVolume else 0) in
                let state' :=
                  mkPairState (tokenA state) (tokenB state) p3
                    (baselinePrice state) liq now
                    (if JS.nonEmpty tsource then tsource else "synthetic"%string)
                    tside in
                mk (<[key d := state']> (pairStates o1))
          end
    end.
End WithEthers.
End Oracle.

(** ** [matching.service.js]: state and effects *)

Module Matching.
Local Open Scope float_scope.
Local Set Warnings "-inexact-float".

Definition ORDER_TYPES_LIMIT := LIMIT.
Definition SYNTHETIC_COUNTERPARTY_PREFIX : string := "synthetic-liquidity".
Definition MARKET_BUY_PRICE_IMPACT_RATE : float := 1.
Definition maxTradeHistory : nat := 200.

(** A book keeps references to order objects; a reference is the id. *)
Record OrderBook := mkBook {
  buy : list string;
  sell : list string;
  marketBuy : list string;
  marketSell : list string;
  stopLoss : list string;
  stopLimit : list string;
  trades : list Trade.t;
}.

(** The entries of [marketPriceMeta]. *)
Record PriceMeta := mkPriceMeta {
  source : string;
  updatedAt : Z;
  previousPrice : option float;
  price : float;
}.

(** The [metadata] argument of [_updateMarketPriceInternal]. *)
Record MarketMetadata := mkMarketMetadata {
  md_source : option string;
  md_updatedAt : option Z;
  md_previousPrice : option float;
  skipStopTrigger : bool;
}.

Definition metaSource (s : string) : MarketMetadata :=
  mkMarketMetadata (Some s) None None false.

(** What [getMarketPriceSnapshotFromKey] returns. *)
Record Snapshot := mkSnapshot {
  s_price : float;
  s_source : string;
  s_updatedAt : option Z;
  s_previousPrice : option float;
}.

(** The trigger context built by [_buildTriggerContext]. *)
Record TriggerContext := mkContext {
  c_price : option float;
  c_source : string;
  c_timestamp : Z;
  c_previousPrice : option float;
}.

(** The process: the order objects (the registry of the order service
    holds exactly these), the three maps of the matching service, the
    oracle singleton, the clock read by [new Date()] and a counter that
    stands for [crypto.randomBytes]. *)
Record State := mkState {
  heap : gmap string Order.t;
  orderBooks : gmap string OrderBook;
  marketPrices : gmap string float;
  marketPriceMeta : gmap string PriceMeta;
  oracle : Oracle.t;
  now : Z;
  entropy : nat;
}.

Definition initial (clock : Z) : State :=
  mkState ∅ ∅ ∅ ∅ Oracle.empty clock 0.

Definition set_heap v s :=
  mkState v (orderBooks s) (marketPrices s) (marketPriceMeta s) (oracle s)
    (now s) (entropy s).
Definition set_orderBooks v s :=
  mkState (heap s) v (marketPrices s) (marketPriceMeta s) (oracle s)
    (now s) (entropy s).
Definition set_marketPrices v s :=
  mkState (heap s) (orderBooks s) v (marketPriceMeta s) (oracle s)
    (now s) (entropy s).
Definition set_marketPriceMeta v s :=
  mkState (heap s) (orderBooks s) (marketPrices s) v (oracle s)
    (now s) (entropy s).
Definition set_oracle v s :=
  mkState (heap s) (orderBooks s) (marketPrices s) (marketPriceMeta s) v
    (now s) (entropy s).
Definition set_entropy v s :=
  mkState (heap s) (orderBooks s) (marketPrices s) (marketPriceMeta s)
    (oracle s) (now s) v.

(** *** Computations: state, exceptions that keep the state reached so
    far (a JavaScript [throw] undoes nothing), and a fuel bound. *)

Inductive Outcome (A : Type) :=
| Return (a : A)
| Throw (msg : string)
| OutOfFuel.
Arguments Return {A} a.
Arguments Throw {A} msg.
Arguments OutOfFuel {A}.

Definition M (A : Type) : Type := State -> Outcome A * State.

#[global] Instance M_ret : MRet M := fun A a s => (Return a, s).
#[global] Instance M_bind : MBind M := fun A B k m s =>
  match m s with
  | (Return a, s') => k a s'
  | (Throw msg, s') => (Throw msg, s')
  | (OutOfFuel, s') => (OutOfFuel, s')
  end.

Definition get : M State := fun s => (Return s, s).
Definition gets {A} (f : State -> A) : M A := fun s => (Return (f s), s).
Definition modify (f : State -> State) : M unit := fun s => (Return tt, f s).
Definition throw {A} (msg : string) : M A := fun s => (Throw msg, s).
Definition outOfFuel {A} : M A := fun s => (OutOfFuel, s).
Definition when (b : bool) (m : M unit) : M unit := if b then m else mret tt.

(** [for (const x of xs) body(x)] *)
Fixpoint forEach {A} (xs : list A) (body : A -> M unit) : M unit :=
  match xs with
  | [] => mret tt
  | x :: r => body x ;; forEach r body
  end.

(** *** Order objects *)

(** Dereference an order.  A reference with no object behind it cannot
    occur in a JavaScript state; the computation stops if it is met. *)
Definition getOrder (id : string) : M Order.t := fun s =>
  match heap s !! id with
  | Some o => (Return o, s)
  | None => (Throw "dangling order reference", s)
  end.

(** A statement that mutates the order object [id]. *)
Definition updOrder (id : string) (f : Order.t -> Order.t) : M unit :=
  modify (fun s => set_heap (alter f id (heap s)) s).

Definition updMetadata (id : string) (f : Metadata.t -> Metadata.t) : M unit :=
  updOrder id (Order.upd_metadata f).

(** [order.recordFill(...)], giving the execution. *)
Definition recordFill (id : string) (amt : float) (prc : option float)
    (counterparty : string) (ts : Z) : M (option Execution.t) :=
  o ← getOrder id;
  let r := Order.recordFill amt prc counterparty ts o in
  modify (fun s => set_heap (<[id := r.2]> (heap s)) s) ;;
  mret r.1.

(** *** Books *)

Inductive ListName :=
  buyL | sellL | marketBuyL | marketSellL | stopLossL | stopLimitL.

Definition getList (l : ListName) (b : OrderBook) : list string :=
  match l with
  | buyL => buy b | sellL => sell b
  | marketBuyL => marketBuy b | marketSellL => marketSell b
  | stopLossL => stopLoss b | stopLimitL => stopLimit b
  end.

Definition setList (l : ListName) (v : list string) (b : OrderBook) : OrderBook :=
  match l with
  | buyL => mkBook v (sell b) (marketBuy b) (marketSell b) (stopLoss b) (stopLimit b) (trades b)
  | sellL => mkBook (buy b) v (marketBuy b) (marketSell b) (stopLoss b) (stopLimit b) (trades b)
  | marketBuyL => mkBook (buy b) (sell b) v (marketSell b) (stopLoss b) (stopLimit b) (trades b)
  | marketSellL => mkBook (buy b) (sell b) (marketBuy b) v (stopLoss b) (stopLimit b) (trades b)
  | stopLossL => mkBook (buy b) (sell b) (marketBuy b) (marketSell b) v (stopLimit b) (trades b)
  | stopLimitL => mkBook (buy b) (sell b) (marketBuy b) (marketSell b) (stopLoss b) v (trades b)
  end.

Definition set_trades (v : list Trade.t) (b : OrderBook) : OrderBook :=
  mkBook (buy b) (sell b) (marketBuy b) (marketSell b) (stopLoss b) (stopLimit b) v.

Definition _emptyBook : OrderBook := mkBook [] [] [] [] [] [] [].

Definition _cloneBook (b : OrderBook) : OrderBook :=
  mkBook (buy b) (sell b) (marketBuy b) (marketSell b) (stopLoss b)
    (stopLimit b) (trades b).

Section Runtime.
Context `{JS.Text}.

Definition _getPairKey (baseToken quoteToken : string) : string :=
  (JS.toLowerCase baseToken ++ "-" ++ JS.toLowerCase quoteToken)%string.

(** The book object of a pair is created once and never replaced, so the
    pair key stands for the reference to it. *)
Definition _getOrCreateOrderBook (pairKey : string) : M unit :=
  modify (fun s =>
    match orderBooks s !! pairKey with
    | Some _ => s
    | None => set_orderBooks (<[pairKey := _emptyBook]> (orderBooks s)) s
    end).

Definition bookOf (pairKey : string) (s : State) : OrderBook :=
  default _emptyBook (orderBooks s !! pairKey).

(** The current contents of the array [book[l]]. *)
Definition readList (pairKey : string) (l : ListName) : M (list string) :=
  gets (fun s => getList l (bookOf pairKey s)).

(** In-place change of the array [book[l]] (or assignment to the field). *)
Definition updList (pairKey : string) (l : ListName)
    (f : list string -> list string) : M unit :=
  modify (fun s =>
    set_orderBooks (alter (fun b => setList l (f (getList l b)) b) pairKey
                      (orderBooks s)) s).

(** [_removeOrderFromList(list, orderId)]: the list without the first
    entry whose id is [orderId], and whether one was found. *)
Fixpoint removeFirst (orderId : string) (l : list string) : list string :=
  match l with
  | [] => []
  | x :: r => if String.eqb x orderId then r else x :: removeFirst orderId r
  end.

Definition includes (orderId : string) (l : list string) : bool :=
  existsb (String.eqb orderId) l.

Definition _removeOrderFromList (pairKey : string) (l : ListName)
    (orderId : string) : M bool :=
  if negb (JS.nonEmpty orderId) then mret false
  else
    xs ← readList pairKey l;
    if includes orderId xs
    then updList pairKey l (removeFirst orderId) ;; mret true
    else mret false.

Definition _recordTrade (pairKey : string) (trade : Trade.t) : M unit :=
  _getOrCreateOrderBook pairKey ;;
  modify (fun s =>
    set_orderBooks
      (alter (fun b =>
                let ts := trades b ++ [trade] in
                set_trades (if (maxTradeHistory <? length ts)%nat
                            then tl ts else ts) b)
             pairKey (orderBooks s)) s).

(** *** Market prices *)

Definition getMarketPriceSnapshotFromKey (pairKey : string) (s : State)
    : option Snapshot :=
  if negb (JS.nonEmpty pairKey) then None
  else
    match marketPrices s !! pairKey with
    | None => None
    | Some p =>
        let meta := marketPriceMeta s !! pairKey in
        let src :=
          match meta with
          | Some m => if JS.nonEmpty (source m) then source m else "unknown"%string
          | None => "unknown"%string
          end in
        let upd := match meta with Some m => Some (updatedAt m) | None => None end in
        let prev :=
          match meta with
          | Some m =>
              match previousPrice m with
              | Some x => if JS.isFinite x && JS.gt x 0 then Some x else None
              | None => None
              end
          | None => None
          end in
        Some (mkSnapshot p src upd prev)
    end.

Definition getMarketPrice (baseToken quoteToken : string) (s : State)
    : option float :=
  if negb (JS.nonEmpty baseToken) || negb (JS.nonEmpty quoteToken) then None
  else
    match marketPrices s !! _getPairKey baseToken quoteToken with
    | Some p => if JS.truthy p then Some p else None
    | None => None
    end.

Definition _normalizeMarketMetadata (md : MarketMetadata) : MarketMetadata :=
  mkMarketMetadata
    (match md_source md with
     | Some src => if JS.notBlank src then Some src else None
     | None => None
     end)
    (md_updatedAt md)
    (match md_previousPrice md with
     | Some p => if JS.isFinite p && JS.gt p 0 then Some p else None
     | None => None
     end)
    false.

Definition _setMarketPriceEntry (pairKey : string) (p : float)
    (md : MarketMetadata) : M unit :=
  modify (fun s =>
    let previousMeta := marketPriceMeta s !! pairKey in
    let src :=
      match md_source md with
      | Some x => if JS.nonEmpty x then x
                  else match previousMeta with
                       | Some m => if JS.nonEmpty (source m) then source m
                                   else "unknown"%string
                       | None => "unknown"%string
                       end
      | None => match previousMeta with
                | Some m => if JS.nonEmpty (source m) then source m
                            else "unknown"%string
                | None => "unknown"%string
                end
      end in
    let upd := match md_updatedAt md with Some d => d | None => now s end in
    let prev :=
      if JS.isFiniteN (md_previousPrice md) then md_previousPrice md
      else match previousMeta with
           | Some m => if JS.isFinite (price m) then Some (price m) else None
           | None => None
           end in
    set_marketPriceMeta
      (<[pairKey := mkPriceMeta src upd prev p]> (marketPriceMeta s))
      (set_marketPrices (<[pairKey := p]> (marketPrices s)) s)).

(** *** Stop conditions *)

Definition _shouldTriggerStop (o : Order.t) (p : float)
    (previous : option float) : bool :=
  match Order.stopPrice o with
  | None => false
  | Some stop =>
      if negb (JS.isFinite stop) || negb (JS.isFinite p) then false
      else if Order.isSell o then p <=? stop
      else JS.ge p stop
  end.

Definition _buildTriggerContext (now_ : Z) (snapshot : option Snapshot)
    (fallbackPrice : float) (previous : option float) : TriggerContext :=
  let triggerPrice :=
    match snapshot with
    | Some sn => if JS.isFinite (s_price sn) && JS.gt (s_price sn) 0
                 then s_price sn else fallbackPrice
    | None => fallbackPrice
    end in
  let triggerSource :=
    match snapshot with
    | Some sn => if JS.nonEmpty (s_source sn) then s_source sn else "trigger"%string
    | None => "trigger"%string
    end in
  let triggerTimestamp :=
    match snapshot with
    | Some sn => match s_updatedAt sn with Some d => d | None => now_ end
    | None => now_
    end in
  let positive (v : option float) :=
    match v with
    | Some x => if JS.isFinite x && JS.gt x 0 then Some x else None
    | None => None
    end in
  mkContext
    (if JS.isFinite triggerPrice && JS.gt triggerPrice 0
     then Some triggerPrice else None)
    triggerSource triggerTimestamp
    (match positive previous with
     | Some x => Some x
     | None => match snapshot with
               | Some sn => positive (s_previousPrice sn)
               | None => None
               end
     end).

Definition _requiresFullFill (o : Order.t) : bool :=
  bool_decide (Order.timeInForce o = FOK) || negb (Order.allowPartialFill o).

(** *** Sorting: [list.sort(cmp)] is stable; [cmp a b > 0] puts [b] first *)

Definition orderCompare (sd : Side) (a b : Order.t) : float :=
  let priceA := JS.Number (Order.price a) in
  let priceB := JS.Number (Order.price b) in
  let byTime : float :=
    if (Order.createdAt b <? Order.createdAt a)%Z then 1
    else if (Order.createdAt a <? Order.createdAt b)%Z then -1
    else 0 in
  match sd with
  | BUY => if negb (priceB =? priceA) then priceB - priceA else byTime
  | SELL => if negb (priceA =? priceB) then priceA - priceB else byTime
  end.

Section Sort.
Context (h : gmap string Order.t) (sd : Side).

Definition after (a b : string) : bool :=
  match h !! a, h !! b with
  | Some oa, Some ob => JS.gt (orderCompare sd oa ob) 0
  | _, _ => false
  end.

Fixpoint insertSorted (x : string) (l : list string) : list string :=
  match l with
  | [] => [x]
  | y :: r => if after x y then y :: insertSorted x r else x :: l
  end.

Definition sortIds (l : list string) : list string :=
  foldr insertSorted [] l.
End Sort.

Definition _sortOrders (pairKey : string) (l : ListName) (sd : Side) : M unit :=
  s ← get;
  updList pairKey l (sortIds (heap s) sd).

(** *** The matching loop, limit and market paths, stop triggering

    [_updateMarketPriceInternal] triggers stops, triggered stops are routed
    through the limit and market paths, and each fill there updates the
    market price again.  The cycle is cut at the price update: everything
    below is written against the price update of the next level
    ([updateRec]), and [loopFuel] bounds the [while] loops. *)

Inductive Matcher :=
| matchAll                                   (* [() => true] *)
| priceCondition (takerIsBuy : bool) (takerPrice : option float).

Definition canMatch (m : Matcher) (maker : Order.t) : bool :=
  match m with
  | matchAll => true
  | priceCondition true p =>
      match Order.price maker with
      | Some mp => mp <=? JS.Number p
      | None => false
      end
  | priceCondition false p =>
      match Order.price maker with
      | Some mp => JS.ge mp (JS.Number p)
      | None => false
      end
  end.

(** [_calculateFillableVolume]: [total] so far, then the rest of the list. *)
Fixpoint fillableFrom (h : gmap string Order.t) (m : Matcher) (total : float)
    (l : list string) : float :=
  match l with
  | [] => total
  | id :: r =>
      match h !! id with
      | Some o => if canMatch m o then fillableFrom h m (total + Order.remaining o) r
                  else total
      | None => total
      end
  end.

Definition _calculateFillableVolume (pairKey : string) (l : ListName)
    (m : Matcher) : M float :=
  gets (fun s => fillableFrom (heap s) m 0 (getList l (bookOf pairKey s))).

Definition _resolveOrderPrice (o : Order.t) : option float :=
  let direct := JS.Number (Order.price o) in
  if JS.isFinite direct && JS.gt direct 0 then Some direct
  else
    let metadataPrice := JS.NumberU (Metadata.price (Order.metadata o)) in
    if JS.isFinite metadataPrice && JS.gt metadataPrice 0 then Some metadataPrice
    else None.

Definition isSynthetic (src : string) : bool :=
  String.eqb (JS.toLowerCase src) "synthetic".

Definition _shouldUseSyntheticLiquidity (o : Order.t) (s : State) : bool :=
  if negb (bool_decide (Order.orderType o = MARKET)) then false
  else
    match _resolveOrderPrice o with
    | None => false
    | Some _ =>
        match Metadata.priceSource (Order.metadata o) with
        | Some src =>
            if JS.nonEmpty src && isSynthetic src then true
            else
              match marketPriceMeta s
                      !! _getPairKey (Order.baseToken o) (Order.quoteToken o) with
              | Some m => isSynthetic (source m)
              | None => false
              end
        | None =>
            match marketPriceMeta s
                    !! _getPairKey (Order.baseToken o) (Order.quoteToken o) with
            | Some m => isSynthetic (source m)
            | None => false
            end
        end
    end.

Definition _determineTradePrice (taker maker : Order.t) (pairKey : string)
    : M float :=
  match Order.price maker with
  | Some p => mret p
  | None =>
      match Order.price taker with
      | Some p => mret p
      | None =>
          s ← get;
          match getMarketPriceSnapshotFromKey pairKey s with
          | Some sn => mret (s_price sn)
          | None => mret 0
          end
      end
  end.

Definition sideOf (o : Order.t) : Side := if Order.isSell o then SELL else BUY.

(** Eight hexadecimal digits for [crypto.randomBytes(4).toString('hex')],
    drawn from the counter. *)
Definition hexDigit (n : nat) : ascii :=
  nth (n mod 16) (list_ascii_of_string "0123456789abcdef") "0"%char.

Fixpoint hex (digits : nat) (n : nat) : string :=
  match digits with
  | O => EmptyString
  | S d => (hex d (n / 16) ++ String (hexDigit n) EmptyString)%string
  end.

Definition randomHex (digits : nat) : M string := fun s =>
  (Return (hex digits (entropy s)), set_entropy (S (entropy s)) s).

Definition _restOnBook (orderId pairKey : string) (l : ListName) (sd : Side)
    : M unit :=
  xs ← readList pairKey l;
  when (negb (includes orderId xs)) (updList pairKey l (fun ys => ys ++ [orderId])) ;;
  o ← getOrder orderId;
  when (Order.filled o =? 0) (updOrder orderId (Order.set_status PENDING)) ;;
  _sortOrders pairKey l sd.

Definition _restMarketOrder (orderId pairKey : string) : M unit :=
  o ← getOrder orderId;
  let l := if Order.isBuy o then marketBuyL else marketSellL in
  xs ← readList pairKey l;
  when (negb (includes orderId xs)) (updList pairKey l (fun ys => ys ++ [orderId])) ;;
  updOrder orderId
    (Order.set_status (if JS.gt (Order.filled o) 0 then PARTIAL else PENDING)) ;;
  t ← gets now;
  updMetadata orderId (fun m =>
    match Metadata.restedAt m with
    | Some _ => m
    | None => Metadata.set_restedAt (Some t) m
    end).

Section Engine.
Context `{Ethers}.
Variable loopFuel : nat.
Variable updateRec : string -> float -> MarketMetadata -> M unit.

(** [priceOracleService.registerTrade(...)] *)
Definition registerTrade (baseToken quoteToken : string)
    (tprice tbase tquote : float) (sd : Side) (src : string) : M unit :=
  modify (fun s =>
    set_oracle
      (Oracle.registerTrade (now s) baseToken quoteToken tprice tbase tquote
         (Some sd) src (oracle s)) s).

Definition _applyMarketBuyImpact (orderId pairKey : string)
    (referencePrice baseFilled : float) : M unit :=
  order ← getOrder orderId;
  if negb (Order.isBuy order)
     || negb (bool_decide (Order.orderType order = MARKET))
  then mret tt
  else
    let filledAmount := baseFilled in
    if negb (JS.isFinite filledAmount) || (filledAmount <=? 0) then mret tt
    else
      let impact := filledAmount * MARKET_BUY_PRICE_IMPACT_RATE in
      if negb (JS.isFinite impact) || (impact <=? 0) then mret tt
      else
        s ← get;
        let tradeReference := referencePrice in
        let baseline0 :=
          if JS.isFinite tradeReference && JS.gt tradeReference 0
          then Some tradeReference else None in
        let baseline1 :=
          match baseline0 with
          | Some b => Some b
          | None =>
              match getMarketPriceSnapshotFromKey pairKey s with
              | Some sn => if JS.isFinite (s_price sn) && JS.gt (s_price sn) 0
                           then Some (s_price sn) else None
              | None => None
              end
          end in
        match baseline1 with
        | None => mret tt
        | Some baselinePrice =>
            let boostedPrice := baselinePrice + impact in
            if negb (JS.isFinite boostedPrice) || (boostedPrice <=? baselinePrice)
            then mret tt
            else
              updateRec pairKey boostedPrice
                (mkMarketMetadata (Some "market-buy-impact"%string) None
                   (Some baselinePrice) false) ;;
              registerTrade (Order.baseToken order) (Order.quoteToken order)
                boostedPrice filledAmount (filledAmount * boostedPrice) BUY
                "market-buy-impact"
        end.

(** The [while] loop of [_matchOrder]; [acc] is [trades] so far. *)
Fixpoint _matchOrder_loop (k : nat) (pairKey takerId : string)
    (opp : ListName) (cm : Matcher) (acc : list Trade.t)
    : M (list Trade.t) :=
  match k with
  | O => outOfFuel
  | S k' =>
      taker ← getOrder takerId;
      oppositeList ← readList pairKey opp;
      match oppositeList with
      | [] => mret acc
      | makerId :: _ =>
          if negb (JS.gt (Order.remaining taker) 0) then mret acc
          else
            maker ← getOrder makerId;
            if negb (canMatch cm maker) then mret acc
            else
              let fillAmount :=
                JS.min (Order.remaining taker) (Order.remaining maker) in
              if fillAmount <=? 0 then mret acc
              else
                tradePrice ← _determineTradePrice taker maker pairKey;
                timestamp ← gets now;
                recordFill makerId fillAmount (Some tradePrice) takerId timestamp ;;
                recordFill takerId fillAmount (Some tradePrice) makerId timestamp ;;
                updMetadata makerId
                  (Metadata.set_lastTrade (Some tradePrice) (Some timestamp)) ;;
                updMetadata takerId
                  (Metadata.set_lastTrade (Some tradePrice) (Some timestamp)) ;;
                let trade :=
                  Trade.mk tradePrice fillAmount fillAmount
                    (if Order.isBuy taker then takerId else makerId)
                    (if Order.isSell taker then takerId else makerId)
                    makerId takerId timestamp None false None None in
                _recordTrade pairKey trade ;;
                updateRec pairKey tradePrice (metaSource "orderbook") ;;
                _applyMarketBuyImpact takerId pairKey tradePrice fillAmount ;;
                _applyMarketBuyImpact makerId pairKey tradePrice fillAmount ;;
                registerTrade (Order.baseToken taker) (Order.quoteToken taker)
                  tradePrice fillAmount (fillAmount * tradePrice)
                  (sideOf taker) "orderbook" ;;
                maker' ← getOrder makerId;
                when (Order.remaining maker' <=? 0) (updList pairKey opp tl) ;;
                _matchOrder_loop k' pairKey takerId opp cm (acc ++ [trade])
      end
  end.

Definition _matchOrder (pairKey takerId : string) (opp : ListName)
    (cm : Matcher) : M (list Trade.t) :=
  _matchOrder_loop loopFuel pairKey takerId opp cm [].

Definition _handleLimitOrder (orderId pairKey : string) : M (list Trade.t) :=
  order ← getOrder orderId;
  let restingMarketOpposite :=
    if Order.isBuy order then marketSellL else marketBuyL in
  resting ← readList pairKey restingMarketOpposite;
  trades1 ← (if (0 <? length resting)%nat
             then _matchOrder pairKey orderId restingMarketOpposite matchAll
             else mret []);
  let opposite := if Order.isBuy order then sellL else buyL in
  let cond := priceCondition (Order.isBuy order) (Order.price order) in
  wouldTrade ←
    (if bool_decide (Order.timeInForce order = POST_ONLY) then
       opp ← readList pairKey opposite;
       match opp with
       | bestOpposite :: _ =>
           best ← getOrder bestOpposite; mret (canMatch cond best)
       | [] => mret false
       end
     else mret false);
  if wouldTrade : bool then
    updMetadata orderId (Metadata.set_rejectReason (Some "POST_ONLY_WOULD_TRADE"%string)) ;;
    updOrder orderId (Order.set_status REJECTED) ;;
    mret []
  else
    insufficient ←
      (if _requiresFullFill order then
         fillableFromResting ← _calculateFillableVolume pairKey restingMarketOpposite matchAll;
         fillableFromOpposite ← _calculateFillableVolume pairKey opposite cond;
         let totalFillable := fillableFromResting + fillableFromOpposite in
         o ← getOrder orderId;
         if totalFillable <? Order.remaining o then
           updMetadata orderId (fun m =>
             Metadata.set_availableVolume (Some totalFillable)
               (Metadata.set_rejectReason (Some "INSUFFICIENT_LIQUIDITY"%string) m)) ;;
           updOrder orderId (Order.set_status REJECTED) ;;
           mret true
         else mret false
       else mret false);
    if insufficient : bool then mret []
    else
      trades2 ← _matchOrder pairKey orderId opposite cond;
      o ← getOrder orderId;
      (if JS.gt (Order.remaining o) 0 then
         if bool_decide (Order.timeInForce o = IOC) then
           updMetadata orderId (fun m =>
             Metadata.set_cancelReason (Some "IOC_UNFILLED"%string)
               (Metadata.set_unfilledAmount (Some (Order.remaining o)) m)) ;;
           updOrder orderId
             (Order.set_status (if JS.gt (Order.filled o) 0 then PARTIAL else REJECTED))
         else if _requiresFullFill o then
           updMetadata orderId
             (Metadata.set_unfilledAmount (Some (Order.remaining o))) ;;
           updOrder orderId
             (Order.set_status (if JS.gt (Order.filled o) 0 then PARTIAL else REJECTED))
         else
           _restOnBook orderId pairKey
             (if Order.isBuy o then buyL else sellL) (Order.side o)
       else updOrder orderId (Order.set_status FILLED)) ;;
      mret (trades1 ++ trades2).

Definition _fillWithSyntheticLiquidity (orderId pairKey : string)
    : M (option Trade.t) :=
  order ← getOrder orderId;
  let baseRemaining := Order.remaining order in
  match _resolveOrderPrice order with
  | None => mret None
  | Some price_ =>
      if negb (JS.isFinite price_) || (price_ <=? 0)
         || negb (JS.gt baseRemaining 0)
      then mret None
      else
        timestamp ← gets now;
        rnd ← randomHex 8;
        let counterpartyId :=
          (SYNTHETIC_COUNTERPARTY_PREFIX ++ "-" ++ rnd)%string in
        execution ← recordFill orderId baseRemaining (Some price_)
                      counterpartyId timestamp;
        match execution with
        | None => mret None
        | Some _ =>
            let quoteAmount := baseRemaining * price_ in
            let trade :=
              Trade.mk price_ baseRemaining baseRemaining
                (if Order.isBuy order then orderId else counterpartyId)
                (if Order.isSell order then orderId else counterpartyId)
                counterpartyId orderId timestamp None true
                (Some counterpartyId) (Some quoteAmount) in
            updMetadata orderId
              (Metadata.set_syntheticFill
                 (Some (Metadata.mkSyntheticFill counterpartyId price_
                          (Some quoteAmount) timestamp))) ;;
            _recordTrade pairKey trade ;;
            updateRec pairKey price_
              (mkMarketMetadata (Some "synthetic"%string) None None true) ;;
            _applyMarketBuyImpact orderId pairKey price_ baseRemaining ;;
            registerTrade (Order.baseToken order) (Order.quoteToken order)
              price_ baseRemaining quoteAmount (sideOf order) "synthetic" ;;
            mret (Some trade)
        end
  end.

Definition _handleMarketOrder (orderId pairKey : string) : M (list Trade.t) :=
  order ← getOrder orderId;
  let restingMarketOpposite :=
    if Order.isBuy order then marketSellL else marketBuyL in
  resting ← readList pairKey restingMarketOpposite;
  trades1 ← (if (0 <? length resting)%nat
             then _matchOrder pairKey orderId restingMarketOpposite matchAll
             else mret []);
  let opposite := if Order.isBuy order then sellL else buyL in
  let requiresFullFill := _requiresFullFill order in
  insufficient ←
    (if requiresFullFill then
       fillableFromResting ← _calculateFillableVolume pairKey restingMarketOpposite matchAll;
       fillableFromOpposite ← _calculateFillableVolume pairKey opposite matchAll;
       let totalFillable := fillableFromResting + fillableFromOpposite in
       o ← getOrder orderId;
       s ← get;
       if (totalFillable <? Order.remaining o)
          && negb (_shouldUseSyntheticLiquidity o s) then
         updMetadata orderId (fun m =>
           Metadata.set_availableVolume (Some totalFillable)
             (Metadata.set_rejectReason (Some "INSUFFICIENT_LIQUIDITY"%string) m)) ;;
         updOrder orderId (Order.set_status REJECTED) ;;
         mret true
       else mret false
     else mret false);
  if insufficient : bool then mret []
  else
    o1 ← getOrder orderId;
    trades2 ← (if JS.gt (Order.remaining o1) 0
               then _matchOrder pairKey orderId opposite matchAll
               else mret []);
    o2 ← getOrder orderId;
    s2 ← get;
    trades3 ← (if JS.gt (Order.remaining o2) 0
                  && _shouldUseSyntheticLiquidity o2 s2 then
                 syntheticTrade ← _fillWithSyntheticLiquidity orderId pairKey;
                 mret (match syntheticTrade with Some t => [t] | None => [] end)
               else mret []);
    o3 ← getOrder orderId;
    (if JS.gt (Order.remaining o3) 0 then
       updMetadata orderId
         (Metadata.set_unfilledAmount (Some (Order.remaining o3))) ;;
       if bool_decide (Order.timeInForce o3 = IOC) then
         updMetadata orderId (Metadata.set_cancelReason (Some "IOC_UNFILLED"%string)) ;;
         updOrder orderId
           (Order.set_status (if JS.gt (Order.filled o3) 0 then PARTIAL else REJECTED))
       else if _requiresFullFill o3 then
         updOrder orderId
           (Order.set_status (if JS.gt (Order.filled o3) 0 then PARTIAL else REJECTED))
       else _restMarketOrder orderId pairKey
     else updOrder orderId (Order.set_status FILLED)) ;;
    mret (trades1 ++ trades2 ++ trades3).
End Engine.

(** *** Triggered stops *)

Definition _determineTriggeredStopFillAmount (buyOrder sellOrder : Order.t)
    : float :=
  let maxFill := JS.min (Order.remaining buyOrder) (Order.remaining sellOrder) in
  if negb (JS.gt maxFill 0) then 0
  else if _requiresFullFill buyOrder
          && (Order.remaining sellOrder <? Order.remaining buyOrder) then 0
  else if _requiresFullFill sellOrder
          && (Order.remaining buyOrder <? Order.remaining sellOrder) then 0
  else if JS.isFiniteN (Order.minFillAmount buyOrder)
          && JS.gt (JS.Number (Order.minFillAmount buyOrder)) maxFill then 0
  else if JS.isFiniteN (Order.minFillAmount sellOrder)
          && JS.gt (JS.Number (Order.minFillAmount sellOrder)) maxFill then 0
  else if _requiresFullFill buyOrder then Order.remaining buyOrder
  else if _requiresFullFill sellOrder then Order.remaining sellOrder
  else maxFill.

Definition positiveStop (o : Order.t) : option float :=
  match Order.stopPrice o with
  | Some x => if JS.isFinite x && JS.gt x 0 then Some x else None
  | None => None
  end.

Definition _resolveTriggeredTradePrice (buyOrder sellOrder : Order.t)
    (pairKey : string) (ctx : TriggerContext) (s : State) : option float :=
  let contextPrice :=
    match c_price ctx with
    | Some x => if JS.isFinite x && JS.gt x 0 then Some x else None
    | None => None
    end in
  match contextPrice with
  | Some x => Some x
  | None =>
      match positiveStop buyOrder, positiveStop sellOrder with
      | Some b, Some sl => Some ((b + sl) / 2)
      | Some b, None => Some b
      | None, Some sl => Some sl
      | None, None =>
          match getMarketPriceSnapshotFromKey pairKey s with
          | Some sn => if JS.isFinite (s_price sn) && JS.gt (s_price sn) 0
                       then Some (s_price sn) else None
          | None => None
          end
      end
  end.

(** [createdAt] is a valid date in every order the constructor builds. *)
Definition _determineTriggeredStopMaker (buyOrder sellOrder : Order.t)
    : Order.t :=
  if (Order.createdAt buyOrder <=? Order.createdAt sellOrder)%Z
  then buyOrder else sellOrder.

Definition _prepareTriggeredStopMetadata (orderId : string)
    (ctx : TriggerContext) : M unit :=
  let triggerPrice :=
    match c_price ctx with
    | Some x => if JS.isFinite x && JS.gt x 0 then Some x else None
    | None => None
    end in
  let triggerSource :=
    if JS.nonEmpty (c_source ctx) then c_source ctx else "trigger"%string in
  let triggerTimestamp := c_timestamp ctx in
  updMetadata orderId (fun m =>
    let m1 :=
      match triggerPrice with
      | Some tp =>
          let m' := Metadata.set_triggeredPrice (Some tp) m in
          let mp := JS.NumberU (Metadata.price m') in
          if negb (JS.isFinite mp) || (mp <=? 0)
          then Metadata.set_price (Some tp) m' else m'
      | None => m
      end in
    let m2 := Metadata.set_triggeredAt (Some triggerTimestamp)
                (Metadata.set_triggerSource (Some triggerSource) m1) in
    match Metadata.priceSource m2 with
    | Some src => if JS.nonEmpty src then m2
                  else Metadata.set_priceSource (Some triggerSource) m2
    | None => Metadata.set_priceSource (Some triggerSource) m2
    end) ;;
  updOrder orderId (Order.markTriggered triggerTimestamp).

Definition pushTrade (id : string) (t : Trade.t)
    (m : gmap string (list Trade.t)) : gmap string (list Trade.t) :=
  <[id := default [] (m !! id) ++ [t]]> m.

Definition appendTrades (id : string) (ts : list Trade.t)
    (m : gmap string (list Trade.t)) : gmap string (list Trade.t) :=
  <[id := default [] (m !! id) ++ ts]> m.

Section Triggers.
Context `{Ethers}.
Variable loopFuel : nat.
Variable updateRec : string -> float -> MarketMetadata -> M unit.

(** The [while] loop of [_matchTriggeredStopLoss]. *)
Fixpoint _matchTriggeredStopLoss_loop (k : nat) (pairKey : string)
    (ctx : TriggerContext) (buyQueue sellQueue : list string)
    (tradesByOrder : gmap string (list Trade.t))
    : M (gmap string (list Trade.t)) :=
  match k with
  | O => outOfFuel
  | S k' =>
      match buyQueue, sellQueue with
      | buyId :: buyRest, sellId :: sellRest =>
          buyOrder ← getOrder buyId;
          sellOrder ← getOrder sellId;
          let fillAmount :=
            _determineTriggeredStopFillAmount buyOrder sellOrder in
          if negb (JS.gt fillAmount 0) then
            if JS.gt (Order.remaining buyOrder) (Order.remaining sellOrder) then
              _matchTriggeredStopLoss_loop k' pairKey ctx buyQueue sellRest tradesByOrder
            else if JS.gt (Order.remaining sellOrder) (Order.remaining buyOrder) then
              _matchTriggeredStopLoss_loop k' pairKey ctx buyRest sellQueue tradesByOrder
            else
              let buyMin :=
                if JS.isFiniteN (Order.minFillAmount buyOrder)
                then JS.Number (Order.minFillAmount buyOrder) else 0 in
              let sellMin :=
                if JS.isFiniteN (Order.minFillAmount sellOrder)
                then JS.Number (Order.minFillAmount sellOrder) else 0 in
              if JS.ge buyMin sellMin then
                _matchTriggeredStopLoss_loop k' pairKey ctx buyRest sellQueue tradesByOrder
              else
                _matchTriggeredStopLoss_loop k' pairKey ctx buyQueue sellRest tradesByOrder
          else
            s ← get;
            match _resolveTriggeredTradePrice buyOrder sellOrder pairKey ctx s with
            | None => mret tradesByOrder
            | Some tradePrice =>
                if negb (JS.isFinite tradePrice) || (tradePrice <=? 0)
                then mret tradesByOrder
                else
                  timestamp ← gets now;
                  recordFill buyId fillAmount (Some tradePrice) sellId timestamp ;;
                  recordFill sellId fillAmount (Some tradePrice) buyId timestamp ;;
                  updMetadata buyId
                    (Metadata.set_lastTrade (Some tradePrice) (Some timestamp)) ;;
                  updMetadata sellId
                    (Metadata.set_lastTrade (Some tradePrice) (Some timestamp)) ;;
                  buyNow ← getOrder buyId;
                  sellNow ← getOrder sellId;
                  let makerOrder := _determineTriggeredStopMaker buyNow sellNow in
                  let takerOrder :=
                    if String.eqb (Order.id makerOrder) (Order.id buyNow)
                    then sellNow else buyNow in
                  let tradeRecord :=
                    Trade.mk tradePrice fillAmount fillAmount
                      (Order.id buyNow) (Order.id sellNow)
                      (Order.id makerOrder) (Order.id takerOrder)
                      timestamp None false None None in
                  _recordTrade pairKey tradeRecord ;;
                  updateRec pairKey tradePrice
                    (mkMarketMetadata (Some "stop-trigger"%string) None None true) ;;
                  registerTrade (Order.baseToken buyNow) (Order.quoteToken buyNow)
                    tradePrice fillAmount (fillAmount * tradePrice)
                    (sideOf takerOrder) "stop-trigger" ;;
                  let tbo :=
                    pushTrade (Order.id sellNow) tradeRecord
                      (pushTrade (Order.id buyNow) tradeRecord tradesByOrder) in
                  buyAfter ← getOrder buyId;
                  sellAfter ← getOrder sellId;
                  _matchTriggeredStopLoss_loop k' pairKey ctx
                    (if Order.remaining buyAfter <=? 0 then buyRest else buyQueue)
                    (if Order.remaining sellAfter <=? 0 then sellRest else sellQueue)
                    tbo
            end
      | _, _ => mret tradesByOrder
      end
  end.

Definition _matchTriggeredStopLoss (entries : list string)
    (pairKey : string) (ctx : TriggerContext)
    : M (gmap string (list Trade.t)) :=
  match entries with
  | [] => mret ∅
  | _ =>
      s ← get;
      let isSide (b : bool) (id : string) :=
        match heap s !! id with
        | Some o => if b then Order.isBuy o else Order.isSell o
        | None => false
        end in
      _matchTriggeredStopLoss_loop loopFuel pairKey ctx
        (List.filter (isSide true) entries) (List.filter (isSide false) entries) ∅
  end.

(** [for (const entry of entries) { ... handler(entry.order) ... }] of
    [_processTriggeredStops], with the trades collected per order. *)
Fixpoint routeTriggered (handler : string -> string -> M (list Trade.t))
    (pairKey : string) (entries : list string)
    (tradesByOrder : gmap string (list Trade.t))
    : M (gmap string (list Trade.t)) :=
  match entries with
  | [] => mret tradesByOrder
  | id :: r =>
      o ← getOrder id;
      if Order.remaining o <=? 0 then
        routeTriggered handler pairKey r tradesByOrder
      else
        ts ← handler id pairKey;
        routeTriggered handler pairKey r
          (if (0 <? length ts)%nat then appendTrades id ts tradesByOrder
           else tradesByOrder)
  end.

Definition isType (ty : OrderType) (e : string * OrderType) : bool :=
  bool_decide (e.2 = ty).

Definition _processTriggeredStops (entries : list (string * OrderType))
    (pairKey : string) (ctx : TriggerContext)
    : M (gmap string (list Trade.t)) :=
  match entries with
  | [] => mret ∅
  | _ =>
      forEach entries (fun e =>
        _prepareTriggeredStopMetadata e.1 ctx ;;
        updOrder e.1
          (Order.set_orderType
             (if bool_decide (e.2 = STOP_LOSS) then MARKET else LIMIT))) ;;
      let stopLimitEntries := (List.filter (isType STOP_LIMIT) entries).*1 in
      let stopLossEntries := (List.filter (isType STOP_LOSS) entries).*1 in
      t1 ← routeTriggered (_handleLimitOrder loopFuel updateRec) pairKey
             stopLimitEntries ∅;
      t3 ← (match stopLossEntries with
            | [] => mret t1
            | _ =>
                pairTrades ← _matchTriggeredStopLoss stopLossEntries pairKey ctx;
                let t2 :=
                  map_fold (fun id ts acc => appendTrades id ts acc) t1 pairTrades in
                routeTriggered (_handleMarketOrder loopFuel updateRec) pairKey
                  stopLossEntries t2
            end);
      forEach entries (fun e =>
        match t3 !! e.1 with
        | Some ts =>
            when (0 <? length ts)%nat
              (updMetadata e.1 (fun m =>
                 Metadata.set_trades
                   (Some (default [] (Metadata.trades m) ++ ts)) m))
        | None => mret tt
        end) ;;
      mret t3
  end.

Definition _triggerStopOrders (pairKey : string) (p : float)
    (previous : option float) : M unit :=
  s ← get;
  match orderBooks s !! pairKey with
  | None => mret tt
  | Some book =>
      let snapshot := getMarketPriceSnapshotFromKey pairKey s in
      let triggerContext := _buildTriggerContext (now s) snapshot p previous in
      let fires (id : string) : bool :=
        match heap s !! id with
        | Some o => _shouldTriggerStop o p previous
        | None => false
        end in
      let keeps (id : string) : bool := negb (fires id) in
      let triggered :=
        List.map (fun id => (id, STOP_LOSS)) (List.filter fires (stopLoss book))
        ++ List.map (fun id => (id, STOP_LIMIT)) (List.filter fires (stopLimit book)) in
      updList pairKey stopLossL (List.filter keeps) ;;
      updList pairKey stopLimitL (List.filter keeps) ;;
      match triggered with
      | [] => mret tt
      | _ => _processTriggeredStops triggered pairKey triggerContext ;; mret tt
      end
  end.

(** The body of [_updateMarketPriceInternal]. *)
Definition updateBody (pairKey : string) (p : float) (md : MarketMetadata)
    : M unit :=
  let numericPrice := p in
  if JS.isNaN numericPrice || (numericPrice <=? 0) then mret tt
  else
    s ← get;
    let previous := marketPrices s !! pairKey in
    let normalizedMetadata :=
      _normalizeMarketMetadata
        (mkMarketMetadata (md_source md) (md_updatedAt md) previous false) in
    _setMarketPriceEntry pairKey numericPrice normalizedMetadata ;;
    inverse ←
      (if JS.includesChar "-" pairKey then
         match JS.split "-" pairKey with
         | baseToken :: quoteToken :: _ =>
             if JS.nonEmpty baseToken && JS.nonEmpty quoteToken then
               let inverseKey := _getPairKey quoteToken baseToken in
               if negb (String.eqb inverseKey pairKey) then
                 s1 ← get;
                 let previousInverse := marketPrices s1 !! inverseKey in
                 let computedInverse := 1 / numericPrice in
                 if JS.isFinite computedInverse && JS.gt computedInverse 0 then
                   _setMarketPriceEntry inverseKey computedInverse
                     (_normalizeMarketMetadata
                        (mkMarketMetadata (md_source md) (md_updatedAt md)
                           previousInverse false)) ;;
                   mret (Some (inverseKey, computedInverse, previousInverse))
                 else mret None
               else mret None
             else mret None
         | _ => mret None
         end
       else mret None);
    (if skipStopTrigger md then mret tt
     else
       match inverse with
       | Some (inverseKey, inversePrice, previousInverse) =>
           when (JS.nonEmpty inverseKey && JS.truthy inversePrice)
             (_triggerStopOrders inverseKey inversePrice previousInverse)
       | None => mret tt
       end) ;;
    (if skipStopTrigger md then mret tt
     else _triggerStopOrders pairKey numericPrice previous).
End Triggers.

(** [_updateMarketPriceInternal], [fuel] levels of nesting deep. *)
Fixpoint _updateMarketPriceInternal `{Ethers} (fuel : nat) (pairKey : string)
    (p : float) (md : MarketMetadata) : M unit :=
  match fuel with
  | O => outOfFuel
  | S n => updateBody n (_updateMarketPriceInternal n) pairKey p md
  end.

(** *** The public operations *)

Section Api.
Context `{Ethers}.
Variable fuel : nat.

Definition _queueStopOrder (orderId : string) (listName : ListName)
    (pairKey : string) : M (list Trade.t) :=
  order ← getOrder orderId;
  match Order.stopPrice order with
  | None =>
      updMetadata orderId (Metadata.set_rejectReason (Some "INVALID_STOP_PRICE"%string)) ;;
      updOrder orderId (Order.set_status REJECTED) ;;
      mret []
  | Some stop =>
      if JS.isNaN stop then
        updMetadata orderId (Metadata.set_rejectReason (Some "INVALID_STOP_PRICE"%string)) ;;
        updOrder orderId (Order.set_status REJECTED) ;;
        mret []
      else
        updOrder orderId (Order.set_status PENDING) ;;
        t ← gets now;
        updMetadata orderId (Metadata.set_queuedAt (Some t)) ;;
        updList pairKey listName (fun ys => ys ++ [orderId]) ;;
        if negb (JS.nonEmpty pairKey) then mret []
        else
          s0 ← get;
          let snapshot0 := getMarketPriceSnapshotFromKey pairKey s0 in
          let currentPrice0 :=
            match snapshot0 with Some sn => s_price sn | None => nan end in
          snapshot ←
            (if negb (JS.isFinite currentPrice0) || (currentPrice0 <=? 0) then
               match Oracle.getCachedPairSnapshot (Order.baseToken order)
                       (Order.quoteToken order) (oracle s0) with
               | Some os =>
                   if JS.isFinite (Oracle.s_price os) && JS.gt (Oracle.s_price os) 0 then
                     _updateMarketPriceInternal fuel pairKey (Oracle.s_price os)
                       (mkMarketMetadata
                          (Some (if JS.nonEmpty (Oracle.s_source os)
                                 then Oracle.s_source os else "synthetic"%string))
                          (Oracle.s_updatedAt os) None false) ;;
                     gets (getMarketPriceSnapshotFromKey pairKey)
                   else mret snapshot0
               | None => mret snapshot0
               end
             else mret snapshot0);
          let currentPrice :=
            match snapshot with Some sn => s_price sn | None => nan end in
          let previousRaw :=
            match snapshot with
            | Some sn => JS.Number (s_previousPrice sn)
            | None => nan
            end in
          let previous :=
            if negb (JS.isFinite previousRaw) || (previousRaw <=? 0)
            then None else Some previousRaw in
          o ← getOrder orderId;
          if JS.isFinite currentPrice && JS.gt currentPrice 0
             && _shouldTriggerStop o currentPrice previous then
            _removeOrderFromList pairKey listName orderId ;;
            t' ← gets now;
            let triggerContext :=
              _buildTriggerContext t' snapshot currentPrice previous in
            let stopType :=
              match listName with stopLossL => STOP_LOSS | _ => STOP_LIMIT end in
            tradesMap ← _processTriggeredStops fuel
                          (_updateMarketPriceInternal fuel)
                          [(orderId, stopType)] pairKey triggerContext;
            mret (default [] (tradesMap !! orderId))
          else mret []
  end.

(** [addOrder(order)]: the object enters the heap under its id, as
    [orderService.createOrder] registers it before the call. *)
Definition addOrder (order : Order.t) : M unit :=
  if negb (JS.nonEmpty (Order.baseToken order))
     || negb (JS.nonEmpty (Order.quoteToken order))
  then throw "Order must include baseToken and quoteToken"
  else
    let orderId := Order.id order in
    modify (fun s => set_heap (<[orderId := order]> (heap s)) s) ;;
    let pairKey := _getPairKey (Order.baseToken order) (Order.quoteToken order) in
    _getOrCreateOrderBook pairKey ;;
    trades_ ←
      match Order.orderType order with
      | MARKET =>
          _handleMarketOrder fuel (_updateMarketPriceInternal fuel) orderId pairKey
      | STOP_LOSS => _queueStopOrder orderId stopLossL pairKey
      | STOP_LIMIT => _queueStopOrder orderId stopLimitL pairKey
      | LIMIT =>
          _handleLimitOrder fuel (_updateMarketPriceInternal fuel) orderId pairKey
      end;
    when (0 <? length trades_)%nat
      (updMetadata orderId (Metadata.set_trades (Some trades_))).

Definition updateMarketPrice (baseToken quoteToken : string) (p : float)
    : M unit :=
  let pairKey := _getPairKey baseToken quoteToken in
  let numericPrice := p in
  if JS.isNaN numericPrice || (numericPrice <=? 0)
  then throw "Invalid market price"
  else _updateMarketPriceInternal fuel pairKey numericPrice (metaSource "external").

Definition cancelOrder (orderId : string) : M bool :=
  order ← getOrder orderId;
  let pairKey := _getPairKey (Order.baseToken order) (Order.quoteToken order) in
  s ← get;
  match orderBooks s !! pairKey with
  | None => mret false
  | Some _ =>
      r1 ← _removeOrderFromList pairKey buyL orderId;
      r2 ← _removeOrderFromList pairKey sellL orderId;
      r3 ← _removeOrderFromList pairKey stopLossL orderId;
      r4 ← _removeOrderFromList pairKey stopLimitL orderId;
      mret (r4 || (r3 || (r2 || (r1 || false))))
  end.

Definition _cleanupOrderFromBooks (orderId : string) : M unit :=
  order ← getOrder orderId;
  if negb (JS.nonEmpty (Order.baseToken order))
     || negb (JS.nonEmpty (Order.quoteToken order)) then mret tt
  else
    let pairKey := _getPairKey (Order.baseToken order) (Order.quoteToken order) in
    s ← get;
    match orderBooks s !! pairKey with
    | None => mret tt
    | Some _ =>
        (if Order.isBuy order then
           _removeOrderFromList pairKey buyL orderId ;;
           _removeOrderFromList pairKey marketBuyL orderId
         else
           _removeOrderFromList pairKey sellL orderId ;;
           _removeOrderFromList pairKey marketSellL orderId) ;;
        _removeOrderFromList pairKey stopLossL orderId ;;
        _removeOrderFromList pairKey stopLimitL orderId ;;
        mret tt
    end.
End Api.

Inductive BookResult :=
| onePair (b : OrderBook)
| allPairs (m : gmap string OrderBook).

Definition getOrderBook (baseToken quoteToken : string) (s : State) : BookResult :=
  if JS.nonEmpty baseToken && JS.nonEmpty quoteToken then
    match orderBooks s !! _getPairKey baseToken quoteToken with
    | Some book => onePair (_cloneBook book)
    | None => onePair _emptyBook
    end
  else allPairs (_cloneBook <$> orderBooks s).

(** [getRecentTrades(baseToken, quoteToken, limit)] for a numeric limit. *)
Definition getRecentTrades (baseToken quoteToken : string) (limit : Z)
    (s : State) : list Trade.t :=
  match orderBooks s !! _getPairKey baseToken quoteToken with
  | None => []
  | Some book =>
      if (limit <=? 0)%Z then trades book
      else skipn (length (trades book) - Z.to_nat limit) (trades book)
  end.

(** *** [executeBatchTrades] *)

Record BatchEntry := mkBatchEntry {
  e_order : string;
  e_price : float;
  e_rate : float;
  e_offerToken : string;
  e_requestToken : string;
  e_offerTokenRaw : string;
  e_requestTokenRaw : string;
  e_offerRemaining : float;
  e_isSell : bool;
  e_allowPartialFill : bool;
}.

Record BatchResult := mkBatchResult {
  r_batchId : string;
  r_offerAmounts : list float;
  r_requestAmounts : list float;
  r_trades : list Trade.t;
  r_orders : list string;
}.

Definition _normalizeBatchOrder (orderId : string) : M BatchEntry :=
  order ← getOrder orderId;
  if Order.remaining order <=? 0 then
    throw ("Order " ++ orderId ++ " has no remaining amount")
  else if Order.isTerminal order then
    throw ("Order " ++ orderId ++ " is not active")
  else
    let price_ := JS.Number (Order.price order) in
    if negb (JS.isFinite price_) || (price_ <=? 0) then
      throw ("Order " ++ orderId ++ " must specify a valid price for batch execution")
    else
      let offerToken :=
        if Order.isSell order then Order.baseToken order else Order.quoteToken order in
      let requestToken :=
        if Order.isSell order then Order.quoteToken order else Order.baseToken order in
      if negb (JS.nonEmpty offerToken) || negb (JS.nonEmpty requestToken) then
        throw ("Order " ++ orderId ++ " is missing token information")
      else
        let offerRemaining :=
          if Order.isSell order then Order.remaining order
          else Order.remaining order * price_ in
        let rate := if Order.isSell order then price_ else 1 / price_ in
        if negb (JS.isFinite rate) || (rate <=? 0) then
          throw ("Order " ++ orderId ++ " has an invalid conversion rate")
        else
          mret (mkBatchEntry orderId price_ rate
                  (JS.toLowerCase offerToken) (JS.toLowerCase requestToken)
                  offerToken requestToken offerRemaining
                  (Order.isSell order) (Order.allowPartialFill order)).

Fixpoint mapM {A B} (f : A -> M B) (l : list A) : M (list B) :=
  match l with
  | [] => mret []
  | x :: r => y ← f x; ys ← mapM f r; mret (y :: ys)
  end.

(** [entries[(i + 1) % n]] for every [i]. *)
Definition rotate {A} (l : list A) : list A :=
  match l with
  | [] => []
  | x :: r => r ++ [x]
  end.

(** The loop that bounds [maxOffer] by every later order's liquidity;
    [None] when a candidate is not positive. *)
Fixpoint boundOffer (cumulativeRate maxOffer : float)
    (previous : BatchEntry) (rest : list BatchEntry) : option float :=
  match rest with
  | [] => Some maxOffer
  | e :: r =>
      let cumulativeRate' := cumulativeRate * e_rate previous in
      let candidate := e_offerRemaining e / cumulativeRate' in
      if negb (JS.gt candidate 0) then None
      else boundOffer cumulativeRate' (JS.min maxOffer candidate) e r
  end.

(** The loop that fills [offerAmounts] and [requestAmounts]; [None] when
    an offer amount is not positive. *)
Fixpoint propagate (offerAmount : float) (es : list BatchEntry)
    : option (list float * list float) :=
  match es with
  | [] => Some ([], [])
  | e :: r =>
      if negb (JS.gt offerAmount 0) then None
      else
        let requestAmount := offerAmount * e_rate e in
        match r with
        | [] => Some ([offerAmount], [requestAmount])
        | _ =>
            match propagate requestAmount r with
            | Some (os, rs) => Some (offerAmount :: os, requestAmount :: rs)
            | None => None
            end
        end
  end.

Section Batch.
Context `{Ethers}.
Variable fuel : nat.

(** One turn of the loop that applies the fills. *)
Definition applyLeg (tolerance : float) (batchId : string) (timestamp : Z)
    (index : nat) (entry nextEntry : BatchEntry)
    (offerAmount requestAmount : float) : M Trade.t :=
  order ← getOrder (e_order entry);
  let baseFilled := if e_isSell entry then offerAmount else requestAmount in
  if JS.gt baseFilled (Order.remaining order + tolerance) then
    throw "Batch execution overfills an order"
  else if negb (e_allowPartialFill entry)
          && JS.gt (JS.abs (baseFilled - Order.remaining order)) tolerance then
    throw "Batch execution would only partially fill an all-or-nothing order"
  else
    execution ← recordFill (e_order entry) baseFilled (Some (e_price entry))
                  (e_order nextEntry) timestamp;
    when (bool_decide (is_Some execution))
      (updOrder (e_order entry) (fun o =>
         Order.set_executions
           (match List.rev (Order.executions o) with
            | last :: before =>
                List.rev before
                ++ [Execution.tagBatch last batchId offerAmount requestAmount]
            | [] => []
            end) o)) ;;
    updMetadata (e_order entry) (fun m =>
      Metadata.set_batchExecutions
        (Some (default [] (Metadata.batchExecutions m)
               ++ [Metadata.mkBatchExecution batchId index
                     (e_offerTokenRaw entry) (e_requestTokenRaw entry)
                     offerAmount requestAmount timestamp])) m) ;;
    let tradeRecord :=
      Trade.mk (e_price entry) baseFilled baseFilled
        (if Order.isBuy order then e_order entry else e_order nextEntry)
        (if Order.isSell order then e_order entry else e_order nextEntry)
        (e_order entry) (e_order nextEntry) timestamp (Some batchId)
        false None None in
    let pairKey := _getPairKey (Order.baseToken order) (Order.quoteToken order) in
    _recordTrade pairKey tradeRecord ;;
    _updateMarketPriceInternal fuel pairKey (e_price entry) (metaSource "batch") ;;
    registerTrade (Order.baseToken order) (Order.quoteToken order)
      (e_price entry) baseFilled (baseFilled * e_price entry)
      (sideOf order) "batch" ;;
    after ← getOrder (e_order entry);
    when (Order.remaining after <=? tolerance)
      (_cleanupOrderFromBooks (e_order entry)) ;;
    mret tradeRecord.

Fixpoint applyLegs (tolerance : float) (batchId : string) (timestamp : Z)
    (index : nat) (legs : list (BatchEntry * BatchEntry * (float * float)))
    : M (list Trade.t) :=
  match legs with
  | [] => mret []
  | (entry, nextEntry, (offerAmount, requestAmount)) :: r =>
      t ← applyLeg tolerance batchId timestamp index entry nextEntry
            offerAmount requestAmount;
      ts ← applyLegs tolerance batchId timestamp (S index) r;
      mret (t :: ts)
  end.

(** [executeBatchTrades(orderList, {tolerance})]; [tolerance] is [None]
    when the option is not a number. *)
Definition executeBatchTrades (orderList : list string)
    (tolerance_ : option float) : M BatchResult :=
  if (length orderList <? 2)%nat then
    throw "Batch execution requires at least two orders"
  else
    let tolerance :=
      match tolerance_ with Some t => JS.abs t | None => 1e-8 end in
    normalizedOrders ← mapM _normalizeBatchOrder orderList;
    if existsb (fun p : BatchEntry * BatchEntry =>
                  negb (String.eqb (e_requestToken p.1) (e_offerToken p.2)))
         (combine normalizedOrders (rotate normalizedOrders))
    then throw "Batch orders must form a closed token loop"
    else
      let totalRate :=
        fold_left (fun acc entry => acc * e_rate entry) normalizedOrders 1 in
      if negb (JS.isFinite totalRate) || (totalRate <=? 0) then
        throw "Batch orders produce an invalid aggregate conversion rate"
      else if JS.gt (JS.abs (totalRate - 1)) tolerance then
        throw "Batch orders do not balance; aggregate conversion rate must be 1"
      else
        match normalizedOrders with
        | [] => throw "Batch execution requires at least two orders"
        | first :: rest =>
            if negb (JS.gt (e_offerRemaining first) 0) then
              throw "Batch execution requires remaining liquidity"
            else
              match boundOffer 1 (e_offerRemaining first) first rest with
              | None => throw "Batch execution lacks sufficient liquidity"
              | Some maxOffer =>
                  if negb (JS.gt maxOffer 0) then
                    throw "Batch execution lacks sufficient liquidity"
                  else
                    match propagate maxOffer normalizedOrders with
                    | None => throw "Batch execution amount must be positive"
                    | Some (offerAmounts, requestAmounts) =>
                        let finalRequest := List.last requestAmounts 0 in
                        if JS.gt (JS.abs (finalRequest - maxOffer)) tolerance then
                          throw "Batch orders cannot settle without imbalance"
                        else
                          batchId ← randomHex 32;
                          timestamp ← gets now;
                          trades_ ←
                            applyLegs tolerance batchId timestamp 0
                              (combine
                                 (combine normalizedOrders (rotate normalizedOrders))
                                 (combine offerAmounts requestAmounts));
                          mret (mkBatchResult batchId offerAmounts requestAmounts
                                  trades_ orderList)
                    end
              end
        end.
End Batch.
End Runtime.
End Matching.

(** ** [order.service.js] *)

Module OrderService.
Import Matching.

(** [order.toJSON()]: the fields of the object the HTTP layer sends, for
    the part of the record that is modelled; dates stay timestamps. *)
Record OrderJSON := mkOrderJSON {
  j_id : string;
  j_baseToken : string;
  j_quoteToken : string;
  j_side : Side;
  j_price : option float;
  j_amount : float;
  j_filled : float;
  j_remaining : float;
  j_status : Status;
  j_orderType : OrderType;
  j_timeInForce : TimeInForce;
  j_stopPrice : option float;
  j_allowPartialFill : bool;
  j_minFillAmount : option float;
  j_triggeredAt : option Z;
  j_metadata : Metadata.t;
  j_createdAt : Z;
  j_updatedAt : Z;
  j_executions : list Execution.t;
}.

Definition toJSON (o : Order.t) : OrderJSON :=
  mkOrderJSON (Order.id o) (Order.baseToken o) (Order.quoteToken o)
    (Order.side o) (Order.price o) (Order.amount o) (Order.filled o)
    (Order.remaining o) (Order.status o) (Order.orderType o)
    (Order.timeInForce o) (Order.stopPrice o) (Order.allowPartialFill o)
    (Order.minFillAmount o) (Order.triggeredAt o) (Order.metadata o)
    (Order.createdAt o) (Order.updatedAt o) (Order.executions o).

(** The values of a serialized book: arrays of orders or of trades. *)
Inductive Collection :=
| ordersJSON (l : list OrderJSON)
| tradesJSON (l : list Trade.t).

(** A JavaScript object literal: its keys, in order, with their values. *)
Definition JsObject := list (string * Collection).

Fixpoint property (k : string) (o : JsObject) : option Collection :=
  match o with
  | [] => None
  | (k', v) :: r => if String.eqb k k' then Some v else property k r
  end.

Definition hasOwnProperty (k : string) (o : JsObject) : bool :=
  bool_decide (is_Some (property k o)).

(** [getOrder(id)] *)
Definition getOrder (id : string) (s : State) : option Order.t :=
  if JS.nonEmpty id then heap s !! id else None.

(** [book.buy.map(order => order.toJSON())]: the objects behind the
    references. *)
Definition serializeOrders (s : State) (ids : list string) : list OrderJSON :=
  omap (fun id => toJSON <$> heap s !! id) ids.

(** [_serializeOrderBook(book)]; [None] is a missing book. *)
Definition _serializeOrderBook (s : State) (book : option OrderBook)
    : JsObject :=
  match book with
  | None =>
      [("buy", ordersJSON []); ("sell", ordersJSON []);
       ("stopLoss", ordersJSON []); ("stopLimit", ordersJSON []);
       ("trades", tradesJSON [])]%string
  | Some b =>
      [("buy", ordersJSON (serializeOrders s (buy b)));
       ("sell", ordersJSON (serializeOrders s (sell b)));
       ("stopLoss", ordersJSON (serializeOrders s (stopLoss b)));
       ("stopLimit", ordersJSON (serializeOrders s (stopLimit b)));
       ("trades", tradesJSON (trades b))]%string
  end.

Inductive BookResponse :=
| oneBook (o : JsObject)
| allBooks (m : gmap string JsObject).

Section Runtime.
Context `{JS.Text}.

(** [getOrderBook(baseToken, quoteToken)] *)
Definition getOrderBook (baseToken quoteToken : string) (s : State)
    : BookResponse :=
  match Matching.getOrderBook baseToken quoteToken s with
  | onePair book => oneBook (_serializeOrderBook s (Some book))
  | allPairs books => allBooks ((fun b => _serializeOrderBook s (Some b)) <$> books)
  end.

Section Service.
Context `{Ethers}.
Variable fuel : nat.

(** [cancelOrder(id, reason)], giving the order or [null]. *)
Definition cancelOrder (id : string) (reason : string) : M (option Order.t) :=
  s ← get;
  match getOrder id s with
  | None => mret None
  | Some order =>
      if Order.isTerminal order then mret (Some order)
      else
        Matching.cancelOrder id ;;
        t ← gets now;
        updOrder id (Order.cancel reason t) ;;
        s' ← get;
        mret (heap s' !! id)
  end.

(** [updateMarketPrice(baseToken, quoteToken, price)] *)
Definition updateMarketPrice (baseToken quoteToken : string) (p : float)
    : M (option float) :=
  Matching.updateMarketPrice fuel baseToken quoteToken p ;;
  gets (Matching.getMarketPrice baseToken quoteToken).

(** The engine part of [executeBatch(orderIds, options)]: the orders are
    looked up, then handed to the matching service. *)
Definition executeBatch (orderIds : list string) (tolerance : option float)
    : M BatchResult :=
  if (length orderIds <? 2)%nat then
    throw "orderIds must include at least two entries for batch execution"
  else
    s ← get;
    match List.find (fun id => negb (bool_decide (is_Some (getOrder id s)))) orderIds with
    | Some missing => throw ("Order " ++ missing ++ " not found")
    | None => Matching.executeBatchTrades fuel orderIds tolerance
    end.
End Service.
End Runtime.
End OrderService.

(** ** Scenarios of the repository's test-suite

    Tokens are plain symbols there; [ethers.getAddress] rejects them.
    Every string of the scenarios is an ASCII string, on which the case
    mapping of the runtime is [JS.asciiText]. *)

Module Scenario.
Import Matching.
Local Open Scope float_scope.
Local Set Warnings "-inexact-float".

#[export] Instance symbolicTokens : Ethers :=
  {| getAddress := fun _ => None; formatUnitsNumber := fun _ _ => None |}.

#[export] Instance asciiStrings : JS.Text := JS.asciiText.

Definition fuel : nat := 64.

(** The state a computation ends in. *)
Definition exec {A} (m : M A) (s : State) : State := (m s).2.
Definition outcome {A} (m : M A) (s : State) : Outcome A := (m s).1.

Definition statusOf (id : string) (s : State) : option Status :=
  Order.status <$> heap s !! id.
Definition filledOf (id : string) (s : State) : option float :=
  Order.filled <$> heap s !! id.
Definition listOf (base quote : string) (l : ListName) (s : State) : list string :=
  getList l (bookOf (_getPairKey base quote) s).

Definition cancelReasonOf (id : string) (s : State) : option string :=
  heap s !! id ≫= fun o => Metadata.cancelReason (Order.metadata o).
Definition rejectReasonOf (id : string) (s : State) : option string :=
  heap s !! id ≫= fun o => Metadata.rejectReason (Order.metadata o).
Definition triggeredAtOf (id : string) (s : State) : option Z :=
  heap s !! id ≫= Order.triggeredAt.
Definition triggeredPriceOf (id : string) (s : State) : option float :=
  heap s !! id ≫= fun o => Metadata.triggeredPrice (Order.metadata o).
Definition executionsOf (id : string) (s : State) : option nat :=
  (fun o => length (Order.executions o)) <$> heap s !! id.
Definition takers (base quote : string) (s : State) : list string :=
  Trade.takerOrderId <$> trades (bookOf (_getPairKey base quote) s).

(** [new Order({id, ..., side, amount, orderType, price})] *)
Definition order (id : string) (sd : Side) (ty : OrderType)
    (p : option float) (amt : float) (stop : option float) (created : Z)
    : Order.t :=
  Order.create id "AAA" "BBB" sd p amt ty GTC stop created.

(** *** A market order rests, is cancelled, and a limit order arrives *)

Definition buyMarketRest : Order.t :=
  order "buy-market-rest" BUY MARKET None 5 None 1.
Definition sellLimitFill : Order.t :=
  order "sell-limit-fill" SELL LIMIT (Some 100) 5 None 2.

Definition restingMarketBuy : State :=
  exec (addOrder fuel buyMarketRest) (initial 1000).
Definition cancelRestingMarketBuy : M (option Order.t) :=
  OrderService.cancelOrder "buy-market-rest" "USER_CANCELLED".
Definition afterCancel : State := exec cancelRestingMarketBuy restingMarketBuy.
Definition afterCancelThenLimit : State :=
  exec (addOrder fuel sellLimitFill) afterCancel.

(** *** A two-order ring whose second order is all-or-nothing *)

Definition ringSeller : Order.t :=
  Order.create "ring-0" "AAA" "BBB" SELL (Some 1) 1 LIMIT GTC None 1.
Definition allOrNothing : Order.t :=
  Order.mk "ring-1" "BBB" "AAA" SELL (Some 1) 2 0 PENDING STOP_LIMIT GTC
    (Some 0.5) false None None Metadata.empty 2 2 [].

Definition beforeBatch : State :=
  exec (addOrder fuel allOrNothing)
    (exec (addOrder fuel ringSeller) (initial 1000)).
Definition ringBatch : M BatchResult :=
  OrderService.executeBatch fuel ["ring-0"; "ring-1"] None.
Definition afterBatch : State := exec ringBatch beforeBatch.

(** *** A post-only limit order meets a resting market order *)

Definition sellMarketRest : Order.t :=
  order "sell-market-rest" SELL MARKET None 5 None 1.
Definition postOnly : Order.t :=
  Order.create "post-only" "AAA" "BBB" BUY (Some 100) 5 LIMIT POST_ONLY None 2.

Definition restingMarketSell : State :=
  exec (addOrder fuel sellMarketRest) (initial 1000).
Definition afterPostOnly : State := exec (addOrder fuel postOnly) restingMarketSell.

(** *** A triggered stop-limit trades and the trade price reaches a
    second stop *)

Definition ask : Order.t := order "ask" SELL LIMIT (Some 10) 1 None 1.
Definition stopLimitA : Order.t :=
  order "stop-a" BUY STOP_LIMIT (Some 10) 1 (Some 6) 2.
Definition stopLossB : Order.t :=
  order "stop-b" BUY STOP_LOSS None 1 (Some 9) 3.

Definition stopsQueued : State :=
  exec (addOrder fuel stopLossB)
    (exec (addOrder fuel stopLimitA)
       (exec (addOrder fuel ask) (initial 1000))).
Definition afterPriceSix : State :=
  exec (updateMarketPrice fuel "AAA" "BBB" 6) stopsQueued.

(** *** Two triggered stop-loss orders are cross-matched at 10 while a
    third stop (stop 9) is queued *)

Definition crossBuy : Order.t := order "cross-buy" BUY STOP_LOSS None 2 (Some 6) 4.
Definition crossSell : Order.t := order "cross-sell" SELL STOP_LOSS None 2 (Some 12) 5.

Definition crossQueued : State :=
  exec (addOrder fuel crossSell)
    (exec (addOrder fuel crossBuy) (exec (addOrder fuel stopLossB) (initial 1000))).
Definition contextAtTen : TriggerContext := mkContext (Some 10) "external" 1000 None.
Definition crossMatch : M (gmap string (list Trade.t)) :=
  _matchTriggeredStopLoss fuel (_updateMarketPriceInternal fuel)
    ["cross-buy"; "cross-sell"]%string "aaa-bbb" contextAtTen.

(** *** A stop order whose stop price is zero *)

Definition zeroStop : Order.t := order "zero-stop" SELL STOP_LOSS None 1 (Some 0) 1.
Definition afterZeroStop : State := exec (addOrder fuel zeroStop) (initial 1000).

(** *** A stop order without a stop price *)

Definition noStopPrice : Order.t := order "no-stop" SELL STOP_LOSS None 1 None 1.

(** *** Stop orders at and below zero, arriving at a market price of 5 *)

Definition pricedAtFive : State :=
  exec (updateMarketPrice fuel "AAA" "BBB" 5) (initial 1000).
Definition negativeStop : Order.t :=
  order "negative-stop" SELL STOP_LOSS None 1 (Some (-1)) 1.
Definition zeroBuyStop : Order.t :=
  order "zero-buy-stop" BUY STOP_LOSS None 1 (Some 0) 1.
Definition afterNegativeStop : State :=
  exec (addOrder fuel negativeStop) pricedAtFive.
Definition afterZeroBuyStop : State :=
  exec (addOrder fuel zeroBuyStop) pricedAtFive.

(** *** The smallest positive price *)

Definition tinyPrice : float := 0x1p-1074.
Definition afterTinyPrice : State :=
  exec (updateMarketPrice fuel "AAA" "BBB" tinyPrice) (initial 1000).

(** *** Prices for a token with a dash, for two spellings of one token
    and for an empty token *)

Definition afterDashedPrice : State :=
  exec (updateMarketPrice fuel "A-B" "C" 2) (initial 1000).
Definition afterFoldedPrice : State :=
  exec (updateMarketPrice fuel "AAA" "aaa" 2) (initial 1000).
Definition afterEmptyTokenPrice : State :=
  exec (updateMarketPrice fuel "" "BBB" 2) (initial 1000).

(** *** A fill of an infinite amount *)

Definition taker : Order.t :=
  Order.create "taker" "AAA" "BBB" BUY (Some 100) 5 LIMIT GTC None 1.
Definition infiniteFill : option Execution.t * Order.t :=
  Order.recordFill infinity (Some 100) "maker" 7 taker.

(** *** A stop order that arrives half filled *)

Definition partialStop : Order.t :=
  Order.mk "stop-partial" "AAA" "BBB" SELL None 2 1 PARTIAL STOP_LOSS GTC
    (Some 6) true None None Metadata.empty 1 1 [].
Definition afterPartialStop : State :=
  exec (addOrder fuel partialStop) (initial 1000).

(** *** A token the directory does not know: its metadata is its address *)

Definition unknownToken : Oracle.TokenMeta :=
  Oracle.mkMeta (Some "tyd"%string) None None None None.
End Scenario.

(** ** Reference definitions: the specification's own formulas *)

Module Reference.
Local Open Scope float_scope.
Local Set Warnings "-inexact-float".

Definition clamp (x lo hi : float) : float :=
  if x <? lo then lo else if hi <? x then hi else x.

Section UnitValue.
Context `{Ethers} `{JS.Text}.

(** [SHA-256(addr|SYMBOL|NAME)], high 32 bits. *)
Definition hi32 (meta : Oracle.TokenMeta) (fallbackAddress : string) : Z :=
  let addr :=
    Oracle.normalizeAddress
      (if JS.nonEmpty (Oracle.orEmpty (Oracle.address meta))
       then Oracle.orEmpty (Oracle.address meta) else fallbackAddress) in
  SHA256.readUInt32BE0
    (addr ++ "|" ++ JS.toUpperCase (Oracle.orEmpty (Oracle.symbol meta))
          ++ "|" ++ JS.toUpperCase (Oracle.orEmpty (Oracle.name meta)))%string.

Definition symbolLength (meta : Oracle.TokenMeta) : Z :=
  Z.of_nat (JS.length (JS.toUpperCase (Oracle.orEmpty (Oracle.symbol meta)))).

(** [base(T) = 1/totalSupply(T)] when the supply is known and positive,
    [1] otherwise. *)
Definition base (meta : Oracle.TokenMeta) : float :=
  match Oracle.parseSupply meta with
  | Some supply => 1 / supply
  | None => 1
  end.

(** As the specification words it: [f = hi32 / 2^32],
    [m = (0.5 + f) × (1 + (len mod 5) × 0.05)],
    [uv = clamp(m × base, 10^-12, 10^12)]. *)
Definition f_spec (meta : Oracle.TokenMeta) (fb : string) : float :=
  Oracle.ofZ (hi32 meta fb) / 4294967296.

Definition m_spec (meta : Oracle.TokenMeta) (fb : string) : float :=
  (0.5 + f_spec meta fb) * (1 + Oracle.ofZ (symbolLength meta mod 5) * 0.05).

Definition uv_spec (meta : Oracle.TokenMeta) (fb : string) : float :=
  clamp (m_spec meta fb * base meta) 1e-12 1e12.

(** As amended: [f = hi32 / (2^32 - 1)], [m = (0.5 + 1.5 × f) × (1 +
    (len mod 5) × 0.05)], and a value that is not positive gives way
    to [1] before it is used. *)
Definition positiveOr1 (x : float) : float := if 0 <? x then x else 1.

Definition f_amended (meta : Oracle.TokenMeta) (fb : string) : float :=
  Oracle.ofZ (hi32 meta fb) / 4294967295.

Definition m_amended (meta : Oracle.TokenMeta) (fb : string) : float :=
  (0.5 + 1.5 * f_amended meta fb)
  * (1 + Oracle.ofZ (symbolLength meta mod 5) * 0.05).

Definition uv_amended (meta : Oracle.TokenMeta) (fb : string) : float :=
  clamp (positiveOr1 (m_amended meta fb * positiveOr1 (base meta)))
    1e-12 1e12.
End UnitValue.

(** The fill/status invariant of an order record. *)
(** The fill/status invariant of an order record: when the status is
    PENDING or PARTIAL, [0 <= filled <= amount], [filled = 0] exactly
    when PENDING, [0 < filled < amount] exactly when PARTIAL, and
    [filled = amount] only when FILLED. *)
Definition fillStatusInvariant (o : Order.t) : bool :=
  let filled := Order.filled o in
  let amount := Order.amount o in
  let statusIs (st : Status) := bool_decide (Order.status o = st) in
  if statusIs PENDING || statusIs PARTIAL then
    (0 <=? filled) && (filled <=? amount)
    && Bool.eqb (filled =? 0) (statusIs PENDING)
    && Bool.eqb ((0 <? filled) && (filled <? amount)) (statusIs PARTIAL)
    && implb (filled =? amount) (statusIs FILLED)
  else true.

(** The state after the stop path has rejected the order [id]:
    [metadata.rejectReason] and [status] are set, nothing else moves. *)
Definition rejectInvalidStop (id : string) (s : Matching.State)
    : Matching.State :=
  Matching.set_heap
    (alter (Order.set_status REJECTED) id
       (alter (Order.upd_metadata
                 (Metadata.set_rejectReason (Some "INVALID_STOP_PRICE"%string)))
          id (Matching.heap s))) s.

Section Arrival.
Context `{Ethers} `{JS.Text}.

(** The state in which [addOrder] hands the order to its handler: the
    order object is reachable and the book of its pair exists. *)
Definition accepted (o : Order.t) (s : Matching.State) : Matching.State :=
  (Matching._getOrCreateOrderBook
     (Matching._getPairKey (Order.baseToken o) (Order.quoteToken o))
     (Matching.set_heap (<[Order.id o := o]> (Matching.heap s)) s)).2.

(** Nothing makes the stop order [o] fire when it arrives: the pair has
    a market price, finite and above zero, that does not satisfy the
    trigger condition of [o], or it has none and the oracle has no
    snapshot for the pair either. *)
Definition quietArrival (o : Order.t) (s : Matching.State) : bool :=
  match Matching.marketPrices s
          !! Matching._getPairKey (Order.baseToken o) (Order.quoteToken o) with
  | Some p =>
      JS.isFinite p && JS.gt p 0 && negb (Matching._shouldTriggerStop o p None)
  | None =>
      match Oracle.getCachedPairSnapshot (Order.baseToken o)
              (Order.quoteToken o) (Matching.oracle s) with
      | Some _ => false
      | None => true
      end
  end.

(** The order record of a stop order that has been queued at time [t]. *)
Definition queuedStop (t : Z) (o : Order.t) : Order.t :=
  Order.upd_metadata (Metadata.set_queuedAt (Some t))
    (Order.set_status PENDING o).
End Arrival.

(** [s'] differs from [s] at most in the order objects [ids], in the trade
    histories, in the price tables and in the oracle: every list of every
    book holds the same references, and every other order is the same. *)
Definition onlyTouches (ids : list string) (s s' : Matching.State) : Prop :=
  (forall key l,
     Matching.getList l (Matching.bookOf key s')
     = Matching.getList l (Matching.bookOf key s))
  /\ (forall id, ~ In id ids -> Matching.heap s' !! id = Matching.heap s !! id).

(** A computation that, from any state, touches the orders [ids] only. *)
Definition frameM {A} (ids : list string) (m : Matching.M A) : Prop :=
  forall s, onlyTouches ids s (m s).2.

(** No stop order queued under [pairKey] fires at price [p]. *)
Definition noStopFires (pairKey : string) (p : float) (s : Matching.State)
    : bool :=
  match Matching.orderBooks s !! pairKey with
  | None => true
  | Some book =>
      forallb (fun id =>
                 match Matching.heap s !! id with
                 | Some o => negb (Matching._shouldTriggerStop o p None)
                 | None => true
                 end)
        (Matching.stopLoss book ++ Matching.stopLimit book)
  end.
End Reference.

(** ** Invariants and the states that the handlers reach *)

Module Laws.
Import Matching.
Local Open Scope float_scope.

(** A computation whose final state, whatever the outcome, is related by
    [R] to the state it starts from. *)
Definition preserves (R : State -> State -> Prop) {A} (m : M A) : Prop :=
  forall s, R s (m s).2.

(** The terms of an order: what the trader fixed when placing it. *)
Definition sameTerms (o o' : Order.t) : Prop :=
  Order.id o' = Order.id o
  /\ Order.baseToken o' = Order.baseToken o
  /\ Order.quoteToken o' = Order.quoteToken o
  /\ Order.side o' = Order.side o
  /\ Order.price o' = Order.price o
  /\ Order.amount o' = Order.amount o
  /\ Order.timeInForce o' = Order.timeInForce o
  /\ Order.stopPrice o' = Order.stopPrice o
  /\ Order.allowPartialFill o' = Order.allowPartialFill o
  /\ Order.minFillAmount o' = Order.minFillAmount o
  /\ Order.createdAt o' = Order.createdAt o.

(** How an order record may change: its terms stay, no execution is
    dropped, and a trigger time, once set, stays set. *)
Definition evolves (o o' : Order.t) : Prop :=
  sameTerms o o'
  /\ (length (Order.executions o) <= length (Order.executions o'))%nat
  /\ (is_Some (Order.triggeredAt o) -> is_Some (Order.triggeredAt o')).

(** Every order of [s] is still there in [s'], evolved. *)
Definition keepsOrders (s s' : State) : Prop :=
  forall id o, heap s !! id = Some o ->
    exists o', heap s' !! id = Some o' /\ evolves o o'.

(** Every stored market price is above zero. *)
Definition pricesPositive (s : State) : Prop :=
  forall key p, marketPrices s !! key = Some p -> JS.gt p 0 = true.

(** No book holds more than [maxTradeHistory] trades. *)
Definition historyBounded (s : State) : Prop :=
  forall key b, orderBooks s !! key = Some b ->
    (length (trades b) <= maxTradeHistory)%nat.

(** A finite price above zero. *)
Definition positivePrice (x : float) : Prop :=
  JS.isFinite x = true /\ JS.gt x 0 = true.

(** Every pair state of the oracle holds a finite price above zero. *)
Definition wellPriced (o : Oracle.t) : Prop :=
  forall k st, Oracle.pairStates o !! k = Some st ->
    positivePrice (Oracle.price st).

Definition oraclePositive (s : State) : Prop := wellPriced (oracle s).

(** The books after [cancelOrder]: the first entry with the order's id is
    gone from [buy], [sell], [stopLoss] and [stopLimit] of the pair. *)
Definition cancelled (id key : string) (s : State) : State :=
  set_orderBooks
    (alter (fun b =>
              mkBook (removeFirst id (buy b)) (removeFirst id (sell b))
                (marketBuy b) (marketSell b)
                (removeFirst id (stopLoss b)) (removeFirst id (stopLimit b))
                (trades b))
       key (orderBooks s)) s.

(** The two price tables agree: a pair has a price exactly when it has a
    metadata entry, and the entry records that price. *)
Definition tablesAgree (s : State) : Prop :=
  forall key,
    match marketPrices s !! key, marketPriceMeta s !! key with
    | Some p, Some m => price m = p
    | None, None => True
    | _, _ => False
    end.

(** The state after [_restOnBook]. *)
Definition rested (id key : string) (l : ListName) (sd : Side) (s : State)
    : State :=
  let s1 :=
    if includes id (getList l (bookOf key s)) then s
    else (updList key l (fun ys => ys ++ [id]) s).2 in
  let s2 :=
    match heap s1 !! id with
    | Some o =>
        if Order.filled o =? 0
        then (updOrder id (Order.set_status PENDING) s1).2 else s1
    | None => s1
    end in
  (updList key l (sortIds (heap s2) sd) s2).2.

(** The order record after an unfilled market order has been rested. *)
Definition restedMarketOrder (t : Z) (o : Order.t) : Order.t :=
  Order.upd_metadata
    (fun m => match Metadata.restedAt m with
              | Some _ => m
              | None => Metadata.set_restedAt (Some t) m
              end)
    (Order.set_status (if JS.gt (Order.filled o) 0 then PARTIAL else PENDING)
       (Order.upd_metadata
          (Metadata.set_unfilledAmount (Some (Order.remaining o))) o)).

(** The state after [_handleMarketOrder] has rested the order. *)
Definition marketRested (o : Order.t) (key : string) (s : State) : State :=
  let l := if Order.isBuy o then marketBuyL else marketSellL in
  let s1 :=
    if includes (Order.id o) (getList l (bookOf key s)) then s
    else (updList key l (fun ys => ys ++ [Order.id o]) s).2 in
  set_heap (<[Order.id o := restedMarketOrder (now s) o]> (heap s1)) s1.

(** The messages of the checks that [executeBatchTrades] makes while the
    fills are applied (the last one is the model's, for an id that names
    no order object). *)
Definition lateMessage (msg : string) : Prop :=
  msg = "Batch execution overfills an order"%string
  \/ msg = "Batch execution would only partially fill an all-or-nothing order"%string
  \/ msg = "dangling order reference"%string.

(** An order that [_normalizeBatchOrder] refuses. *)
Definition unfit (o : Order.t) : bool :=
  (Order.remaining o <=? 0) || Order.isTerminal o
  || negb (JS.isFinite (JS.Number (Order.price o)))
  || (JS.Number (Order.price o) <=? 0).

#[export] Instance ListName_dec : EqDecision ListName.
Proof. solve_decision. Defined.

(** An invariant, as a relation between the state before and after. *)
Definition keeps (Inv : State -> Prop) (s s' : State) : Prop := Inv s -> Inv s'.

Section WithEthers.
Context `{Ethers} `{JS.Text}.

(** The elementary writes of the engine; a relation that holds across each
    of them holds across every operation. *)
Record respected (R : State -> State -> Prop) : Prop := {
  r_refl : forall s, R s s;
  r_trans : forall s1 s2 s3, R s1 s2 -> R s2 s3 -> R s1 s3;
  r_order : forall s id f,
    (forall o, evolves o (f o)) ->
    R s (set_heap (alter f id (heap s)) s);
  r_fill : forall s id o o',
    heap s !! id = Some o -> evolves o o' ->
    R s (set_heap (<[id := o']> (heap s)) s);
  r_books : forall s key f,
    (forall b, length (trades (f b)) = length (trades b)) ->
    R s (set_orderBooks (alter f key (orderBooks s)) s);
  r_newBook : forall s key,
    orderBooks s !! key = None ->
    R s (set_orderBooks (<[key := _emptyBook]> (orderBooks s)) s);
  r_trade : forall s key t, R s (_recordTrade key t s).2;
  r_price : forall s key p md,
    JS.gt p 0 = true -> R s (_setMarketPriceEntry key p md s).2;
  r_oracle : forall s b q p x y sd src,
    R s (registerTrade b q p x y sd src s).2;
  r_entropy : forall s n, R s (randomHex n s).2;
}.

(** A property of computations that holds of the elementary reads and
    writes and is kept by sequencing holds of every operation; [T] says
    which messages may be thrown. *)
Record closed (T : string -> Prop) (Q : forall A, M A -> Prop) : Prop := {
  c_ret : forall A (a : A), Q A (mret a);
  c_bind : forall A B (m : M A) (k : A -> M B),
    Q A m -> (forall a, Q B (k a)) -> Q B (m ≫= k);
  c_throw : forall A msg, T msg -> Q A (throw msg);
  c_outOfFuel : forall A, Q A outOfFuel;
  c_get : Q State get;
  c_gets : forall A (f : State -> A), Q A (gets f);
  c_getOrder : forall id, Q Order.t (getOrder id);
  c_updOrder : forall id f,
    (forall o, evolves o (f o)) -> Q unit (updOrder id f);
  c_recordFill : forall id amt prc cp ts,
    Q (option Execution.t) (recordFill id amt prc cp ts);
  c_updList : forall key l f, Q unit (updList key l f);
  c_getOrCreate : forall key, Q unit (_getOrCreateOrderBook key);
  c_recordTrade : forall key t, Q unit (_recordTrade key t);
  c_setEntry : forall key p md,
    JS.gt p 0 = true -> Q unit (_setMarketPriceEntry key p md);
  c_registerTrade : forall b q p x y sd src,
    Q unit (registerTrade b q p x y sd src);
  c_randomHex : forall n, Q string (randomHex n);
}.

(** The messages a computation may throw. *)
Definition throwsOnly (P : string -> Prop) (A : Type) (m : M A) : Prop :=
  forall s msg, (m s).1 = Throw msg -> P msg.
End WithEthers.
End Laws.

(** ** Further scenarios *)

Module Cases.
Import Matching Scenario.
Local Open Scope float_scope.

(** *** A sell limit order rests on an empty book *)

Definition restingAsk : State := exec (addOrder fuel ask) (initial 1000).

(** *** Limit orders that may not rest *)


(** *** An oracle that has seen one trade *)

Definition tradedOracle : Oracle.t :=
  Oracle.registerTrade 1000 "AAA" "BBB" 2 1 2 (Some BUY) "trade" Oracle.empty.

(** *** Two legs of a ring, by their rates *)

Definition leg (id : string) (rate : float) : BatchEntry :=
  mkBatchEntry id rate rate "aaa" "bbb" "AAA" "BBB" 1 true true.
End Cases.

(** * Properties *)

(** ** Facts about numbers *)

Module NumberFacts.
Local Open Scope float_scope.

Lemma SFeqb_refl_finite s m e :
  SFeqb (S754_finite s m e) (S754_finite s m e) = true.
Proof.
  unfold SFeqb, SFcompare.
  destruct s; rewrite Z.compare_refl, Pos.compare_cont_refl; reflexivity.
Qed.

(** A number above zero is not NaN, not below or at zero, not zero. *)
Lemma positive_cases (x : float) :
  (0 <? x) = true ->
  PrimFloat.is_nan x = false /\ (x <=? 0) = false /\ (x =? 0) = false.
Proof.
  unfold PrimFloat.is_nan.
  rewrite ltb_spec, leb_spec, !FloatAxioms.eqb_spec.
  change (Prim2SF 0) with (S754_zero false).
  destruct (Prim2SF x) as [s|s| |s m e]; try discriminate.
  - destruct s; cbn; try discriminate; auto.
  - destruct s; try discriminate. intros _.
    rewrite SFeqb_refl_finite. cbn. auto.
Qed.

(** Every number is NaN, at most zero, or above zero. *)
Lemma sign_cases (x : float) :
  PrimFloat.is_nan x = false -> (x <=? 0) = false -> (0 <? x) = true.
Proof.
  unfold PrimFloat.is_nan.
  rewrite ltb_spec, leb_spec, !FloatAxioms.eqb_spec.
  change (Prim2SF 0) with (S754_zero false).
  destruct (Prim2SF x) as [s|s| |s m e]; cbn; try discriminate;
    destruct s; cbn; try discriminate; auto.
Qed.

Lemma truthy_positive (x : float) : (0 <? x) = true -> JS.truthy x = true.
Proof.
  intros Hx. destruct (positive_cases x Hx) as (Hn & _ & Hz).
  unfold JS.truthy, JS.isNaN. now rewrite Hn, Hz.
Qed.

(** Multiplication of doubles is commutative. *)
Lemma mul_comm (x y : float) : x * y = y * x.
Proof.
  apply Prim2SF_inj. rewrite !mul_spec.
  destruct (Prim2SF x) as [sx|sx| |sx mx ex],
           (Prim2SF y) as [sy|sy| |sy my ey];
    simpl; try reflexivity; try (rewrite xorb_comm; reflexivity).
  rewrite xorb_comm, Pos.mul_comm, Z.add_comm. reflexivity.
Qed.
End NumberFacts.

(** ** The order of the doubles *)

Module FloatOrder.
Local Open Scope float_scope.

Lemma SFcompare_antisym x y :
  SFcompare y x = option_map CompOpp (SFcompare x y).
Proof.
  destruct x as [sx|sx| |sx mx ex], y as [sy|sy| |sy my ey]; cbn;
    try reflexivity;
    try (destruct sx; reflexivity); try (destruct sy; reflexivity);
    try (destruct sx, sy; reflexivity).
  destruct sx, sy; cbn; try reflexivity;
    rewrite (Z.compare_antisym ex ey);
    destruct (ex ?= ey)%Z; cbn; try reflexivity;
    rewrite (Pos.compare_cont_antisym mx my Eq); cbn;
    destruct (Pos.compare_cont Eq mx my); reflexivity.
Qed.

Lemma is_nan_spec x : PrimFloat.is_nan x = true <-> Prim2SF x = S754_nan.
Proof.
  unfold PrimFloat.is_nan. rewrite FloatAxioms.eqb_spec.
  destruct (Prim2SF x) as [s|s| |s m e].
  - cbn. split; discriminate.
  - destruct s; cbn; split; discriminate.
  - cbn. split; reflexivity.
  - rewrite NumberFacts.SFeqb_refl_finite. split; discriminate.
Qed.

Lemma not_nan_compare x y :
  PrimFloat.is_nan x = false -> PrimFloat.is_nan y = false ->
  exists c, SFcompare (Prim2SF x) (Prim2SF y) = Some c.
Proof.
  intros Hx Hy.
  assert (Prim2SF x <> S754_nan) by (rewrite <- is_nan_spec; congruence).
  assert (Prim2SF y <> S754_nan) by (rewrite <- is_nan_spec; congruence).
  destruct (Prim2SF x) as [sx|sx| |sx mx ex], (Prim2SF y) as [sy|sy| |sy my ey];
    try congruence; cbn; eauto.
Qed.

Lemma ltb_leb x y : (x <? y) = true -> (x <=? y) = true.
Proof.
  rewrite ltb_spec, leb_spec. unfold SFltb, SFleb.
  now destruct (SFcompare _ _) as [[]|].
Qed.

Lemma ltb_not_nan x y :
  (x <? y) = true -> PrimFloat.is_nan x = false /\ PrimFloat.is_nan y = false.
Proof.
  rewrite ltb_spec. unfold SFltb. intros Hc.
  split; apply not_true_is_false; rewrite is_nan_spec; intros E; rewrite E in Hc.
  - discriminate.
  - now destruct (Prim2SF x).
Qed.

Lemma leb_not_nan x y :
  (x <=? y) = true -> PrimFloat.is_nan x = false /\ PrimFloat.is_nan y = false.
Proof.
  rewrite leb_spec. unfold SFleb. intros Hc.
  split; apply not_true_is_false; rewrite is_nan_spec; intros E; rewrite E in Hc.
  - discriminate.
  - now destruct (Prim2SF x).
Qed.

Lemma nlt_le x y :
  PrimFloat.is_nan x = false -> PrimFloat.is_nan y = false ->
  (x <? y) = false -> (y <=? x) = true.
Proof.
  intros Hx Hy. destruct (not_nan_compare x y Hx Hy) as [c Hc].
  rewrite ltb_spec, leb_spec. unfold SFltb, SFleb.
  rewrite (SFcompare_antisym (Prim2SF x) (Prim2SF y)), Hc.
  now destruct c.
Qed.

Lemma nle_lt x y :
  PrimFloat.is_nan x = false -> PrimFloat.is_nan y = false ->
  (x <=? y) = false -> (y <? x) = true.
Proof.
  intros Hx Hy. destruct (not_nan_compare x y Hx Hy) as [c Hc].
  rewrite ltb_spec, leb_spec. unfold SFltb, SFleb.
  rewrite (SFcompare_antisym (Prim2SF x) (Prim2SF y)), Hc.
  now destruct c.
Qed.

Lemma leb_refl x : PrimFloat.is_nan x = false -> (x <=? x) = true.
Proof.
  intros Hx. destruct (not_nan_compare x x Hx Hx) as [c Hc].
  rewrite leb_spec. unfold SFleb.
  pose proof (SFcompare_antisym (Prim2SF x) (Prim2SF x)) as Ha.
  rewrite Hc in *. cbn in Ha. destruct c; try reflexivity; discriminate.
Qed.

Lemma lt_irrefl_le x y : (x <? y) = true -> (y <=? x) = false.
Proof.
  rewrite ltb_spec, leb_spec. unfold SFltb, SFleb.
  rewrite (SFcompare_antisym (Prim2SF x) (Prim2SF y)).
  now destruct (SFcompare _ _) as [[]|].
Qed.


Lemma is_finite_spec x :
  PrimFloat.is_finite x = true <->
  (exists s, Prim2SF x = S754_zero s) \/ (exists s m e, Prim2SF x = S754_finite s m e).
Proof.
  unfold PrimFloat.is_finite, PrimFloat.is_infinity, PrimFloat.is_nan.
  rewrite !FloatAxioms.eqb_spec, abs_spec.
  change (Prim2SF infinity) with (S754_infinity false).
  destruct (Prim2SF x) as [s|s| |s m e].
  - cbn. split; eauto.
  - destruct s; cbn; (split; [discriminate |]);
      intros [[? ?] | (? & ? & ? & ?)]; discriminate.
  - cbn. split; [discriminate |]. intros [[? ?] | (? & ? & ? & ?)]; discriminate.
  - rewrite NumberFacts.SFeqb_refl_finite. cbn. split; eauto 6.
Qed.

(** The order is transitive. *)
Lemma SFcompare_lt_le_trans x y z :
  SFltb x y = true -> SFleb y z = true -> SFltb x z = true.
Proof.
  unfold SFltb, SFleb.
  destruct x as [sx|sx| |sx mx ex], y as [sy|sy| |sy my ey],
           z as [sz|sz| |sz mz ez]; cbn;
    try discriminate; try reflexivity;
    try (destruct sx; cbn; try discriminate; try reflexivity);
    try (destruct sy; cbn; try discriminate; try reflexivity);
    try (destruct sz; cbn; try discriminate; try reflexivity).
  all: change (Pos.compare_cont Eq) with Pos.compare.
  all: destruct (Z.compare_spec ex ey), (Z.compare_spec ey ez),
         (Z.compare_spec ex ez); try discriminate; try reflexivity; try lia;
       subst; cbn.
  all: destruct (Pos.compare_spec mx my), (Pos.compare_spec my mz),
         (Pos.compare_spec mx mz); cbn; try discriminate; try reflexivity;
       try lia.
Qed.

Lemma SFcompare_le_lt_trans x y z :
  SFleb x y = true -> SFltb y z = true -> SFltb x z = true.
Proof.
  unfold SFltb, SFleb.
  destruct x as [sx|sx| |sx mx ex], y as [sy|sy| |sy my ey],
           z as [sz|sz| |sz mz ez]; cbn;
    try discriminate; try reflexivity;
    try (destruct sx; cbn; try discriminate; try reflexivity);
    try (destruct sy; cbn; try discriminate; try reflexivity);
    try (destruct sz; cbn; try discriminate; try reflexivity).
  all: change (Pos.compare_cont Eq) with Pos.compare.
  all: destruct (Z.compare_spec ex ey), (Z.compare_spec ey ez),
         (Z.compare_spec ex ez); try discriminate; try reflexivity; try lia;
       subst; cbn.
  all: destruct (Pos.compare_spec mx my), (Pos.compare_spec my mz),
         (Pos.compare_spec mx mz); cbn; try discriminate; try reflexivity;
       try lia.
Qed.

Lemma SFcompare_le_trans x y z :
  SFleb x y = true -> SFleb y z = true -> SFleb x z = true.
Proof.
  unfold SFleb.
  destruct x as [sx|sx| |sx mx ex], y as [sy|sy| |sy my ey],
           z as [sz|sz| |sz mz ez]; cbn;
    try discriminate; try reflexivity;
    try (destruct sx; cbn; try discriminate; try reflexivity);
    try (destruct sy; cbn; try discriminate; try reflexivity);
    try (destruct sz; cbn; try discriminate; try reflexivity).
  all: change (Pos.compare_cont Eq) with Pos.compare.
  all: destruct (Z.compare_spec ex ey), (Z.compare_spec ey ez),
         (Z.compare_spec ex ez); try discriminate; try reflexivity; try lia;
       subst; cbn.
  all: destruct (Pos.compare_spec mx my), (Pos.compare_spec my mz),
         (Pos.compare_spec mx mz); cbn; try discriminate; try reflexivity;
       try lia.
Qed.

Lemma lt_le_trans x y z :
  (x <? y) = true -> (y <=? z) = true -> (x <? z) = true.
Proof. rewrite !ltb_spec, leb_spec. apply SFcompare_lt_le_trans. Qed.

Lemma le_lt_trans x y z :
  (x <=? y) = true -> (y <? z) = true -> (x <? z) = true.
Proof. rewrite !ltb_spec, leb_spec. apply SFcompare_le_lt_trans. Qed.

Lemma le_trans x y z :
  (x <=? y) = true -> (y <=? z) = true -> (x <=? z) = true.
Proof. rewrite !leb_spec. apply SFcompare_le_trans. Qed.

(** A number between two finite numbers is finite. *)
Lemma between_finite lo hi x :
  PrimFloat.is_finite lo = true -> PrimFloat.is_finite hi = true ->
  (lo <=? x) = true -> (x <=? hi) = true -> PrimFloat.is_finite x = true.
Proof.
  rewrite !is_finite_spec, !leb_spec. unfold SFleb.
  intros [[s1 E1] | (s1 & m1 & e1 & E1)] [[s2 E2] | (s2 & m2 & e2 & E2)];
    rewrite E1, E2; destruct (Prim2SF x) as [s|s| |s m e]; cbn;
    try discriminate; eauto 6; destruct s; try discriminate;
    try (destruct s1; discriminate); try (destruct s2; discriminate).
Qed.
End FloatOrder.

(** ** [Order.recordFill] *)

Module OrderFacts.
Local Open Scope float_scope.

(** C10, amended. [recordFill] with an amount that is NaN or not above
    zero (zero, a negative number, minus infinity) returns [null] and
    leaves the order as it is (filled, status, executions and updatedAt
    included); with any amount above zero, plus infinity included, it
    appends one execution of that amount, adds the amount to [filled]
    and stamps [updatedAt]; nothing but an amount above zero yields an
    execution. *)
Theorem recordFill_only_positive (o : Order.t) (amt : float)
    (prc : option float) (counterparty : string) (ts : Z) :
  (JS.isNaN amt = true \/ (amt <=? 0) = true ->
     Order.recordFill amt prc counterparty ts o = (None, o))
  /\ (JS.gt amt 0 = true ->
        exists e o',
          Order.recordFill amt prc counterparty ts o = (Some e, o')
          /\ Execution.amount e = amt
          /\ Order.executions o' = Order.executions o ++ [e]
          /\ Order.filled o' = Order.filled o + amt
          /\ Order.updatedAt o' = ts)
  /\ (forall e o',
        Order.recordFill amt prc counterparty ts o = (Some e, o') ->
        JS.gt amt 0 = true).
Proof.
  unfold Order.recordFill, JS.isNaN, JS.gt. repeat split.
  - intros [Hn | Hle]; [now rewrite Hn | rewrite Hle, orb_true_r; reflexivity].
  - intros Hpos.
    destruct (NumberFacts.positive_cases amt Hpos) as (Hn & Hle & _).
    rewrite Hn, Hle. cbn [orb].
    eexists _, _. split; [reflexivity |].
    destruct (Order.remaining _ <=? 0); cbn; auto.
  - intros e o'.
    destruct (PrimFloat.is_nan amt) eqn:Hn; cbn [orb]; [discriminate |].
    destruct (amt <=? 0) eqn:Hle; [discriminate |].
    intros _. now apply NumberFacts.sign_cases.
Qed.

Lemma recordFill_only_positive_witness :
  Order.recordFill 0 (Some 100) "maker" 7
    (Order.create "taker" "AAA" "BBB" BUY (Some 100) 5 LIMIT GTC None 1)
  = (None, Order.create "taker" "AAA" "BBB" BUY (Some 100) 5 LIMIT GTC None 1)
  /\ exists e o',
       Order.recordFill 2 (Some 100) "maker" 7
         (Order.create "taker" "AAA" "BBB" BUY (Some 100) 5 LIMIT GTC None 1)
       = (Some e, o')
       /\ Execution.amount e = 2
       /\ Order.executions o' = [] ++ [e]
       /\ Order.filled o' = 0 + 2
       /\ Order.updatedAt o' = 7%Z.
Proof.
  split.
  - apply (recordFill_only_positive
             (Order.create "taker" "AAA" "BBB" BUY (Some 100) 5 LIMIT GTC None 1)
             0 (Some 100) "maker" 7).
    right. reflexivity.
  - apply (recordFill_only_positive
             (Order.create "taker" "AAA" "BBB" BUY (Some 100) 5 LIMIT GTC None 1)
             2 (Some 100) "maker" 7).
    reflexivity.
Defined.

(** C10, as stated, fails: plus infinity is not a finite number, yet
    [recordFill] does not return [null] for it; it appends an execution
    of infinite amount, and the order (amount 5, nothing filled) ends
    FILLED with [filled] infinite. *)
Lemma recordFill_of_infinity_is_recorded :
  JS.isFinite infinity = false
  /\ option_map Execution.amount (fst Scenario.infiniteFill) = Some infinity
  /\ Order.filled (snd Scenario.infiniteFill) = infinity
  /\ Order.status (snd Scenario.infiniteFill) = FILLED
  /\ List.length (Order.executions (snd Scenario.infiniteFill)) = 1%nat
  /\ Order.updatedAt (snd Scenario.infiniteFill) = 7%Z
  /\ Order.filled Scenario.taker = 0
  /\ Order.status Scenario.taker = PENDING.
Proof. vm_compute. repeat split; reflexivity. Qed.
End OrderFacts.

(** ** Pair keys *)

Module StringFacts.
Local Open Scope string_scope.

Lemma includes_separator a b : JS.includesChar "-" (a ++ "-" ++ b) = true.
Proof.
  induction a as [| c a IH].
  - reflexivity.
  - change ((if Ascii.eqb "-" c then true
             else JS.includesChar "-" (a ++ "-" ++ b)) = true).
    rewrite IH. now destruct (Ascii.eqb "-" c).
Qed.

Lemma split_none s : JS.includesChar "-" s = false -> JS.split "-" s = [s].
Proof.
  induction s as [| c s IH]; cbn [JS.split JS.includesChar]; [reflexivity |].
  destruct (Ascii.eqb "-" c); [discriminate |].
  intros Hs. now rewrite IH.
Qed.

Lemma split_pair a b :
  JS.includesChar "-" a = false -> JS.includesChar "-" b = false ->
  JS.split "-" (a ++ "-" ++ b) = [a; b].
Proof.
  intros Ha Hb. induction a as [| c a IH].
  - change (EmptyString :: JS.split "-" b = [EmptyString; b]).
    now rewrite split_none.
  - change ((if Ascii.eqb "-" c
             then EmptyString :: JS.split "-" (a ++ "-" ++ b)
             else match JS.split "-" (a ++ "-" ++ b) with
                  | [] => [String c EmptyString]
                  | x :: xs => String c x :: xs
                  end) = [String c a; b]).
    cbn [JS.includesChar] in Ha. destruct (Ascii.eqb "-" c); [discriminate |].
    now rewrite IH.
Qed.

Lemma pairKey_swap_neq a b :
  JS.includesChar "-" a = false -> JS.includesChar "-" b = false ->
  a <> b -> b ++ "-" ++ a <> a ++ "-" ++ b.
Proof.
  intros Ha Hb Hne Heq.
  apply (f_equal (JS.split "-")) in Heq.
  rewrite !split_pair in Heq by assumption.
  congruence.
Qed.

Lemma nonEmpty_seed a b : JS.nonEmpty (a ++ "|" ++ b) = true.
Proof. now destruct a. Qed.

Section Runtime.
Context `{JS.Text}.

Lemma pairKey_inverse b q :
  JS.includesChar "-" b = false -> JS.includesChar "-" q = false ->
  JS.nonEmpty b = true -> JS.nonEmpty q = true ->
  JS.includesChar "-" (Matching._getPairKey b q) = true
  /\ JS.split "-" (Matching._getPairKey b q)
     = [JS.toLowerCase b; JS.toLowerCase q]
  /\ Matching._getPairKey (JS.toLowerCase q) (JS.toLowerCase b)
     = Matching._getPairKey q b
  /\ JS.nonEmpty (Matching._getPairKey q b) = true.
Proof.
  intros Hdb Hdq Hb Hq. unfold Matching._getPairKey. repeat split.
  - apply includes_separator.
  - apply split_pair; now rewrite JS.lower_dash.
  - now rewrite !JS.lower_idem.
  - cbn. now destruct (JS.toLowerCase q).
Qed.
End Runtime.
End StringFacts.

(** ** The matching service *)

Module MatchingFacts.
Import Matching.
Local Open Scope float_scope.

#[local] Instance ListName_eq_dec : EqDecision ListName.
Proof. solve_decision. Defined.

Ltac run :=
  unfold mbind, mret, M_bind, M_ret, get, gets, modify, throw, when,
    getOrder, updMetadata, updOrder; cbn beta iota.

Lemma filter_keeps {A} (f g : A -> bool) (l : list A) :
  (forall x, g x = true -> f x = true) ->
  forallb g l = true -> List.filter f l = l.
Proof.
  intros Hfg. induction l as [| x l IH]; cbn; [reflexivity |].
  destruct (g x) eqn:Hg; cbn; [| discriminate].
  rewrite (Hfg x Hg). intros Hl. now rewrite IH.
Qed.

Lemma filter_drops {A} (f g : A -> bool) (l : list A) :
  (forall x, g x = true -> f x = false) ->
  forallb g l = true -> List.filter f l = [].
Proof.
  intros Hfg. induction l as [| x l IH]; cbn; [reflexivity |].
  destruct (g x) eqn:Hg; cbn; [| discriminate].
  rewrite (Hfg x Hg). exact IH.
Qed.

Lemma setList_getList l b : setList l (getList l b) b = b.
Proof. destruct b, l; reflexivity. Qed.

Lemma set_orderBooks_same s : set_orderBooks (orderBooks s) s = s.
Proof. now destruct s. Qed.

(** A list operation that changes nothing leaves the state as it is. *)
Lemma updList_same key l f s :
  (forall b, orderBooks s !! key = Some b -> f (getList l b) = getList l b) ->
  updList key l f s = (Return tt, s).
Proof.
  intros Hf. unfold updList, modify. f_equal.
  rewrite alter_id.
  - apply set_orderBooks_same.
  - intros b Hb. rewrite (Hf b Hb). apply setList_getList.
Qed.

Lemma getOrCreate_run key s :
  _getOrCreateOrderBook key s = (Return tt, (_getOrCreateOrderBook key s).2).
Proof. reflexivity. Qed.

Lemma getOrCreate_heap key s : heap (_getOrCreateOrderBook key s).2 = heap s.
Proof.
  unfold _getOrCreateOrderBook, modify. cbn.
  now destruct (orderBooks s !! key).
Qed.

Lemma getOrCreate_bookOf key s :
  bookOf key (_getOrCreateOrderBook key s).2 = bookOf key s.
Proof.
  unfold _getOrCreateOrderBook, modify, bookOf. cbn.
  destruct (orderBooks s !! key) eqn:E; cbn; [now rewrite E |].
  now rewrite lookup_insert_eq.
Qed.

Lemma setEntry_run key p md s :
  _setMarketPriceEntry key p md s
  = (Return tt, (_setMarketPriceEntry key p md s).2).
Proof. reflexivity. Qed.

Lemma setEntry_prices key p md s :
  marketPrices (_setMarketPriceEntry key p md s).2
  = <[key := p]> (marketPrices s).
Proof. reflexivity. Qed.

(** *** What a computation may touch *)

Lemma onlyTouches_refl ids s : Reference.onlyTouches ids s s.
Proof. split; reflexivity. Qed.

Lemma onlyTouches_trans ids s1 s2 s3 :
  Reference.onlyTouches ids s1 s2 -> Reference.onlyTouches ids s2 s3 ->
  Reference.onlyTouches ids s1 s3.
Proof.
  intros [Hq1 Hh1] [Hq2 Hh2]. split.
  - intros key l. now rewrite Hq2, Hq1.
  - intros id Hid. now rewrite Hh2, Hh1.
Qed.

Lemma frame_ret {A} ids (a : A) : Reference.frameM ids (mret a).
Proof. intros s. apply onlyTouches_refl. Qed.

Lemma frame_bind {A B} ids (m : M A) (k : A -> M B) :
  Reference.frameM ids m -> (forall a, Reference.frameM ids (k a)) ->
  Reference.frameM ids (m ≫= k).
Proof.
  intros Hm Hk s. unfold mbind, M_bind. specialize (Hm s).
  destruct (m s) as [[a | msg |] s1]; cbn in *; try exact Hm.
  eapply onlyTouches_trans; [exact Hm | apply Hk].
Qed.

Lemma frame_pure {A} ids (m : M A) :
  (forall s, (m s).2 = s) -> Reference.frameM ids m.
Proof. intros Hm s. rewrite Hm. apply onlyTouches_refl. Qed.

Lemma frame_getOrder ids id : Reference.frameM ids (getOrder id).
Proof.
  apply frame_pure. intros s. unfold getOrder. now destruct (heap s !! id).
Qed.

Lemma frame_gets {A} ids (f : State -> A) : Reference.frameM ids (gets f).
Proof. now apply frame_pure. Qed.

Lemma frame_get ids : Reference.frameM ids get.
Proof. now apply frame_pure. Qed.

Lemma frame_outOfFuel {A} ids : Reference.frameM ids (@outOfFuel A).
Proof. now apply frame_pure. Qed.

Lemma frame_updOrder ids id f : In id ids -> Reference.frameM ids (updOrder id f).
Proof.
  intros Hid s. split; [reflexivity |].
  intros id' Hid'. cbn. apply lookup_alter_ne. congruence.
Qed.

Lemma frame_updMetadata ids id f :
  In id ids -> Reference.frameM ids (updMetadata id f).
Proof. apply frame_updOrder. Qed.

Lemma frame_recordFill ids id amt prc cp ts :
  In id ids -> Reference.frameM ids (recordFill id amt prc cp ts).
Proof.
  intros Hid. unfold recordFill. apply frame_bind; [apply frame_getOrder |].
  intros o. apply frame_bind; [| intros []; apply frame_ret].
  intros s. split; [reflexivity |].
  intros id' Hid'. cbn. apply lookup_insert_ne. congruence.
Qed.

Lemma frame_recordTrade ids key t : Reference.frameM ids (_recordTrade key t).
Proof.
  intros s. unfold _recordTrade, _getOrCreateOrderBook, modify, mbind, M_bind.
  cbn. split.
  - intros key' l. unfold bookOf. cbn.
    destruct (decide (key = key')) as [<- |Hne].
    + destruct (orderBooks s !! key) as [b |] eqn:Hb; cbn.
      * rewrite lookup_alter_eq, Hb. cbn. now destruct l.
      * rewrite lookup_alter_eq, lookup_insert_eq. cbn. now destruct l.
    + destruct (orderBooks s !! key) as [b |] eqn:Hb; cbn.
      * now rewrite lookup_alter_ne.
      * rewrite lookup_alter_ne, lookup_insert_ne by assumption. reflexivity.
  - intros id _. now destruct (orderBooks s !! key).
Qed.

Lemma frame_setEntry ids key p md :
  Reference.frameM ids (_setMarketPriceEntry key p md).
Proof. intros s. split; reflexivity. Qed.

Section WithEthers.
Context `{Ethers} `{JS.Text}.

(** The scan of the stop lists when no queued stop fires: nothing is
    triggered and the state is unchanged. *)
Lemma triggerStopOrders_quiet k rec key p prev s :
  Reference.noStopFires key p s = true ->
  _triggerStopOrders k rec key p prev s = (Return tt, s).
Proof.
  unfold Reference.noStopFires, _triggerStopOrders. run.
  destruct (orderBooks s !! key) as [book |] eqn:Hbook; [| reflexivity].
  rewrite forallb_app, andb_true_iff. intros [Hloss Hlimit].
  set (fires := fun id : string =>
         match heap s !! id with
         | Some o => _shouldTriggerStop o p prev
         | None => false
         end).
  assert (Hl : forall l,
            forallb (fun id : string =>
                       match heap s !! id with
                       | Some o => negb (_shouldTriggerStop o p None)
                       | None => true
                       end) l = true ->
            List.filter fires l = []
            /\ List.filter (fun id => negb (fires id)) l = l).
  { intros l Hl0. split.
    - eapply filter_drops; [| exact Hl0].
      intros id. unfold fires. cbn.
      destruct (heap s !! id); [| reflexivity].
      intros Hn%negb_true_iff. exact Hn.
    - eapply filter_keeps; [| exact Hl0].
      intros id. unfold fires. cbn.
      now destruct (heap s !! id). }
  destruct (Hl _ Hloss) as [Hl1 Hl2], (Hl _ Hlimit) as [Hl3 Hl4].
  rewrite Hl1, Hl3. cbn [List.map app].
  rewrite updList_same.
  2:{ intros b Hb. rewrite Hbook in Hb. inversion Hb; subst. exact Hl2. }
  rewrite updList_same.
  2:{ intros b Hb. rewrite Hbook in Hb. inversion Hb; subst. exact Hl4. }
  reflexivity.
Qed.

Lemma frame_registerTrade ids b q p x y sd src :
  Reference.frameM ids (registerTrade b q p x y sd src).
Proof. intros s. split; reflexivity. Qed.

(** A price update made with [skipStopTrigger] writes the price tables
    and nothing else, whatever stops are queued. *)
Lemma frame_update_skip ids n key p md :
  skipStopTrigger md = true ->
  Reference.frameM ids (_updateMarketPriceInternal n key p md).
Proof.
  intros Hskip. destruct n as [| n]; [apply frame_outOfFuel |].
  cbn [_updateMarketPriceInternal]. unfold updateBody. rewrite Hskip.
  destruct (_ || _); [apply frame_ret |].
  apply frame_bind; [apply frame_get |]. intros s0.
  apply frame_bind; [apply frame_setEntry |]. intros [].
  apply frame_bind.
  - destruct (JS.includesChar _ _); [| apply frame_ret].
    destruct (JS.split _ _) as [| x [| y r]]; try apply frame_ret.
    destruct (_ && _); [| apply frame_ret].
    destruct (negb _); [| apply frame_ret].
    apply frame_bind; [apply frame_get |]. intros s1.
    destruct (_ && _); [| apply frame_ret].
    apply frame_bind; [apply frame_setEntry |]. intros []. apply frame_ret.
  - intros inv. apply frame_bind; [apply frame_ret |]. intros [].
    apply frame_ret.
Qed.

(** The loop that pairs triggered buy and sell stops touches the orders
    of its two queues only. *)
Lemma frame_cross_match_loop ids n k key ctx :
  forall buyQueue sellQueue acc,
    (forall id, In id buyQueue -> In id ids) ->
    (forall id, In id sellQueue -> In id ids) ->
    Reference.frameM ids
      (_matchTriggeredStopLoss_loop (_updateMarketPriceInternal n) k key ctx
         buyQueue sellQueue acc).
Proof.
  induction k as [| k IH]; intros buyQueue sellQueue acc Hb Hs;
    [apply frame_outOfFuel |].
  cbn [_matchTriggeredStopLoss_loop].
  destruct buyQueue as [| buyId buyRest]; [apply frame_ret |].
  destruct sellQueue as [| sellId sellRest]; [apply frame_ret |].
  assert (HbId : In buyId ids) by (apply Hb; now left).
  assert (HsId : In sellId ids) by (apply Hs; now left).
  assert (HbR : forall id, In id buyRest -> In id ids)
    by (intros id Hid; apply Hb; now right).
  assert (HsR : forall id, In id sellRest -> In id ids)
    by (intros id Hid; apply Hs; now right).
  apply frame_bind; [apply frame_getOrder |]. intros buyOrder.
  apply frame_bind; [apply frame_getOrder |]. intros sellOrder.
  destruct (negb _).
  { repeat match goal with
           | |- Reference.frameM _ (if ?b then _ else _) => destruct b
           end; apply IH; assumption. }
  apply frame_bind; [apply frame_get |]. intros s0.
  destruct (_resolveTriggeredTradePrice _ _ _ _ _) as [tradePrice |];
    [| apply frame_ret].
  destruct (_ || _); [apply frame_ret |].
  apply frame_bind; [apply frame_gets |]. intros ts.
  apply frame_bind; [now apply frame_recordFill |]. intros _.
  apply frame_bind; [now apply frame_recordFill |]. intros _.
  apply frame_bind; [now apply frame_updMetadata |]. intros _.
  apply frame_bind; [now apply frame_updMetadata |]. intros _.
  apply frame_bind; [apply frame_getOrder |]. intros buyNow.
  apply frame_bind; [apply frame_getOrder |]. intros sellNow.
  apply frame_bind; [apply frame_recordTrade |]. intros _.
  apply frame_bind; [now apply frame_update_skip |]. intros _.
  apply frame_bind; [apply frame_registerTrade |]. intros _.
  apply frame_bind; [apply frame_getOrder |]. intros buyAfter.
  apply frame_bind; [apply frame_getOrder |]. intros sellAfter.
  apply IH.
  - now destruct (_ <=? _).
  - now destruct (_ <=? _).
Qed.

(** C4, amended. The fills of a cross-match between triggered stop-loss
    orders trigger no stop: whatever the fuel, the state, the trigger
    context and the stops that are queued, after
    [_matchTriggeredStopLoss] every list of every book (the stop lists of
    the pair and of its inverse among them) holds the references it held
    before, and every order outside the cross-matched entries is the
    object it was. *)
Theorem cross_match_triggers_no_stop (n : nat) (entries : list string)
    (key : string) (ctx : TriggerContext) (s : State) :
  let r := _matchTriggeredStopLoss n (_updateMarketPriceInternal n)
             entries key ctx s in
  (forall key' l, getList l (bookOf key' r.2) = getList l (bookOf key' s))
  /\ (forall id, ~ In id entries -> heap r.2 !! id = heap s !! id).
Proof.
  intros r. subst r. unfold _matchTriggeredStopLoss.
  destruct entries as [| e es]; [split; reflexivity |].
  set (ids := e :: es).
  assert (Hf : Reference.frameM ids
    (s0 ← get;
     _matchTriggeredStopLoss_loop (_updateMarketPriceInternal n) n key ctx
       (List.filter (fun id => match heap s0 !! id with
                               | Some o => Order.isBuy o
                               | None => false
                               end) ids)
       (List.filter (fun id => match heap s0 !! id with
                               | Some o => Order.isSell o
                               | None => false
                               end) ids) ∅)).
  { apply frame_bind; [apply frame_get |]. intros s0.
    apply frame_cross_match_loop; intros id Hid; now apply filter_In in Hid. }
  exact (Hf s).
Qed.

(** The stop path on an order without a usable stop price. *)
Lemma queueStop_invalid fuel id l key s o :
  heap s !! id = Some o ->
  (Order.stopPrice o = None
   \/ exists x, Order.stopPrice o = Some x /\ JS.isNaN x = true) ->
  _queueStopOrder fuel id l key s
  = (Return [], Reference.rejectInvalidStop id s).
Proof.
  intros Hh Hstop. unfold _queueStopOrder. run. rewrite Hh.
  destruct Hstop as [-> | (x & -> & Hx)]; [| rewrite Hx]; reflexivity.
Qed.

(** A STOP_LOSS or STOP_LIMIT order whose stop price is [null] or NaN
    is rejected by [addOrder]: the call returns, the record has status
    REJECTED and reject reason INVALID_STOP_PRICE, and the [stopLoss]
    and [stopLimit] queues of its pair are what they were. *)
Lemma invalid_stop_price_rejected (fuel : nat) (o : Order.t) (s : State) :
  Order.orderType o = STOP_LOSS \/ Order.orderType o = STOP_LIMIT ->
  JS.nonEmpty (Order.baseToken o) = true ->
  JS.nonEmpty (Order.quoteToken o) = true ->
  (Order.stopPrice o = None
   \/ exists x, Order.stopPrice o = Some x /\ JS.isNaN x = true) ->
  let r := addOrder fuel o s in
  let key := _getPairKey (Order.baseToken o) (Order.quoteToken o) in
  r.1 = Return tt
  /\ (Order.status <$> heap r.2 !! Order.id o) = Some REJECTED
  /\ (heap r.2 !! Order.id o
        ≫= fun x => Metadata.rejectReason (Order.metadata x))
     = Some "INVALID_STOP_PRICE"%string
  /\ getList stopLossL (bookOf key r.2) = getList stopLossL (bookOf key s)
  /\ getList stopLimitL (bookOf key r.2) = getList stopLimitL (bookOf key s).
Proof.
  intros Hty Hb Hq Hstop r key. subst r.
  unfold addOrder. rewrite Hb, Hq. cbn [negb orb].
  fold key. run. rewrite getOrCreate_run.
  remember (_getOrCreateOrderBook key _).2 as s1 eqn:Es1.
  assert (Hh : heap s1 !! Order.id o = Some o).
  { subst s1. rewrite getOrCreate_heap. cbn. apply lookup_insert_eq. }
  assert (Hbk : bookOf key s1 = bookOf key s).
  { subst s1. rewrite getOrCreate_bookOf. reflexivity. }
  clear Es1.
  assert (Hrun :
    (match Order.orderType o with
     | LIMIT => _handleLimitOrder fuel (_updateMarketPriceInternal fuel)
                  (Order.id o) key
     | MARKET => _handleMarketOrder fuel (_updateMarketPriceInternal fuel)
                   (Order.id o) key
     | STOP_LOSS => _queueStopOrder fuel (Order.id o) stopLossL key
     | STOP_LIMIT => _queueStopOrder fuel (Order.id o) stopLimitL key
     end) s1 = (Return [], Reference.rejectInvalidStop (Order.id o) s1)).
  { destruct Hty as [-> | ->]; now apply queueStop_invalid with o. }
  rewrite Hrun. cbn.
  split; [reflexivity |].
  rewrite !lookup_alter_eq, Hh. cbn.
  split; [reflexivity |]. split; [reflexivity |].
  change (bookOf key (Reference.rejectInvalidStop (Order.id o) s1))
    with (bookOf key s1).
  rewrite Hbk. split; reflexivity.
Qed.

(** *** A stop order with a numeric stop price *)

Lemma bind_run {A B} (m : M A) (k : A -> M B) s v s' :
  m s = (Return v, s') -> (m ≫= k) s = k v s'.
Proof. intros Hm. unfold mbind, M_bind. now rewrite Hm. Qed.

Lemma getOrder_run id s o : heap s !! id = Some o -> getOrder id s = (Return o, s).
Proof. intros Ho. unfold getOrder. now rewrite Ho. Qed.

Lemma getList_setList l l' v b :
  getList l' (setList l v b) = if decide (l' = l) then v else getList l' b.
Proof. destruct l, l'; reflexivity. Qed.

Lemma bookOf_updList key l f s b :
  orderBooks s !! key = Some b ->
  bookOf key (updList key l f s).2 = setList l (f (getList l b)) b.
Proof.
  intros Hb. unfold bookOf, updList, modify. cbn.
  now rewrite lookup_alter_eq, Hb.
Qed.

Lemma snapshot_fields key s' s :
  marketPrices s' = marketPrices s -> marketPriceMeta s' = marketPriceMeta s ->
  getMarketPriceSnapshotFromKey key s' = getMarketPriceSnapshotFromKey key s.
Proof.
  intros Hp Hm. unfold getMarketPriceSnapshotFromKey. now rewrite Hp, Hm.
Qed.

Lemma pairKey_nonEmpty b q : JS.nonEmpty (_getPairKey b q) = true.
Proof.
  unfold _getPairKey. destruct (JS.toLowerCase b); reflexivity.
Qed.

(** The trigger condition reads the stop price and the side only. *)
Lemma shouldTrigger_terms o o' p prev prev' :
  Order.stopPrice o' = Order.stopPrice o -> Order.side o' = Order.side o ->
  _shouldTriggerStop o' p prev = _shouldTriggerStop o p prev'.
Proof.
  intros Hs Hd. unfold _shouldTriggerStop, Order.isSell. now rewrite Hs, Hd.
Qed.

Lemma accepted_facts o s :
  let key := _getPairKey (Order.baseToken o) (Order.quoteToken o) in
  let s1 := Reference.accepted o s in
  heap s1 = <[Order.id o := o]> (heap s)
  /\ bookOf key s1 = bookOf key s
  /\ orderBooks s1 !! key = Some (bookOf key s)
  /\ (forall key', key' <> key -> orderBooks s1 !! key' = orderBooks s !! key')
  /\ marketPrices s1 = marketPrices s
  /\ marketPriceMeta s1 = marketPriceMeta s
  /\ oracle s1 = oracle s /\ now s1 = now s.
Proof.
  cbv zeta. unfold Reference.accepted, _getOrCreateOrderBook, modify, bookOf.
  cbn. destruct (orderBooks s !! _) eqn:Hb; cbn; rewrite ?Hb;
    repeat split; auto.
  - now rewrite lookup_insert_eq.
  - now rewrite lookup_insert_eq.
  - intros key' Hne. now rewrite lookup_insert_ne.
Qed.

Lemma accepted_self o s : heap (Reference.accepted o s) !! Order.id o = Some o.
Proof.
  destruct (accepted_facts o s) as (-> & _). apply lookup_insert_eq.
Qed.

Lemma accepted_other o s id' :
  id' <> Order.id o -> heap (Reference.accepted o s) !! id' = heap s !! id'.
Proof.
  intros Hne. destruct (accepted_facts o s) as (-> & _).
  now apply lookup_insert_ne.
Qed.

Lemma addOrder_accepted fuel (o : Order.t) (s : State) :
  JS.nonEmpty (Order.baseToken o) = true ->
  JS.nonEmpty (Order.quoteToken o) = true ->
  addOrder fuel o s
  = (trades_ ←
       match Order.orderType o with
       | MARKET =>
           _handleMarketOrder fuel (_updateMarketPriceInternal fuel) (Order.id o)
             (_getPairKey (Order.baseToken o) (Order.quoteToken o))
       | STOP_LOSS =>
           _queueStopOrder fuel (Order.id o) stopLossL
             (_getPairKey (Order.baseToken o) (Order.quoteToken o))
       | STOP_LIMIT =>
           _queueStopOrder fuel (Order.id o) stopLimitL
             (_getPairKey (Order.baseToken o) (Order.quoteToken o))
       | LIMIT =>
           _handleLimitOrder fuel (_updateMarketPriceInternal fuel) (Order.id o)
             (_getPairKey (Order.baseToken o) (Order.quoteToken o))
       end;
     when (0 <? length trades_)%nat
       (updMetadata (Order.id o) (Metadata.set_trades (Some trades_))))
      (Reference.accepted o s).
Proof.
  intros Hb Hq. unfold addOrder. rewrite Hb, Hq. reflexivity.
Qed.

(** What [Reference.quietArrival] says, case by case. *)
Lemma quietArrival_cases o s :
  Reference.quietArrival o s = true ->
  let key := _getPairKey (Order.baseToken o) (Order.quoteToken o) in
  (marketPrices s !! key = None
   /\ Oracle.getCachedPairSnapshot (Order.baseToken o) (Order.quoteToken o)
        (oracle s) = None)
  \/ exists p, marketPrices s !! key = Some p
               /\ JS.isFinite p = true /\ JS.gt p 0 = true
               /\ _shouldTriggerStop o p None = false.
Proof.
  unfold Reference.quietArrival. cbv zeta.
  destruct (marketPrices s !! _) as [p |].
  - intros Hq. right. exists p.
    apply andb_prop in Hq as [Hq Hno]. apply andb_prop in Hq as [Hf Hp].
    apply negb_true_iff in Hno. auto.
  - destruct (Oracle.getCachedPairSnapshot _ _ _); [discriminate |].
    intros _. left. auto.
Qed.

(** The stop path on an order that does not fire when it arrives. *)
Lemma queueStop_waits fuel (o : Order.t) (l : ListName) (x : float) s :
  heap s !! Order.id o = Some o ->
  Order.stopPrice o = Some x -> JS.isNaN x = false ->
  let key := _getPairKey (Order.baseToken o) (Order.quoteToken o) in
  ((marketPrices s !! key = None
    /\ Oracle.getCachedPairSnapshot (Order.baseToken o) (Order.quoteToken o)
         (oracle s) = None)
   \/ exists p, marketPrices s !! key = Some p
                /\ JS.isFinite p = true /\ JS.gt p 0 = true
                /\ _shouldTriggerStop o p None = false) ->
  _queueStopOrder fuel (Order.id o) l key s
  = (Return [],
     (updList key l (fun ys => ys ++ [Order.id o])
        (set_heap
           (alter (Order.upd_metadata (Metadata.set_queuedAt (Some (now s))))
              (Order.id o)
              (alter (Order.set_status PENDING) (Order.id o) (heap s))) s)).2).
Proof.
  intros Ho Hstop Hnan key Hquiet.
  assert (Hkey : JS.nonEmpty key = true) by apply pairKey_nonEmpty.
  unfold _queueStopOrder.
  erewrite bind_run by (apply getOrder_run; exact Ho). cbn beta.
  rewrite Hstop, Hnan.
  erewrite bind_run by reflexivity. cbn beta.
  erewrite bind_run by reflexivity. cbn beta.
  erewrite bind_run by reflexivity. cbn beta.
  erewrite bind_run by reflexivity. cbn beta.
  rewrite Hkey. cbn [negb].
  erewrite bind_run by reflexivity. cbn beta.
  pose (o3 := Order.upd_metadata (Metadata.set_queuedAt (Some (now s)))
                (Order.set_status PENDING o)).
  assert (Hget : forall s', heap s' = alter
                   (Order.upd_metadata (Metadata.set_queuedAt (Some (now s))))
                   (Order.id o)
                   (alter (Order.set_status PENDING) (Order.id o) (heap s)) ->
                 getOrder (Order.id o) s' = (Return o3, s')).
  { intros s' Hs'. apply getOrder_run. rewrite Hs', !lookup_alter_eq, Ho.
    reflexivity. }
  destruct Hquiet as [[Hnone Horacle] | (p & Hp & Hfin & Hpos & Hno)].
  - repeat rewrite (snapshot_fields key _ s) by reflexivity.
    unfold getMarketPriceSnapshotFromKey at 1 2.
    rewrite Hkey, Hnone. cbn [negb].
    change (JS.isFinite nan) with false. cbn [negb orb].
    cbn [oracle set_orderBooks set_heap]. rewrite Horacle.
    erewrite bind_run by reflexivity. cbn beta.
    erewrite bind_run by (apply Hget; reflexivity). cbn beta.
    repeat rewrite (snapshot_fields key _ s) by reflexivity.
    unfold getMarketPriceSnapshotFromKey. rewrite Hkey, Hnone. cbn [negb].
    change (JS.isFinite nan) with false. cbn [andb]. reflexivity.
  - assert (Hsnap : exists sn, getMarketPriceSnapshotFromKey key s = Some sn
                               /\ s_price sn = p).
    { unfold getMarketPriceSnapshotFromKey. rewrite Hkey, Hp.
      cbn [negb]. eexists. split; reflexivity. }
    destruct Hsnap as (sn & Hsnap & Hprice).
    repeat rewrite (snapshot_fields key _ s) by reflexivity.
    rewrite Hsnap, Hprice, Hfin. cbn [negb orb].
    destruct (NumberFacts.positive_cases p Hpos) as (_ & Hle & _).
    rewrite Hle.
    erewrite bind_run by reflexivity. cbn beta.
    erewrite bind_run by (apply Hget; reflexivity). cbn beta.
    rewrite Hprice, Hfin, Hpos. cbn [andb].
    rewrite (shouldTrigger_terms o o3 p _ None eq_refl eq_refl), Hno.
    reflexivity.
Qed.

(** A stop order with a numeric stop price that does not fire when it
    arrives is set PENDING, stamped and appended to its queue; no other
    order and no other list changes. *)
Lemma stop_order_waits (fuel : nat) (o : Order.t) (x : float) (s : State) :
  (Order.orderType o = STOP_LOSS \/ Order.orderType o = STOP_LIMIT) ->
  JS.nonEmpty (Order.baseToken o) = true ->
  JS.nonEmpty (Order.quoteToken o) = true ->
  Order.stopPrice o = Some x -> JS.isNaN x = false ->
  Reference.quietArrival o s = true ->
  let key := _getPairKey (Order.baseToken o) (Order.quoteToken o) in
  let queue :=
    if bool_decide (Order.orderType o = STOP_LOSS) then stopLossL else stopLimitL in
  let r := addOrder fuel o s in
  r.1 = Return tt
  /\ heap r.2 !! Order.id o = Some (Reference.queuedStop (now s) o)
  /\ (forall id', id' <> Order.id o -> heap r.2 !! id' = heap s !! id')
  /\ getList queue (bookOf key r.2) = getList queue (bookOf key s) ++ [Order.id o]
  /\ (forall l, l <> queue -> getList l (bookOf key r.2) = getList l (bookOf key s)).
Proof.
  intros Hty Hb Hq Hstop Hnan Hquiet key queue r. subst r.
  apply quietArrival_cases in Hquiet. cbv zeta in Hquiet. fold key in Hquiet.
  rewrite (addOrder_accepted fuel o s Hb Hq). fold key.
  destruct (accepted_facts o s)
    as (Hheap & Hbook & Hlook & _ & Hmp & _ & Hor & Hnow).
  fold key in Hbook, Hlook.
  assert (Hrun :
    (match Order.orderType o with
     | LIMIT => _handleLimitOrder fuel (_updateMarketPriceInternal fuel)
                  (Order.id o) key
     | MARKET => _handleMarketOrder fuel (_updateMarketPriceInternal fuel)
                   (Order.id o) key
     | STOP_LOSS => _queueStopOrder fuel (Order.id o) stopLossL key
     | STOP_LIMIT => _queueStopOrder fuel (Order.id o) stopLimitL key
     end) (Reference.accepted o s)
    = (Return [],
       (updList key queue (fun ys => ys ++ [Order.id o])
          (set_heap
             (alter (Order.upd_metadata
                       (Metadata.set_queuedAt
                          (Some (now (Reference.accepted o s)))))
                (Order.id o)
                (alter (Order.set_status PENDING) (Order.id o)
                   (heap (Reference.accepted o s))))
             (Reference.accepted o s))).2)).
  { subst queue.
    destruct Hty as [Hty | Hty]; rewrite Hty; cbn [bool_decide decide_rel];
      (eapply queueStop_waits; [apply accepted_self | eassumption .. |]);
      fold key; rewrite Hmp, Hor; exact Hquiet. }
  erewrite bind_run by exact Hrun.
  cbn [length Nat.ltb Nat.leb when]. cbn [fst snd mret M_ret].
  set (s2 := set_heap _ (Reference.accepted o s)).
  assert (Hlook2 : orderBooks s2 !! key = Some (bookOf key s)) by exact Hlook.
  rewrite (bookOf_updList key queue _ s2 _ Hlook2).
  change (heap (updList key queue (fun ys => ys ++ [Order.id o]) s2).2)
    with (heap s2).
  subst s2. cbn [heap set_heap].
  rewrite !lookup_alter_eq, accepted_self, Hnow. cbn [fmap option_fmap option_map].
  split; [reflexivity |]. split; [reflexivity |].
  split.
  { intros id' Hne'. rewrite !lookup_alter_ne by congruence.
    now apply accepted_other. }
  rewrite getList_setList, decide_True by reflexivity.
  split; [reflexivity |].
  intros l Hl. now rewrite getList_setList, decide_False by assumption.
Qed.

(** A sell stop whose stop price is zero or negative never fires at a
    price above zero. *)
Lemma sell_stop_below_zero_never_fires (o : Order.t) (x p : float) :
  Order.stopPrice o = Some x -> Order.isSell o = true ->
  (x <=? 0) = true -> JS.gt p 0 = true ->
  _shouldTriggerStop o p None = false.
Proof.
  intros Hstop Hsell Hx Hp. unfold _shouldTriggerStop. rewrite Hstop, Hsell.
  destruct (negb (JS.isFinite x) || negb (JS.isFinite p)); [reflexivity |].
  destruct (p <=? x) eqn:Hpx; [| reflexivity].
  exfalso. unfold JS.gt in Hp.
  pose proof (FloatOrder.le_trans p x 0 Hpx Hx) as Hp0.
  pose proof (FloatOrder.lt_irrefl_le 0 p Hp) as Hc. congruence.
Qed.

(** C5, amended. For a STOP_LOSS or STOP_LIMIT order, [addOrder] checks
    the stop price for [null] and NaN only.  With such a stop price the
    order is rejected (status REJECTED, reject reason
    INVALID_STOP_PRICE) and the stop queues of its pair stay as they
    were.  With any number as stop price, zero and negative numbers
    included, the order passes the check: unless it fires on arrival
    ([Reference.quietArrival]), it is set PENDING, stamped with
    [queuedAt] and appended to the queue of its type, and no other list
    of the book changes; a sell stop at or below zero never fires at a
    price above zero. *)
Theorem stop_price_check (fuel : nat) (o : Order.t) (s : State) :
  Order.orderType o = STOP_LOSS \/ Order.orderType o = STOP_LIMIT ->
  JS.nonEmpty (Order.baseToken o) = true ->
  JS.nonEmpty (Order.quoteToken o) = true ->
  let r := addOrder fuel o s in
  let key := _getPairKey (Order.baseToken o) (Order.quoteToken o) in
  let queue :=
    if bool_decide (Order.orderType o = STOP_LOSS) then stopLossL else stopLimitL in
  ((Order.stopPrice o = None
    \/ exists x, Order.stopPrice o = Some x /\ JS.isNaN x = true) ->
     r.1 = Return tt
     /\ (Order.status <$> heap r.2 !! Order.id o) = Some REJECTED
     /\ (heap r.2 !! Order.id o
           ≫= fun x => Metadata.rejectReason (Order.metadata x))
        = Some "INVALID_STOP_PRICE"%string
     /\ getList stopLossL (bookOf key r.2) = getList stopLossL (bookOf key s)
     /\ getList stopLimitL (bookOf key r.2) = getList stopLimitL (bookOf key s))
  /\ (forall x, Order.stopPrice o = Some x -> JS.isNaN x = false ->
        Reference.quietArrival o s = true ->
        r.1 = Return tt
        /\ heap r.2 !! Order.id o = Some (Reference.queuedStop (now s) o)
        /\ getList queue (bookOf key r.2)
           = getList queue (bookOf key s) ++ [Order.id o]
        /\ (forall l, l <> queue ->
              getList l (bookOf key r.2) = getList l (bookOf key s)))
  /\ (forall x p, Order.stopPrice o = Some x -> Order.isSell o = true ->
        (x <=? 0) = true -> JS.gt p 0 = true ->
        _shouldTriggerStop o p None = false).
Proof.
  intros Hty Hb Hq r key queue. split; [| split].
  - intros Hstop.
    exact (invalid_stop_price_rejected fuel o s Hty Hb Hq Hstop).
  - intros x Hstop Hnan Hquiet.
    destruct (stop_order_waits fuel o x s Hty Hb Hq Hstop Hnan Hquiet)
      as (Hres & Hheap & _ & Hqueue & Hrest).
    repeat split; assumption.
  - intros x p. apply sell_stop_below_zero_never_fires.
Qed.

(** A price update that fires no stop: both entries are written and
    nothing else happens. *)
Lemma updateMarketPrice_quiet (n : nat) (b q : string) (p : float)
    (s : State) :
  JS.nonEmpty b = true -> JS.nonEmpty q = true ->
  JS.includesChar "-" b = false -> JS.includesChar "-" q = false ->
  JS.toLowerCase b <> JS.toLowerCase q ->
  JS.isNaN p = false -> (p <=? 0) = false ->
  JS.isFinite (1 / p) = true -> JS.gt (1 / p) 0 = true ->
  Reference.noStopFires (_getPairKey q b) (1 / p) s = true ->
  Reference.noStopFires (_getPairKey b q) p s = true ->
  exists md1 md2,
    updateMarketPrice (S n) b q p s
    = (Return tt,
       (_setMarketPriceEntry (_getPairKey q b) (1 / p) md2
          (_setMarketPriceEntry (_getPairKey b q) p md1 s).2).2).
Proof.
  intros Hb Hq Hdb Hdq Hne Hnan Hle Hfin Hpos Hinv Hfwd.
  destruct (StringFacts.pairKey_inverse b q Hdb Hdq Hb Hq)
    as (Hinc & Hsplit & Hkey & Hkq).
  assert (Hkeys : (_getPairKey q b =? _getPairKey b q)%string = false).
  { apply String.eqb_neq. unfold _getPairKey.
    apply StringFacts.pairKey_swap_neq;
      rewrite ?JS.lower_dash; assumption. }
  eexists _, _.
  unfold updateMarketPrice. rewrite Hnan, Hle. cbn [orb].
  cbn [_updateMarketPriceInternal]. unfold updateBody.
  rewrite Hnan, Hle. cbn [orb]. run.
  rewrite Hinc, Hsplit.
  rewrite !JS.lower_nonEmpty, Hb, Hq. cbn [andb].
  rewrite Hkey, Hkeys. cbn [negb].
  rewrite Hfin, Hpos. cbn [andb].
  rewrite setEntry_run. rewrite (setEntry_run (_getPairKey q b)).
  cbn [skipStopTrigger metaSource].
  rewrite Hkq, (NumberFacts.truthy_positive _ Hpos). cbn [andb].
  rewrite triggerStopOrders_quiet by exact Hinv.
  rewrite triggerStopOrders_quiet by exact Hfwd.
  reflexivity.
Qed.

(** C7, amended. Let [b] and [q] be non-empty token strings without
    ['-'] that differ after lower-casing (the runtime's, which folds the
    letters outside ASCII too), and [p] a price above zero
    whose quotient [1/p] is finite and above zero.  If no stop order
    queued under either pair key fires at the new prices, then
    [updateMarketPrice(b, q, p)] returns and right after it
    [getMarketPrice(q, b)] is the double [1/p]. *)
Theorem inverse_price_after_quiet_update (n : nat) (b q : string)
    (p : float) (s : State) :
  JS.nonEmpty b = true -> JS.nonEmpty q = true ->
  JS.includesChar "-" b = false -> JS.includesChar "-" q = false ->
  JS.toLowerCase b <> JS.toLowerCase q ->
  JS.isNaN p = false -> (p <=? 0) = false ->
  JS.isFinite (1 / p) = true -> JS.gt (1 / p) 0 = true ->
  Reference.noStopFires (_getPairKey q b) (1 / p) s = true ->
  Reference.noStopFires (_getPairKey b q) p s = true ->
  let r := updateMarketPrice (S n) b q p s in
  r.1 = Return tt /\ getMarketPrice q b r.2 = Some (1 / p).
Proof.
  intros Hb Hq Hdb Hdq Hne Hnan Hle Hfin Hpos Hinv Hfwd r.
  destruct (updateMarketPrice_quiet n b q p s) as (md1 & md2 & Hrun);
    try assumption.
  subst r. rewrite Hrun. cbn [fst snd]. split; [reflexivity |].
  unfold getMarketPrice. rewrite Hq, Hb. cbn [negb orb].
  rewrite setEntry_prices, lookup_insert_eq.
  now rewrite (NumberFacts.truthy_positive _ Hpos).
Qed.
End WithEthers.
End MatchingFacts.

(** ** The unit value of a token *)

Module OracleFacts.
Local Open Scope float_scope.

Section WithEthers.
Context `{Ethers} `{JS.Text}.

Lemma parseSupply_positive meta supply :
  Oracle.parseSupply meta = Some supply -> JS.gt supply 0 = true.
Proof.
  unfold Oracle.parseSupply.
  destruct (Oracle.totalSupply meta) as [z |]; [| discriminate].
  destruct (negb (0 <? z)%Z); [discriminate |].
  destruct (formatUnitsNumber _ _) as [f |]; [| discriminate].
  destruct (JS.gt f 0) eqn:Hgt.
  - destruct (negb (JS.isFinite f)); cbn; [discriminate |].
    now intros [= <-].
  - rewrite orb_true_r. discriminate.
Qed.

Lemma multiplier_amended meta fb :
  Oracle.deterministicMultiplier meta fb = Reference.m_amended meta fb.
Proof.
  unfold Oracle.deterministicMultiplier, Reference.m_amended,
    Reference.f_amended, Reference.hi32, Reference.symbolLength.
  rewrite StringFacts.nonEmpty_seed.
  rewrite (NumberFacts.mul_comm _ 1.5).
  f_equal.
  destruct (JS.toUpperCase (Oracle.orEmpty (Oracle.symbol meta)));
    [cbn [JS.nonEmpty]; rewrite JS.length_empty |]; reflexivity.
Qed.

(** C6, amended. For every token, [deriveUnitValue] is
    [clamp(m × base, 10^-12, 10^12)] with
    [m = (0.5 + 1.5 × f) × (1 + (len(SYMBOL) mod 5) × 0.05)],
    [f = hi32(SHA-256(addr|SYMBOL|NAME)) / (2^32 - 1)], and
    [base = 1/supply] when the supply is known and positive and [1]
    otherwise, a base or a product that is not above zero giving way
    to [1].  [SYMBOL] and [NAME] are the symbol and the name in upper
    case and [len] is the length of a string, both as the runtime
    computes them, whatever the characters of the token are. *)
Theorem unit_value_amended meta fb :
  Oracle.deriveUnitValue meta fb = Reference.uv_amended meta fb.
Proof.
  unfold Oracle.deriveUnitValue, Reference.uv_amended, Reference.clamp,
    Reference.positiveOr1, Reference.base, JS.gt.
  rewrite multiplier_amended.
  rewrite (NumberFacts.mul_comm (Reference.m_amended meta fb)).
  destruct (Oracle.parseSupply meta) as [supply |] eqn:Hs.
  - apply parseSupply_positive in Hs. unfold JS.gt in Hs. rewrite Hs.
    reflexivity.
  - reflexivity.
Qed.
End WithEthers.

Import Scenario.

(** C6, as stated, fails: for a token the directory does not know
    (address ["tyd"], no symbol, no name, no supply) the unit value of
    the code is not the value of the specification's formula. *)
Lemma unit_value_differs_from_spec :
  Oracle.deriveUnitValue unknownToken "tyd"
  <> Reference.uv_spec unknownToken "tyd".
Proof.
  intros Heq.
  apply (f_equal (fun x => x =? Reference.uv_spec unknownToken "tyd")) in Heq.
  vm_compute in Heq. discriminate.
Qed.
End OracleFacts.

(** ** The order book served to the HTTP layer *)

Module ServiceFacts.
Import Matching.

Section Runtime.
Context `{JS.Text}.

(** For a base/quote pair, the object the order service returns has
    five collections, in this order: [buy], [sell], [stopLoss],
    [stopLimit] (the serialized orders of the book's lists) and
    [trades]. *)
Lemma serialized_book_collections (s : State) (b q : string) :
  JS.nonEmpty b = true -> JS.nonEmpty q = true ->
  let book := bookOf (_getPairKey b q) s in
  OrderService.getOrderBook b q s
  = OrderService.oneBook
      [("buy", OrderService.ordersJSON (OrderService.serializeOrders s (buy book)));
       ("sell", OrderService.ordersJSON (OrderService.serializeOrders s (sell book)));
       ("stopLoss", OrderService.ordersJSON (OrderService.serializeOrders s (stopLoss book)));
       ("stopLimit", OrderService.ordersJSON (OrderService.serializeOrders s (stopLimit book)));
       ("trades", OrderService.tradesJSON (trades book))]%string.
Proof.
  intros Hb Hq book. subst book.
  unfold OrderService.getOrderBook, Matching.getOrderBook, bookOf.
  rewrite Hb, Hq. cbn [andb].
  destruct (orderBooks s !! _getPairKey b q) as [bk |]; reflexivity.
Qed.
End Runtime.
End ServiceFacts.

(** ** The engine on the scenarios *)

Module EngineFacts.
Import Matching Scenario.
Local Open Scope float_scope.

(** C1. A market buy that found no liquidity rests on [marketBuy].
    Cancelling it through the order service marks the record CANCELLED
    with its [cancelReason], yet the order stays on [marketBuy]:
    [cancelOrder] searches [buy], [sell], [stopLoss] and [stopLimit]
    only.  The next sell limit order is matched against the cancelled
    order and fills it. *)
Theorem cancel_leaves_order_on_market_queue :
  listOf "AAA" "BBB" marketBuyL restingMarketBuy = ["buy-market-rest"]%string
  /\ statusOf "buy-market-rest" restingMarketBuy = Some PENDING
  /\ statusOf "buy-market-rest" afterCancel = Some CANCELLED
  /\ cancelReasonOf "buy-market-rest" afterCancel = Some "USER_CANCELLED"%string
  /\ listOf "AAA" "BBB" marketBuyL afterCancel = ["buy-market-rest"]%string
  /\ statusOf "buy-market-rest" afterCancelThenLimit = Some FILLED
  /\ filledOf "buy-market-rest" afterCancelThenLimit = Some 5.
Proof. vm_compute. repeat split; reflexivity. Qed.

(** C2. In a ring of two orders whose second order is all-or-nothing and
    twice as large as the first, [executeBatchTrades] throws the
    partial-fill error for the second order after it has recorded the
    fill of the first one: the first order goes from PENDING with
    nothing filled to FILLED with one execution. *)
Theorem batch_error_after_first_fill :
  statusOf "ring-0" beforeBatch = Some PENDING
  /\ filledOf "ring-0" beforeBatch = Some 0
  /\ executionsOf "ring-0" beforeBatch = Some 0%nat
  /\ outcome ringBatch beforeBatch
     = Throw "Batch execution would only partially fill an all-or-nothing order"
  /\ statusOf "ring-0" afterBatch = Some FILLED
  /\ filledOf "ring-0" afterBatch = Some 1
  /\ executionsOf "ring-0" afterBatch = Some 1%nat.
Proof. vm_compute. repeat split; reflexivity. Qed.

(** C3. A POST_ONLY limit buy that arrives while a market sell rests on
    the book is matched against it as the taker and ends FILLED: the
    limit path matches the resting market queue before it looks at the
    time in force. *)
Theorem post_only_takes_resting_market_order :
  Order.timeInForce postOnly = POST_ONLY
  /\ Order.orderType postOnly = LIMIT
  /\ listOf "AAA" "BBB" marketSellL restingMarketSell = ["sell-market-rest"]%string
  /\ filledOf "sell-market-rest" restingMarketSell = Some 0
  /\ outcome (addOrder fuel postOnly) restingMarketSell = Return tt
  /\ statusOf "post-only" afterPostOnly = Some FILLED
  /\ filledOf "post-only" afterPostOnly = Some 5
  /\ filledOf "sell-market-rest" afterPostOnly = Some 5
  /\ takers "AAA" "BBB" afterPostOnly = ["post-only"]%string
  /\ listOf "AAA" "BBB" marketSellL afterPostOnly = [].
Proof. vm_compute. repeat split; reflexivity. Qed.

(** C4, as stated, fails.  With a sell limit at 10 on the book, a buy
    stop-limit (stop 6, limit 10) and a buy stop-loss (stop 9) are queued.
    One call of [updateMarketPrice] with price 6 triggers the stop-limit
    only; its routing through the limit path trades at 10, that fill
    updates the market price without [skipStopTrigger], the stop lists are
    scanned again inside the same call and the stop-loss is triggered at
    10. *)
Lemma stop_triggered_fill_triggers_stops_again :
  listOf "AAA" "BBB" stopLimitL stopsQueued = ["stop-a"]%string
  /\ listOf "AAA" "BBB" stopLossL stopsQueued = ["stop-b"]%string
  /\ triggeredAtOf "stop-b" stopsQueued = None
  /\ _shouldTriggerStop stopLossB 6 None = false
  /\ outcome (updateMarketPrice fuel "AAA" "BBB" 6) stopsQueued = Return tt
  /\ statusOf "stop-a" afterPriceSix = Some FILLED
  /\ triggeredPriceOf "stop-a" afterPriceSix = Some 6
  /\ triggeredAtOf "stop-b" afterPriceSix = Some 1000%Z
  /\ triggeredPriceOf "stop-b" afterPriceSix = Some 10
  /\ listOf "AAA" "BBB" stopLossL afterPriceSix = []
  /\ listOf "AAA" "BBB" marketBuyL afterPriceSix = ["stop-b"]%string.
Proof. vm_compute. repeat split; reflexivity. Qed.

(** C9. A stop-loss order that enters [addOrder] half filled (filled 1 of
    2, status PARTIAL) satisfies the fill/status invariant; the stop
    path sets its status to PENDING without looking at [filled], and
    the queued record breaks the invariant. *)
Theorem queued_stop_breaks_fill_status_invariant :
  Reference.fillStatusInvariant partialStop = true
  /\ outcome (addOrder fuel partialStop) (initial 1000) = Return tt
  /\ statusOf "stop-partial" afterPartialStop = Some PENDING
  /\ filledOf "stop-partial" afterPartialStop = Some 1
  /\ listOf "AAA" "BBB" stopLossL afterPartialStop = ["stop-partial"]%string
  /\ (Reference.fillStatusInvariant <$> heap afterPartialStop !! "stop-partial")
     = Some false.
Proof. vm_compute. repeat split; reflexivity. Qed.

(** C5, as stated, fails: a sell stop-loss whose stop price is 0 is not
    rejected; it is set PENDING and appended to [stopLoss]. *)
Lemma zero_stop_price_is_queued :
  Order.stopPrice zeroStop = Some 0
  /\ outcome (addOrder fuel zeroStop) (initial 1000) = Return tt
  /\ statusOf "zero-stop" afterZeroStop = Some PENDING
  /\ listOf "AAA" "BBB" stopLossL afterZeroStop = ["zero-stop"]%string.
Proof. vm_compute. repeat split; reflexivity. Qed.

(** C7, as stated, fails: the smallest positive double is a finite price
    above zero, its inverse is infinite, no inverse entry is stored and
    [getMarketPrice] of the inverse pair is [null]. *)
Lemma tiny_price_has_no_inverse :
  JS.isFinite tinyPrice = true
  /\ JS.gt tinyPrice 0 = true
  /\ outcome (updateMarketPrice fuel "AAA" "BBB" tinyPrice) (initial 1000)
     = Return tt
  /\ getMarketPrice "AAA" "BBB" afterTinyPrice = Some tinyPrice
  /\ getMarketPrice "BBB" "AAA" afterTinyPrice = None
  /\ getMarketPrice "BBB" "AAA" afterTinyPrice <> Some (1 / tinyPrice).
Proof. vm_compute. repeat split; try reflexivity. discriminate. Qed.

(** C8. With a market buy resting on [marketBuy], the book that the
    engine hands to the order service holds the order on that list, but
    the object the order service returns for the pair has no
    [marketBuy] and no [marketSell] key: [_serializeOrderBook] copies
    [buy], [sell], [stopLoss], [stopLimit] and [trades] only, so the
    resting market order is not served. *)
Theorem serialized_book_has_no_market_queues :
  listOf "AAA" "BBB" marketBuyL restingMarketBuy = ["buy-market-rest"]%string
  /\ Matching.getOrderBook "AAA" "BBB" restingMarketBuy
     = onePair (_cloneBook (bookOf "aaa-bbb" restingMarketBuy))
  /\ marketBuy (_cloneBook (bookOf "aaa-bbb" restingMarketBuy))
     = ["buy-market-rest"]%string
  /\ exists o,
       OrderService.getOrderBook "AAA" "BBB" restingMarketBuy
       = OrderService.oneBook o
       /\ OrderService.hasOwnProperty "marketBuy" o = false
       /\ OrderService.hasOwnProperty "marketSell" o = false.
Proof.
  split; [vm_compute; reflexivity |].
  split; [vm_compute; reflexivity |].
  split; [vm_compute; reflexivity |].
  eexists. split; [vm_compute; reflexivity |].
  split; vm_compute; reflexivity.
Qed.

(** The amended statements at concrete inputs. *)

(** A stop order without a stop price is rejected; a sell stop at -1
    that arrives at a market price of 5 is queued. *)
Lemma stop_price_check_witness :
  ((addOrder fuel noStopPrice (initial 1000)).1 = Return tt
   /\ (Order.status <$> heap (addOrder fuel noStopPrice (initial 1000)).2
                          !! Order.id noStopPrice)
      = Some REJECTED
   /\ (heap (addOrder fuel noStopPrice (initial 1000)).2 !! Order.id noStopPrice
         ≫= fun x => Metadata.rejectReason (Order.metadata x))
      = Some "INVALID_STOP_PRICE"%string)
  /\ (Order.stopPrice negativeStop = Some (-1)
      /\ Reference.quietArrival negativeStop pricedAtFive = true
      /\ (addOrder fuel negativeStop pricedAtFive).1 = Return tt
      /\ heap (addOrder fuel negativeStop pricedAtFive).2 !! Order.id negativeStop
         = Some (Reference.queuedStop (now pricedAtFive) negativeStop)
      /\ getList stopLossL
           (bookOf (_getPairKey (Order.baseToken negativeStop)
                      (Order.quoteToken negativeStop))
              (addOrder fuel negativeStop pricedAtFive).2)
         = getList stopLossL
             (bookOf (_getPairKey (Order.baseToken negativeStop)
                        (Order.quoteToken negativeStop)) pricedAtFive)
           ++ [Order.id negativeStop]).
Proof.
  assert (Hq : Reference.quietArrival negativeStop pricedAtFive = true)
    by (vm_compute; reflexivity).
  pose proof (MatchingFacts.stop_price_check fuel noStopPrice (initial 1000)
                (or_introl eq_refl) eq_refl eq_refl) as Hnull.
  pose proof (MatchingFacts.stop_price_check fuel negativeStop pricedAtFive
                (or_introl eq_refl) eq_refl eq_refl) as Hneg.
  cbv zeta in Hnull, Hneg.
  destruct Hnull as [Hnull _]. destruct Hneg as (_ & Hneg & _).
  destruct (Hnull (or_introl eq_refl)) as (N1 & N2 & N3 & _).
  destruct (Hneg (-1) eq_refl eq_refl Hq) as (Q1 & Q2 & Q3 & _).
  split; [split; [exact N1 | split; [exact N2 | exact N3]] |].
  split; [reflexivity |]. split; [exact Hq |].
  split; [exact Q1 |]. split; [exact Q2 | exact Q3].
Defined.

(** A stop that fires on arrival does not stay on its queue: a buy stop
    at 0 that arrives at a market price of 5 is triggered at once,
    becomes a market order and rests on [marketBuy]. *)
Lemma zero_buy_stop_fires_on_arrival :
  Reference.quietArrival zeroBuyStop pricedAtFive = false
  /\ outcome (addOrder fuel zeroBuyStop) pricedAtFive = Return tt
  /\ statusOf "zero-buy-stop" afterZeroBuyStop = Some PENDING
  /\ triggeredPriceOf "zero-buy-stop" afterZeroBuyStop = Some 5
  /\ listOf "AAA" "BBB" stopLossL afterZeroBuyStop = []
  /\ listOf "AAA" "BBB" marketBuyL afterZeroBuyStop = ["zero-buy-stop"]%string.
Proof. vm_compute. repeat split; reflexivity. Qed.

(** The other hypotheses of the amended C7 are needed as well. *)

(** A stop fired by the update trades and moves both prices: after
    [updateMarketPrice("AAA", "BBB", 6)] on the book of C4 the inverse
    price is 1/10, not 1/6. *)
Lemma fired_stop_moves_inverse_price :
  Reference.noStopFires "aaa-bbb" 6 stopsQueued = false
  /\ getMarketPrice "AAA" "BBB" afterPriceSix = Some 10
  /\ getMarketPrice "BBB" "AAA" afterPriceSix = Some (1 / 10)
  /\ getMarketPrice "BBB" "AAA" afterPriceSix <> Some (1 / 6).
Proof. vm_compute. repeat split; try reflexivity. discriminate. Qed.

(** A token with a dash: the key ["a-b-c"] splits into ["a"], ["b"] and
    ["c"], the inverse is stored for the pair B/A, and the pair C/A-B
    has no price. *)
Lemma dashed_token_has_no_inverse :
  outcome (updateMarketPrice fuel "A-B" "C" 2) (initial 1000) = Return tt
  /\ getMarketPrice "A-B" "C" afterDashedPrice = Some 2
  /\ getMarketPrice "C" "A-B" afterDashedPrice = None
  /\ getMarketPrice "B" "A" afterDashedPrice = Some (1 / 2).
Proof. vm_compute. repeat split; reflexivity. Qed.

(** Two spellings of one token: both directions share the key
    ["aaa-aaa"], no inverse is stored, and the pair read backwards has
    the price itself. *)
Lemma folded_tokens_have_no_inverse :
  outcome (updateMarketPrice fuel "AAA" "aaa" 2) (initial 1000) = Return tt
  /\ getMarketPrice "aaa" "AAA" afterFoldedPrice = Some 2
  /\ getMarketPrice "aaa" "AAA" afterFoldedPrice <> Some (1 / 2).
Proof. vm_compute. repeat split; try reflexivity. discriminate. Qed.

(** An empty token: the update returns, and [getMarketPrice] answers
    [null] whenever a token is empty. *)
Lemma empty_token_has_no_inverse :
  outcome (updateMarketPrice fuel "" "BBB" 2) (initial 1000) = Return tt
  /\ getMarketPrice "BBB" "" afterEmptyTokenPrice = None.
Proof. vm_compute. repeat split; reflexivity. Qed.

Lemma inverse_price_after_quiet_update_witness :
  (updateMarketPrice fuel "AAA" "BBB" 5 stopsQueued).1 = Return tt
  /\ getMarketPrice "BBB" "AAA"
       (updateMarketPrice fuel "AAA" "BBB" 5 stopsQueued).2
     = Some (1 / 5).
Proof.
  apply (MatchingFacts.inverse_price_after_quiet_update 63 "AAA" "BBB" 5
           stopsQueued).
  - reflexivity.
  - reflexivity.
  - reflexivity.
  - reflexivity.
  - vm_compute. discriminate.
  - reflexivity.
  - reflexivity.
  - vm_compute. reflexivity.
  - vm_compute. reflexivity.
  - vm_compute. reflexivity.
  - vm_compute. reflexivity.
Defined.

(** The cross-match trades at 10, a price at which the queued stop
    ["stop-b"] (stop 9) would fire; the stop stays queued and untouched. *)
Lemma cross_match_triggers_no_stop_witness :
  (outcome crossMatch crossQueued <> OutOfFuel
   /\ marketPrices (exec crossMatch crossQueued) !! "aaa-bbb"%string = Some 10
   /\ statusOf "cross-buy" (exec crossMatch crossQueued) = Some FILLED
   /\ _shouldTriggerStop stopLossB 10 None = true)
  /\ let r := _matchTriggeredStopLoss fuel (_updateMarketPriceInternal fuel)
                ["cross-buy"; "cross-sell"]%string "aaa-bbb" contextAtTen
                crossQueued in
     (forall l,
        getList l (bookOf "aaa-bbb" r.2) = getList l (bookOf "aaa-bbb" crossQueued))
     /\ heap r.2 !! "stop-b"%string = heap crossQueued !! "stop-b"%string.
Proof.
  split; [vm_compute; repeat split; try reflexivity; discriminate |].
  pose proof (MatchingFacts.cross_match_triggers_no_stop fuel
                ["cross-buy"; "cross-sell"]%string "aaa-bbb" contextAtTen
                crossQueued) as Hw.
  cbv zeta in Hw |- *. destruct Hw as [Hlists Hheap]. split.
  - intros l. exact (Hlists "aaa-bbb"%string l).
  - apply Hheap. intros [Heq | [Heq | []]]; discriminate Heq.
Defined.

End EngineFacts.

Module OrderLaws.
Local Open Scope float_scope.

Lemma remaining_nonneg (o : Order.t) : (0 <=? Order.remaining o) = true.
Proof.
  unfold Order.remaining, JS.gt.
  destruct (0 <? Order.amount o - Order.filled o) eqn:Hpos; [| reflexivity].
  now apply FloatOrder.ltb_leb.
Qed.

(** X1. The remaining amount of an order is never negative and never
    NaN, whatever amount and filled hold; it is zero exactly when amount
    - filled is not above zero (filled up, overfilled, or not a number). *)
Theorem remaining_never_negative (o : Order.t) :
  (0 <=? Order.remaining o) = true
  /\ ((Order.remaining o <=? 0) = true
      <-> JS.gt (Order.amount o - Order.filled o) 0 = false).
Proof.
  split; [apply remaining_nonneg |].
  unfold Order.remaining, JS.gt.
  destruct (0 <? Order.amount o - Order.filled o) eqn:Hpos.
  - rewrite (FloatOrder.lt_irrefl_le _ _ Hpos). split; discriminate.
  - split; reflexivity.
Qed.
End OrderLaws.

Module OracleLaws.
Local Open Scope float_scope.
Local Set Warnings "-inexact-float".
Import Oracle.

Lemma bounds_facts :
  PrimFloat.is_finite minPrice = true /\ PrimFloat.is_finite maxPrice = true
  /\ (0 <? minPrice) = true /\ (minPrice <=? maxPrice) = true
  /\ (minPrice <=? minPrice) = true /\ (maxPrice <=? maxPrice) = true
  /\ (minPrice <=? 1) = true /\ (1 <=? maxPrice) = true.
Proof. vm_compute. repeat split. Qed.

Section WithEthers.
Context `{Ethers} `{JS.Text}.

Lemma clampPrice_fixed (c : float) :
  (minPrice <=? c) = true -> (c <=? maxPrice) = true -> _clampPrice c = Some c.
Proof.
  destruct bounds_facts as (Fmin & Fmax & Pmin & _).
  intros Hlo Hhi. unfold _clampPrice, JS.isFinite, JS.gt.
  rewrite (FloatOrder.between_finite minPrice maxPrice c Fmin Fmax Hlo Hhi).
  pose proof (FloatOrder.lt_le_trans 0 minPrice c Pmin Hlo) as Hpos.
  rewrite (FloatOrder.lt_irrefl_le _ _ Hpos). cbn [negb orb].
  destruct (c <? minPrice) eqn:E1.
  { apply FloatOrder.lt_irrefl_le in E1. congruence. }
  destruct (maxPrice <? c) eqn:E2.
  { apply FloatOrder.lt_irrefl_le in E2. congruence. }
  reflexivity.
Qed.

Lemma clampPrice_range (value c : float) :
  _clampPrice value = Some c ->
  (minPrice <=? c) = true /\ (c <=? maxPrice) = true.
Proof.
  destruct bounds_facts as (Fmin & Fmax & Pmin & Hmm & Rmin & Rmax & _).
  unfold _clampPrice, JS.isFinite, JS.gt.
  destruct (PrimFloat.is_finite value) eqn:Hf; cbn [negb orb]; [| discriminate].
  destruct (value <=? 0) eqn:Hle; cbn [negb orb]; [discriminate |].
  destruct (value <? minPrice) eqn:E1; [intros [= <-]; auto |].
  destruct (maxPrice <? value) eqn:E2; [intros [= <-]; auto |].
  intros [= <-].
  assert (Hn : PrimFloat.is_nan value = false).
  { unfold PrimFloat.is_finite in Hf. now destruct (PrimFloat.is_nan value). }
  split; apply FloatOrder.nlt_le; auto;
    first [ exact (proj2 (FloatOrder.ltb_not_nan 0 _ Pmin))
          | exact (proj1 (FloatOrder.leb_not_nan _ _ Rmax)) ].
Qed.

(** X2. _clampPrice answers null exactly for a value that is not finite
    or is at most zero; any other value is brought into [minPrice,
    maxPrice] (1e-12 and 1e12), a value already in that range is
    returned as it is, and clamping the result again changes nothing. *)
Theorem clampPrice_bounds (value : float) :
  match _clampPrice value with
  | Some c =>
      (minPrice <=? c) = true /\ (c <=? maxPrice) = true
      /\ _clampPrice c = Some c
      /\ JS.isFinite value = true /\ (value <=? 0) = false
      /\ ((minPrice <=? value) = true -> (value <=? maxPrice) = true -> c = value)
  | None => JS.isFinite value = false \/ (value <=? 0) = true
  end.
Proof.
  destruct (_clampPrice value) as [c |] eqn:Hc.
  - destruct (clampPrice_range value c Hc) as [Hlo Hhi].
    split; [exact Hlo |]. split; [exact Hhi |].
    split; [now apply clampPrice_fixed |].
    assert (Hgood : JS.isFinite value = true /\ (value <=? 0) = false).
    { revert Hc. unfold _clampPrice.
      destruct (JS.isFinite value); cbn [negb orb]; [| discriminate].
      destruct (value <=? 0); [discriminate | auto]. }
    split; [exact (proj1 Hgood) |]. split; [exact (proj2 Hgood) |].
    intros Hlo' Hhi'. rewrite (clampPrice_fixed value Hlo' Hhi') in Hc.
    now injection Hc.
  - revert Hc. unfold _clampPrice.
    destruct (negb (JS.isFinite value) || (value <=? 0)) eqn:Hbad.
    + intros _. apply orb_true_iff in Hbad as [Hf | Hle]; [left | now right].
      now apply negb_true_iff in Hf.
    + destruct (value <? minPrice); [discriminate |].
      destruct (JS.gt value maxPrice); discriminate.
Qed.

(** X3. The unit value derived for a token is a finite number in [1e-12,
    1e12], above zero, whatever the token's metadata and supply are and
    whatever the ethers library answers. *)
Theorem deriveUnitValue_bounds (meta : TokenMeta) (fallbackAddress : string) :
  let uv := deriveUnitValue meta fallbackAddress in
  (1e-12 <=? uv) = true /\ (uv <=? 1e12) = true /\ JS.isFinite uv = true
  /\ JS.gt uv 0 = true.
Proof.
  destruct bounds_facts as (Fmin & Fmax & Pmin & Hmm & Rmin & Rmax & H1a & H1b).
  change minPrice with 1e-12 in *. change maxPrice with 1e12 in *.
  cbv zeta. unfold deriveUnitValue.
  set (x := _ * deterministicMultiplier meta fallbackAddress).
  assert (Hcore : forall i : float, PrimFloat.is_nan i = false ->
    let uv := if i <? 1e-12 then 1e-12 else if JS.gt i 1e12 then 1e12 else i in
    (1e-12 <=? uv) = true /\ (uv <=? 1e12) = true).
  { intros i Hn. cbv zeta. unfold JS.gt.
    destruct (i <? 1e-12) eqn:E1; [auto |].
    destruct (1e12 <? i) eqn:E2; [auto |].
    split.
    - apply FloatOrder.nlt_le; auto;
        try exact (proj2 (FloatOrder.ltb_not_nan 0 _ Pmin)).
    - apply FloatOrder.nlt_le; auto;
        try exact (proj1 (FloatOrder.leb_not_nan _ _ Rmax)). }
  assert (Hn : PrimFloat.is_nan (if JS.gt x 0 then x else 1) = false).
  { unfold JS.gt. destruct (0 <? x) eqn:E; [| reflexivity].
    now apply FloatOrder.ltb_not_nan in E. }
  destruct (Hcore _ Hn) as [Hlo Hhi]. repeat split; auto.
  - unfold JS.isFinite. exact (FloatOrder.between_finite 1e-12 1e12 _ Fmin Fmax Hlo Hhi).
  - unfold JS.gt. exact (FloatOrder.lt_le_trans 0 1e-12 _ Pmin Hlo).
Qed.
End WithEthers.
End OracleLaws.

Module OraclePairs.
Local Open Scope float_scope.
Local Set Warnings "-inexact-float".
Import Oracle Laws.

Section WithEthers.
Context `{Ethers} `{JS.Text}.

Lemma descriptor_swap (b q : string) (d : Descriptor) :
  _getCanonicalDescriptor b q = Some d ->
  _getCanonicalDescriptor q b
  = Some (mkDescriptor (key d) (d_tokenA d) (d_tokenB d) (negb (forward d))).
Proof.
  unfold _getCanonicalDescriptor.
  set (ba := normalizeAddress b). set (qa := normalizeAddress q).
  destruct (JS.nonEmpty ba) eqn:Hb; cbn [negb orb]; [| discriminate].
  destruct (JS.nonEmpty qa) eqn:Hq; cbn [negb orb]; [| discriminate].
  destruct (String.eqb ba qa) eqn:Hne; [discriminate |].
  assert (Hne' : String.eqb qa ba = false) by (now rewrite String.eqb_sym).
  rewrite Hne'.
  assert (Hdiff : qa <> ba) by (now apply String.eqb_neq).
  rewrite (JS.precedes_swap qa ba Hdiff).
  destruct (JS.precedes qa ba) eqn:Hlt; cbn [negb]; intros [= <-]; cbn.
  - now rewrite Hne, String.eqb_refl.
  - now rewrite String.eqb_refl, Hne'.
Qed.

(** X4. The two directions of a pair read one oracle state: when
    getCachedPairSnapshot(b, q) answers a snapshot, its price is the
    stored price of the canonical pair (its reciprocal when b/q is the
    reverse direction), and getCachedPairSnapshot(q, b) reports the
    reciprocal of that same stored price (the stored price itself when
    b/q is the reverse direction), or null when that reciprocal is not a
    finite number above zero. *)
Theorem oracle_directions_share_state (b q : string) (o : t) (sn : Snapshot) :
  getCachedPairSnapshot b q o = Some sn ->
  exists d st,
    _getCanonicalDescriptor b q = Some d
    /\ pairStates o !! key d = Some st
    /\ s_price sn = (if forward d then price st else 1 / price st)
    /\ option_map s_price (getCachedPairSnapshot q b o)
       = (if forward d then positiveOrNull (1 / price st) else Some (price st)).
Proof.
  unfold getCachedPairSnapshot.
  destruct (_getCanonicalDescriptor b q) as [d |] eqn:Hd; [| discriminate].
  rewrite (descriptor_swap b q d Hd). cbn [key].
  destruct (pairStates o !! key d) as [st |] eqn:Hst; [| discriminate].
  unfold _getPriceFromState. cbn [forward].
  destruct (negb (JS.isFinite (price st)) || (price st <=? 0)) eqn:Hok;
    [discriminate |].
  apply orb_false_elim in Hok as [Hfin Hle]. apply negb_false_iff in Hfin.
  destruct (forward d) eqn:Hfw; cbn [negb].
  - rewrite Hfin, Hle. cbn [negb orb]. intros [= <-]. exists d, st.
    rewrite Hfw. repeat split; auto. cbn [s_price]. unfold positiveOrNull, JS.gt.
    destruct (JS.isFinite (1 / price st)) eqn:F1; cbn [negb orb andb]; [| reflexivity].
    destruct (1 / price st <=? 0) eqn:L1.
    + destruct (0 <? 1 / price st) eqn:G1; [| reflexivity].
      apply FloatOrder.lt_irrefl_le in G1. congruence.
    + cbn. rewrite FloatOrder.nle_lt; auto.
      unfold JS.isFinite, PrimFloat.is_finite in F1.
      now destruct (PrimFloat.is_nan (1 / price st)).
  - destruct (negb (JS.isFinite (1 / price st)) || (1 / price st <=? 0));
      [discriminate |].
    intros [= <-]. exists d, st. rewrite Hfw, Hfin, Hle. cbn. auto.
Qed.

(** X5. A trade registered with the oracle leaves the state of every
    other pair alone: only the entry under the canonical key of the two
    normalised addresses can change, and nothing changes when the
    addresses have no canonical descriptor. *)
Theorem registerTrade_one_pair (now : Z) (b q : string) (p ba qa : float)
    (sd : option Side) (src : string) (o : t) (k : string) :
  (forall d, _getCanonicalDescriptor (normalizeAddress b) (normalizeAddress q)
             = Some d -> k <> key d) ->
  pairStates (registerTrade now b q p ba qa sd src o) !! k = pairStates o !! k.
Proof.
  intros Hk. unfold registerTrade, _ensurePairState.
  destruct (_getCanonicalDescriptor (normalizeAddress b) (normalizeAddress q))
    as [d |].
  2: { repeat match goal with
              | |- pairStates (if ?c then _ else _) !! _ = _ => destruct c
              | |- pairStates (match ?X with _ => _ end) !! _ = _ => destruct X
              end; reflexivity. }
  specialize (Hk d eq_refl).
  destruct (pairStates o !! key d).
  all: repeat match goal with
         | |- pairStates (if ?c then _ else _) !! _ = _ => destruct c
         | |- pairStates (match ?X with _ => _ end) !! _ = _ => destruct X
         | |- pairStates (mk _) !! _ = _ => cbn [pairStates]
         | |- _ => rewrite lookup_insert_ne by congruence
         end; reflexivity.
Qed.

Lemma positive_of_check x :
  negb (JS.isFinite x) || (x <=? 0) = false -> positivePrice x.
Proof.
  intros Hc. apply orb_false_elim in Hc as [Hf Hle].
  apply negb_false_iff in Hf. split; [exact Hf |].
  unfold JS.gt. apply FloatOrder.nle_lt; auto.
  unfold JS.isFinite, PrimFloat.is_finite in Hf.
  now destruct (PrimFloat.is_nan x).
Qed.

Lemma positive_or_one x :
  positivePrice (if negb (JS.isFinite x) || (x <=? 0) then 1 else x).
Proof.
  destruct (negb (JS.isFinite x) || (x <=? 0)) eqn:Hc.
  - split; reflexivity.
  - now apply positive_of_check.
Qed.

Lemma positive_clamped x fallback :
  positivePrice fallback ->
  positivePrice (match _clampPrice x with Some c => c | None => fallback end).
Proof.
  intros Hfb. destruct (_clampPrice x) as [c |] eqn:Hc; [| exact Hfb].
  destruct (OracleLaws.clampPrice_range x c Hc) as (Hlo & Hhi).
  destruct OracleLaws.bounds_facts as (Fmin & Fmax & Pmin & _).
  split.
  - exact (FloatOrder.between_finite minPrice maxPrice c Fmin Fmax Hlo Hhi).
  - exact (FloatOrder.lt_le_trans 0 minPrice c Pmin Hlo).
Qed.

Lemma wellPriced_insert o k st :
  wellPriced o -> positivePrice (price st) ->
  wellPriced (mk (<[k := st]> (pairStates o))).
Proof.
  intros Ho Hst k' st'. cbn. destruct (decide (k = k')) as [<- | Hne].
  - rewrite lookup_insert_eq. now intros [= <-].
  - rewrite lookup_insert_ne by assumption. apply Ho.
Qed.

Lemma registerTrade_wellPriced (now : Z) (b q : string)
    (p ba qa : float) (sd : option Side) (src : string) (o : t) :
  wellPriced o -> wellPriced (registerTrade now b q p ba qa sd src o).
Proof.
  intros Ho. unfold registerTrade, _ensurePairState.
  destruct (_getCanonicalDescriptor (normalizeAddress b) (normalizeAddress q))
    as [d |].
  2: { repeat match goal with
              | |- wellPriced (if ?c then _ else _) => destruct c
              | |- wellPriced (match ?X with _ => _ end) => destruct X
              end; exact Ho. }
  destruct (pairStates o !! key d) as [st |] eqn:Hst.
  all: repeat match goal with
         | |- wellPriced (if ?c then _ else _) => destruct c eqn:?
         | |- wellPriced (match ?X with _ => _ end) => destruct X eqn:?
         end; try exact Ho.
  all: repeat (apply wellPriced_insert; cbn [price]); try exact Ho.
  all: try apply positive_or_one.
  all: apply positive_clamped; now apply positive_of_check.
Qed.
End WithEthers.
End OraclePairs.

Module Preservation.
Import Matching Laws.
Local Open Scope float_scope.
Local Unset Default Proof Using.

Lemma evolves_refl o : evolves o o.
Proof. repeat split; auto. Qed.

Lemma evolves_trans o1 o2 o3 : evolves o1 o2 -> evolves o2 o3 -> evolves o1 o3.
Proof.
  unfold evolves, sameTerms. intros (T1 & L1 & G1) (T2 & L2 & G2).
  split; [intuition congruence |]. split; [lia | auto].
Qed.

Lemma evolves_recordFill amt prc cp ts o :
  evolves o (Order.recordFill amt prc cp ts o).2.
Proof.
  unfold Order.recordFill. destruct (_ || _); [apply evolves_refl |].
  cbn. destruct (_ <=? 0)%float; repeat split; cbn; auto;
    rewrite length_app; lia.
Qed.

Lemma evolves_tagBatch b oa ra o :
  evolves o
    (Order.set_executions
       (match List.rev (Order.executions o) with
        | last :: before => List.rev before ++ [Execution.tagBatch last b oa ra]
        | [] => []
        end) o).
Proof.
  repeat split; cbn; auto.
  rewrite <- (length_rev (Order.executions o)).
  destruct (List.rev (Order.executions o)); cbn; [lia |].
  rewrite length_app, length_rev. cbn. lia.
Qed.

Ltac terms :=
  first [ intros ?; apply evolves_tagBatch
        | intros ?; repeat split; cbn; auto ].

Section Generic.
Context `{Ethers} `{JS.Text}.
Variable T : string -> Prop.
Variable Q : forall A, M A -> Prop.
Hypothesis HQ : closed T Q.

Abbreviation holds m := (Q _ m).

Create HintDb pres discriminated.

Lemma pres_ret {A} (a : A) : holds (mret a).
Proof. apply (c_ret T Q HQ). Qed.

Lemma pres_bind {A B} (m : M A) (k : A -> M B) :
  holds m -> (forall a, holds (k a)) -> holds (m ≫= k).
Proof. apply (c_bind T Q HQ). Qed.

Lemma pres_outOfFuel {A} : holds (@outOfFuel A).
Proof. apply (c_outOfFuel T Q HQ). Qed.

Lemma pres_get : holds get.
Proof. apply (c_get T Q HQ). Qed.

Lemma pres_gets {A} (f : State -> A) : holds (gets f).
Proof. apply (c_gets T Q HQ). Qed.

Lemma pres_getOrder id : holds (getOrder id).
Proof. apply (c_getOrder T Q HQ). Qed.

Lemma pres_readList key l : holds (readList key l).
Proof. apply pres_gets. Qed.

Lemma pres_updOrder id f :
  (forall o, evolves o (f o)) -> holds (updOrder id f).
Proof. apply (c_updOrder T Q HQ). Qed.

Lemma pres_updMetadata id f : holds (updMetadata id f).
Proof. apply pres_updOrder. terms. Qed.

Lemma pres_recordFill id amt prc cp ts :
  holds (recordFill id amt prc cp ts).
Proof. apply (c_recordFill T Q HQ). Qed.

Lemma pres_updList key l f : holds (updList key l f).
Proof. apply (c_updList T Q HQ). Qed.

Lemma pres_getOrCreate key : holds (_getOrCreateOrderBook key).
Proof. apply (c_getOrCreate T Q HQ). Qed.

Lemma pres_recordTrade key t : holds (_recordTrade key t).
Proof. apply (c_recordTrade T Q HQ). Qed.

Lemma pres_setEntry key p md :
  JS.gt p 0 = true -> holds (_setMarketPriceEntry key p md).
Proof. apply (c_setEntry T Q HQ). Qed.

Lemma pres_registerTrade b q p x y sd src :
  holds (registerTrade b q p x y sd src).
Proof. apply (c_registerTrade T Q HQ). Qed.

Lemma pres_randomHex n : holds (randomHex n).
Proof. apply (c_randomHex T Q HQ). Qed.

Lemma pres_forEach {A} (xs : list A) body :
  (forall x, holds (body x)) -> holds (forEach xs body).
Proof.
  intros Hb. induction xs as [| x r IH]; [apply pres_ret |].
  cbn. apply pres_bind; [apply Hb | intros _; exact IH].
Qed.

Lemma pres_mapM {A B} (f : A -> M B) (l : list A) :
  (forall x, holds (f x)) -> holds (mapM f l).
Proof.
  intros Hf. induction l as [| x r IH]; [apply pres_ret |].
  cbn. apply pres_bind; [apply Hf | intros y].
  apply pres_bind; [exact IH | intros ys; apply pres_ret].
Qed.

Ltac pres_leaf :=
  first
    [ assumption
    | apply pres_ret | apply pres_outOfFuel
    | apply (c_throw T Q HQ); solve [auto]
    | apply pres_get | apply pres_gets | apply pres_getOrder
    | apply pres_readList | apply pres_updMetadata
    | apply pres_updOrder; terms
    | apply pres_recordFill | apply pres_updList | apply pres_getOrCreate
    | apply pres_recordTrade | apply pres_registerTrade
    | apply pres_randomHex ].

Ltac pres_step :=
  first
    [ pres_leaf
    | solve [auto with pres nocore]
    | apply pres_bind; [| intros ?]
    | match goal with
      | |- Q _ (if ?b then _ else _) => destruct b
      | |- Q _ (match ?x with _ => _ end) => destruct x
      | |- Q _ (when _ _) => unfold when
      end ].

Ltac pres := repeat pres_step.

Lemma pres_sortOrders key l sd : holds (_sortOrders key l sd).
Proof. unfold _sortOrders. pres. Qed.

Lemma pres_removeOrderFromList key l id :
  holds (_removeOrderFromList key l id).
Proof. unfold _removeOrderFromList. pres. Qed.

Lemma pres_restOnBook id key l sd : holds (_restOnBook id key l sd).
Proof. unfold _restOnBook. pres. Qed.

Lemma pres_restMarketOrder id key : holds (_restMarketOrder id key).
Proof. unfold _restMarketOrder. pres. Qed.

Lemma pres_calculateFillableVolume key l m :
  holds (_calculateFillableVolume key l m).
Proof. apply pres_gets. Qed.

Lemma pres_determineTradePrice t m key :
  holds (_determineTradePrice t m key).
Proof. unfold _determineTradePrice. pres. Qed.

#[local] Hint Resolve pres_sortOrders pres_removeOrderFromList pres_restOnBook
  pres_restMarketOrder pres_calculateFillableVolume pres_determineTradePrice
  : pres.

Section Level.
Variable loopFuel : nat.
Variable updateRec : string -> float -> MarketMetadata -> M unit.
Hypothesis Hrec : forall key p md, holds (updateRec key p md).

Lemma pres_applyMarketBuyImpact id key ref filled :
  holds (_applyMarketBuyImpact updateRec id key ref filled).
Proof. unfold _applyMarketBuyImpact. pres. Qed.

#[local] Hint Resolve pres_applyMarketBuyImpact : pres.

Lemma pres_matchOrder_loop k key taker opp cm acc :
  holds (_matchOrder_loop updateRec k key taker opp cm acc).
Proof.
  revert acc. induction k as [| k IH]; intros acc; [apply pres_outOfFuel |].
  cbn [_matchOrder_loop]. pres.
Qed.

Lemma pres_matchOrder key taker opp cm :
  holds (_matchOrder loopFuel updateRec key taker opp cm).
Proof. apply pres_matchOrder_loop. Qed.

#[local] Hint Resolve pres_matchOrder : pres.

Lemma pres_handleLimitOrder id key :
  holds (_handleLimitOrder loopFuel updateRec id key).
Proof. unfold _handleLimitOrder. pres. Qed.

Lemma pres_fillWithSyntheticLiquidity id key :
  holds (_fillWithSyntheticLiquidity updateRec id key).
Proof. unfold _fillWithSyntheticLiquidity. pres. Qed.

#[local] Hint Resolve pres_fillWithSyntheticLiquidity : pres.

Lemma pres_handleMarketOrder id key :
  holds (_handleMarketOrder loopFuel updateRec id key).
Proof. unfold _handleMarketOrder. pres. Qed.

#[local] Hint Resolve pres_handleLimitOrder pres_handleMarketOrder : pres.

Lemma pres_prepareTriggeredStopMetadata id ctx :
  holds (_prepareTriggeredStopMetadata id ctx).
Proof. unfold _prepareTriggeredStopMetadata. pres. Qed.

Lemma pres_matchTriggeredStopLoss_loop k key ctx bq sq acc :
  holds (_matchTriggeredStopLoss_loop updateRec k key ctx bq sq acc).
Proof.
  revert bq sq acc. induction k as [| k IH]; intros bq sq acc;
    [apply pres_outOfFuel |].
  cbn [_matchTriggeredStopLoss_loop]. pres.
Qed.

Lemma pres_matchTriggeredStopLoss entries key ctx :
  holds (_matchTriggeredStopLoss loopFuel updateRec entries key ctx).
Proof.
  unfold _matchTriggeredStopLoss. destruct entries; [apply pres_ret |].
  apply pres_bind; [apply pres_get | intros s0].
  apply pres_matchTriggeredStopLoss_loop.
Qed.

Lemma pres_routeTriggered handler key entries acc :
  (forall id k, holds (handler id k)) ->
  holds (routeTriggered handler key entries acc).
Proof.
  intros Hh. revert acc. induction entries as [| id r IH]; intros acc;
    [apply pres_ret |].
  cbn [routeTriggered]. pres.
Qed.

#[local] Hint Resolve pres_prepareTriggeredStopMetadata
  pres_matchTriggeredStopLoss : pres.

Lemma pres_processTriggeredStops entries key ctx :
  holds (_processTriggeredStops loopFuel updateRec entries key ctx).
Proof.
  unfold _processTriggeredStops. destruct entries as [| e es]; [apply pres_ret |].
  apply pres_bind.
  { apply pres_forEach. intros x. pres. }
  intros _. apply pres_bind.
  { apply pres_routeTriggered. intros; apply pres_handleLimitOrder. }
  intros t1. apply pres_bind.
  { destruct (List.filter _ _).*1; [apply pres_ret |].
    apply pres_bind; [apply pres_matchTriggeredStopLoss | intros pt].
    apply pres_routeTriggered. intros; apply pres_handleMarketOrder. }
  intros t3. apply pres_bind; [| intros _; apply pres_ret].
  apply pres_forEach. intros x. pres.
Qed.

#[local] Hint Resolve pres_processTriggeredStops : pres.

Lemma pres_triggerStopOrders key p prev :
  holds (_triggerStopOrders loopFuel updateRec key p prev).
Proof. unfold _triggerStopOrders. pres. Qed.

#[local] Hint Resolve pres_triggerStopOrders : pres.

Lemma pres_updateBody key p md :
  holds (updateBody loopFuel updateRec key p md).
Proof.
  unfold updateBody.
  destruct (JS.isNaN p || (p <=? 0)) eqn:Hp; [apply pres_ret |].
  apply orb_false_elim in Hp as [Hn Hle].
  assert (Hpos : JS.gt p 0 = true) by (now apply NumberFacts.sign_cases).
  apply pres_bind; [apply pres_get | intros s0].
  apply pres_bind; [now apply pres_setEntry | intros _].
  apply pres_bind.
  { destruct (JS.includesChar _ _); [| apply pres_ret].
    destruct (JS.split _ _) as [| x [| y r]]; try apply pres_ret.
    destruct (_ && _); [| apply pres_ret].
    destruct (negb _); [| apply pres_ret].
    apply pres_bind; [apply pres_get | intros s1].
    destruct (JS.isFinite (1 / p) && JS.gt (1 / p) 0) eqn:Hinv;
      [| apply pres_ret].
    apply andb_prop in Hinv as [_ Hinv].
    apply pres_bind; [now apply pres_setEntry | intros _; apply pres_ret]. }
  intros inv. pres.
Qed.
End Level.

Lemma pres_updateMarketPriceInternal fuel key p md :
  holds (_updateMarketPriceInternal fuel key p md).
Proof.
  revert key p md. induction fuel as [| n IH]; intros key p md;
    [apply pres_outOfFuel |].
  cbn [_updateMarketPriceInternal]. now apply pres_updateBody.
Qed.

Section Api.
Variable fuel : nat.

#[local] Hint Resolve pres_updateMarketPriceInternal
  pres_processTriggeredStops pres_handleLimitOrder pres_handleMarketOrder
  : pres.

Lemma pres_queueStopOrder id l key :
  holds (_queueStopOrder fuel id l key).
Proof.
  unfold _queueStopOrder. pres.
Qed.

Lemma pres_cancelOrder id : holds (cancelOrder id).
Proof. unfold cancelOrder. pres. Qed.

Lemma pres_cleanupOrderFromBooks id : holds (_cleanupOrderFromBooks id).
Proof. unfold _cleanupOrderFromBooks. pres. Qed.

Lemma pres_serviceCancelOrder id reason :
  holds (OrderService.cancelOrder id reason).
Proof.
  unfold OrderService.cancelOrder. pres; try apply pres_cancelOrder.
Qed.

(** The loop of [executeBatchTrades] that applies the fills throws the
    two messages of its checks and nothing else of its own. *)
Section Legs.
Hypothesis Hoverfill : T "Batch execution overfills an order".
Hypothesis Hpartial :
  T "Batch execution would only partially fill an all-or-nothing order".

Lemma pres_applyLeg tol bid ts i e ne oa ra :
  holds (applyLeg fuel tol bid ts i e ne oa ra).
Proof.
  unfold applyLeg. pres; try apply pres_cleanupOrderFromBooks.
Qed.

Lemma pres_applyLegs tol bid ts i legs :
  holds (applyLegs fuel tol bid ts i legs).
Proof.
  revert i. induction legs as [| [[e ne] [oa ra]] r IH]; intros i;
    [apply pres_ret |].
  cbn [applyLegs]. apply pres_bind; [apply pres_applyLeg | intros t].
  apply pres_bind; [apply IH | intros; apply pres_ret].
Qed.
End Legs.

(** The operations that validate their input and throw. *)
Section Throwing.
Hypothesis HT : forall msg, T msg.

Lemma pres_updateMarketPrice b q p :
  holds (updateMarketPrice fuel b q p).
Proof. unfold updateMarketPrice. pres. Qed.

Lemma pres_normalizeBatchOrder id : holds (_normalizeBatchOrder id).
Proof. unfold _normalizeBatchOrder. pres. Qed.

Lemma pres_executeBatchTrades ids tol :
  holds (executeBatchTrades fuel ids tol).
Proof.
  unfold executeBatchTrades.
  destruct (_ <? 2)%nat; [apply (c_throw T Q HQ), HT |].
  apply pres_bind; [apply pres_mapM, pres_normalizeBatchOrder | intros es].
  pres; try (apply pres_applyLegs; apply HT).
Qed.

Lemma pres_serviceExecuteBatch ids tol :
  holds (OrderService.executeBatch fuel ids tol).
Proof.
  unfold OrderService.executeBatch. pres; try apply pres_executeBatchTrades.
Qed.
End Throwing.

(** [addOrder], from the state in which the order object exists. *)
Lemma pres_addOrder_body (order : Order.t) :
  let orderId := Order.id order in
  let pairKey := _getPairKey (Order.baseToken order) (Order.quoteToken order) in
  holds
    (_getOrCreateOrderBook pairKey ;;
     trades_ ←
       match Order.orderType order with
       | MARKET =>
           _handleMarketOrder fuel (_updateMarketPriceInternal fuel) orderId pairKey
       | STOP_LOSS => _queueStopOrder fuel orderId stopLossL pairKey
       | STOP_LIMIT => _queueStopOrder fuel orderId stopLimitL pairKey
       | LIMIT =>
           _handleLimitOrder fuel (_updateMarketPriceInternal fuel) orderId pairKey
       end;
     when (0 <? length trades_)%nat
       (updMetadata orderId (Metadata.set_trades (Some trades_)))).
Proof.
  cbv zeta. apply pres_bind; [apply pres_getOrCreate | intros _].
  apply pres_bind.
  - destruct (Order.orderType order).
    + apply pres_handleLimitOrder, pres_updateMarketPriceInternal.
    + apply pres_handleMarketOrder, pres_updateMarketPriceInternal.
    + apply pres_queueStopOrder.
    + apply pres_queueStopOrder.
  - intros ts. pres.
Qed.
End Api.
End Generic.

(** *** The two instances *)

Section Instances.
Context `{Ethers} `{JS.Text}.

Lemma closed_preserves (R : State -> State -> Prop) :
  respected R -> closed (fun _ => True) (@preserves R).
Proof.
  intros HR. split.
  - intros A a s. apply (r_refl R HR).
  - intros A B m k Hm Hk s. unfold mbind, M_bind. specialize (Hm s).
    destruct (m s) as [[a | msg |] s1]; cbn in *; try exact Hm.
    eapply (r_trans R HR); [exact Hm | apply Hk].
  - intros A msg _ s. apply (r_refl R HR).
  - intros A s. apply (r_refl R HR).
  - intros s. apply (r_refl R HR).
  - intros A f s. apply (r_refl R HR).
  - intros id s. unfold getOrder. destruct (heap s !! id); apply (r_refl R HR).
  - intros id f Hf s. now apply (r_order R HR).
  - intros id amt prc cp ts s. unfold recordFill, getOrder, mbind, M_bind.
    destruct (heap s !! id) as [o |] eqn:Ho; cbn; [| apply (r_refl R HR)].
    apply (r_fill R HR _ _ o); [exact Ho | apply evolves_recordFill].
  - intros key l f s. apply (r_books R HR). intros b. now destruct l.
  - intros key s. unfold _getOrCreateOrderBook, modify. cbn.
    destruct (orderBooks s !! key) eqn:Hb; [apply (r_refl R HR) |].
    now apply (r_newBook R HR).
  - intros key t s. apply (r_trade R HR).
  - intros key p md Hp s. now apply (r_price R HR).
  - intros b q p x y sd src s. apply (r_oracle R HR).
  - intros n s. apply (r_entropy R HR).
Qed.

Lemma closed_throwsOnly (P : string -> Prop) :
  P "dangling order reference" -> closed P (throwsOnly P).
Proof.
  intros Hd. split; try (intros; intros s msg; discriminate).
  - intros A B m k Hm Hk s msg. unfold mbind, M_bind.
    destruct (m s) as [[a | msg' |] s1] eqn:Hms; cbn.
    + apply Hk.
    + intros [= <-]. apply (Hm s). now rewrite Hms.
    + discriminate.
  - intros A msg Hmsg s msg'. cbn. now intros [= <-].
  - intros id s msg. unfold getOrder. destruct (heap s !! id); cbn;
      [discriminate | now intros [= <-]].
  - intros id amt prc cp ts s msg. unfold recordFill, getOrder, mbind, M_bind.
    destruct (heap s !! id); cbn; [discriminate | now intros [= <-]].
Qed.
End Instances.
End Preservation.

Module Invariants.
Import Matching Laws Preservation.
Local Open Scope float_scope.

Lemma recordTrade_state key t s :
  (_recordTrade key t s).2
  = set_orderBooks
      (alter (fun b =>
                let ts := trades b ++ [t] in
                set_trades (if (maxTradeHistory <? length ts)%nat
                            then tl ts else ts) b)
         key (orderBooks (_getOrCreateOrderBook key s).2))
      (_getOrCreateOrderBook key s).2.
Proof. reflexivity. Qed.

Lemma getOrCreate_fields key s :
  let s' := (_getOrCreateOrderBook key s).2 in
  heap s' = heap s /\ marketPrices s' = marketPrices s
  /\ marketPriceMeta s' = marketPriceMeta s /\ oracle s' = oracle s.
Proof.
  cbn. unfold _getOrCreateOrderBook, modify. cbn.
  now destruct (orderBooks s !! key).
Qed.

Lemma bounded_push {A} (l : list A) (x : A) (n : nat) :
  (length l <= n)%nat ->
  (length (let ts := l ++ [x] in if (n <? length ts)%nat then tl ts else ts)
   <= n)%nat.
Proof.
  intros Hl. cbv zeta.
  destruct (Nat.ltb_spec n (length (l ++ [x]))) as [Hlt | Hge]; [| exact Hge].
  destruct l as [| y r]; cbn in *; [lia |].
  rewrite length_app in *. cbn in *. lia.
Qed.

Lemma recordTrade_fields key t s :
  let s' := (_recordTrade key t s).2 in
  heap s' = heap s /\ marketPrices s' = marketPrices s
  /\ marketPriceMeta s' = marketPriceMeta s /\ oracle s' = oracle s.
Proof.
  cbn. unfold _recordTrade, _getOrCreateOrderBook, modify, mbind, M_bind. cbn.
  now destruct (orderBooks s !! key).
Qed.

Section WithEthers.
Context `{Ethers} `{JS.Text}.

Lemma respected_keepsOrders : respected keepsOrders.
Proof.
  split.
  - intros s id o Ho. exists o. split; [exact Ho | apply evolves_refl].
  - intros s1 s2 s3 H12 H23 id o Ho.
    destruct (H12 id o Ho) as (o2 & Ho2 & E12).
    destruct (H23 id o2 Ho2) as (o3 & Ho3 & E23).
    exists o3. split; [exact Ho3 | eapply evolves_trans; eauto].
  - intros s id f Hf id' o Ho. cbn.
    destruct (decide (id = id')) as [<- | Hne].
    + exists (f o). rewrite lookup_alter_eq, Ho. split; [reflexivity | apply Hf].
    + exists o. rewrite lookup_alter_ne by assumption.
      split; [exact Ho | apply evolves_refl].
  - intros s id o o' Ho Hev id' o0 Ho0. cbn.
    destruct (decide (id = id')) as [<- | Hne].
    + exists o'. rewrite lookup_insert_eq. split; [reflexivity |]. congruence.
    + exists o0. rewrite lookup_insert_ne by assumption.
      split; [exact Ho0 | apply evolves_refl].
  - intros s key f _ id o Ho. exists o. split; [exact Ho | apply evolves_refl].
  - intros s key _ id o Ho. exists o. split; [exact Ho | apply evolves_refl].
  - intros s key t id o Ho. exists o.
    destruct (recordTrade_fields key t s) as (-> & _).
    split; [exact Ho | apply evolves_refl].
  - intros s key p md _ id o Ho. exists o. split; [exact Ho | apply evolves_refl].
  - intros s b q p x y sd src id o Ho. exists o.
    split; [exact Ho | apply evolves_refl].
  - intros s n id o Ho. exists o. split; [exact Ho | apply evolves_refl].
Qed.

Lemma respected_pricesPositive : respected (keeps pricesPositive).
Proof.
  split; unfold keeps; try (intros; assumption).
  - auto.
  - intros s key t Hs k p.
    destruct (recordTrade_fields key t s) as (_ & -> & _). apply Hs.
  - intros s key p md Hp Hs k p'. cbn.
    destruct (decide (key = k)) as [<- | Hne].
    + rewrite lookup_insert_eq. now intros [= <-].
    + rewrite lookup_insert_ne by assumption. apply Hs.
Qed.

Lemma respected_historyBounded : respected (keeps historyBounded).
Proof.
  split; unfold keeps; try (intros; assumption).
  - auto.
  - intros s key f Hf Hs k b. cbn.
    destruct (decide (key = k)) as [<- | Hne].
    + rewrite lookup_alter_eq.
      destruct (orderBooks s !! key) as [b0 |] eqn:Hb; [| discriminate].
      intros [= <-]. rewrite Hf. now apply (Hs key).
    + rewrite lookup_alter_ne by assumption. apply Hs.
  - intros s key Hnone Hs k b. cbn.
    destruct (decide (key = k)) as [<- | Hne].
    + rewrite lookup_insert_eq. intros [= <-]. cbn. lia.
    + rewrite lookup_insert_ne by assumption. apply Hs.
  - intros s key t Hs.
    assert (Hs1 : historyBounded (_getOrCreateOrderBook key s).2).
    { unfold _getOrCreateOrderBook, modify. cbn.
      destruct (orderBooks s !! key) eqn:Hb; [exact Hs |].
      intros k b. cbn. destruct (decide (key = k)) as [<- | Hne].
      - rewrite lookup_insert_eq. intros [= <-]. cbn. lia.
      - rewrite lookup_insert_ne by assumption. apply Hs. }
    rewrite recordTrade_state. intros k b. cbn.
    destruct (decide (key = k)) as [<- | Hne].
    + rewrite lookup_alter_eq.
      destruct (orderBooks _ !! key) as [b0 |] eqn:Hb; [| discriminate].
      intros [= <-]. specialize (Hs1 key b0 Hb).
      exact (bounded_push (trades b0) t maxTradeHistory Hs1).
    + rewrite lookup_alter_ne by assumption. apply Hs1.
Qed.

Lemma respected_oraclePositive : respected (keeps oraclePositive).
Proof.
  split; unfold keeps; try (intros; assumption).
  - auto.
  - intros s key t Hs k st.
    destruct (recordTrade_fields key t s) as (_ & _ & _ & ->). apply Hs.
  - intros s b q p x y sd src Hs. cbn.
    apply OraclePairs.registerTrade_wellPriced. exact Hs.
Qed.
End WithEthers.
End Invariants.

Module ApiInvariants.
Import Matching Laws Preservation Invariants.
Local Open Scope float_scope.

Section WithEthers.
Context `{Ethers} `{JS.Text}.

(** [addOrder] first makes the order object reachable, then runs the rest. *)
Lemma addOrder_run fuel (o : Order.t) (s : State) :
  JS.nonEmpty (Order.baseToken o) = true ->
  JS.nonEmpty (Order.quoteToken o) = true ->
  (addOrder fuel o s).2
  = ((_getOrCreateOrderBook (_getPairKey (Order.baseToken o) (Order.quoteToken o)) ;;
      trades_ ←
        match Order.orderType o with
        | MARKET =>
            _handleMarketOrder fuel (_updateMarketPriceInternal fuel) (Order.id o)
              (_getPairKey (Order.baseToken o) (Order.quoteToken o))
        | STOP_LOSS =>
            _queueStopOrder fuel (Order.id o) stopLossL
              (_getPairKey (Order.baseToken o) (Order.quoteToken o))
        | STOP_LIMIT =>
            _queueStopOrder fuel (Order.id o) stopLimitL
              (_getPairKey (Order.baseToken o) (Order.quoteToken o))
        | LIMIT =>
            _handleLimitOrder fuel (_updateMarketPriceInternal fuel) (Order.id o)
              (_getPairKey (Order.baseToken o) (Order.quoteToken o))
        end;
      when (0 <? length trades_)%nat
        (updMetadata (Order.id o) (Metadata.set_trades (Some trades_))))
       (set_heap (<[Order.id o := o]> (heap s)) s)).2.
Proof.
  intros Hb Hq. unfold addOrder. rewrite Hb, Hq. reflexivity.
Qed.

Lemma addOrder_throw fuel (o : Order.t) (s : State) :
  JS.nonEmpty (Order.baseToken o) && JS.nonEmpty (Order.quoteToken o) = false ->
  addOrder fuel o s = (Throw "Order must include baseToken and quoteToken", s).
Proof.
  intros Hc. unfold addOrder.
  destruct (JS.nonEmpty (Order.baseToken o)), (JS.nonEmpty (Order.quoteToken o));
    try discriminate; reflexivity.
Qed.

(** Any relation respected by the elementary writes holds across
    [addOrder], from the state in which the new order object exists. *)
Lemma addOrder_respects R fuel (o : Order.t) (s : State) :
  respected R ->
  JS.nonEmpty (Order.baseToken o) = true ->
  JS.nonEmpty (Order.quoteToken o) = true ->
  R (set_heap (<[Order.id o := o]> (heap s)) s) (addOrder fuel o s).2.
Proof.
  intros HR Hb Hq. rewrite (addOrder_run fuel o s Hb Hq).
  apply (pres_addOrder_body _ _ (closed_preserves R HR) fuel o).
Qed.

(** X6. updateMarketPrice, cancelOrder and executeBatch of the order
    service, and addOrder of an order with a fresh id, never drop or
    replace an order of the engine: every order known before is known
    after with the same id, tokens, side, price, amount, timeInForce,
    stopPrice, allowPartialFill, minFillAmount and createdAt, with no
    execution removed and with its triggeredAt still set if it was set;
    the order given to addOrder, when it names both tokens, is known
    after the call, evolved in the same way. *)
Theorem orders_are_kept (fuel : nat) (s : State) :
  (forall b q p, keepsOrders s (updateMarketPrice fuel b q p s).2)
  /\ (forall id reason, keepsOrders s (OrderService.cancelOrder id reason s).2)
  /\ (forall ids tol, keepsOrders s (OrderService.executeBatch fuel ids tol s).2)
  /\ (forall o, heap s !! Order.id o = None ->
        keepsOrders s (addOrder fuel o s).2
        /\ (JS.nonEmpty (Order.baseToken o) = true ->
            JS.nonEmpty (Order.quoteToken o) = true ->
            exists o', heap (addOrder fuel o s).2 !! Order.id o = Some o'
                       /\ evolves o o')).
Proof.
  pose proof respected_keepsOrders as HR.
  pose proof (closed_preserves _ HR) as HC. repeat split.
  - intros b q p. now apply (pres_updateMarketPrice _ _ HC).
  - intros id reason. apply (pres_serviceCancelOrder _ _ HC).
  - intros ids tol. now apply (pres_serviceExecuteBatch _ _ HC).
  - destruct (JS.nonEmpty (Order.baseToken o) && JS.nonEmpty (Order.quoteToken o))
      eqn:Hc.
    + apply andb_prop in Hc as [Hb Hq].
      pose proof (addOrder_respects _ fuel o s HR Hb Hq) as Hk.
      intros id o0 Ho0. apply Hk. cbn.
      rewrite lookup_insert_ne; [exact Ho0 | congruence].
    + rewrite (addOrder_throw fuel o s Hc). apply (r_refl _ HR).
  - intros Hb Hq.
    apply (addOrder_respects _ fuel o s HR Hb Hq). cbn.
    apply lookup_insert_eq.
Qed.

(** A unary invariant that every elementary write keeps, and that does
    not read the order objects, is kept by every public operation. *)
Lemma invariant_kept (Inv : State -> Prop) (fuel : nat) (s : State) :
  respected (keeps Inv) ->
  (forall h s0, Inv s0 -> Inv (set_heap h s0)) ->
  Inv s ->
  (forall b q p, Inv (updateMarketPrice fuel b q p s).2)
  /\ (forall id reason, Inv (OrderService.cancelOrder id reason s).2)
  /\ (forall ids tol, Inv (OrderService.executeBatch fuel ids tol s).2)
  /\ (forall o, Inv (addOrder fuel o s).2).
Proof.
  intros HR Hheap Hs. pose proof (closed_preserves _ HR) as HC. repeat split.
  - intros b q p. now apply (pres_updateMarketPrice _ _ HC).
  - intros id reason. now apply (pres_serviceCancelOrder _ _ HC).
  - intros ids tol. now apply (pres_serviceExecuteBatch _ _ HC).
  - intros o.
    destruct (JS.nonEmpty (Order.baseToken o) && JS.nonEmpty (Order.quoteToken o))
      eqn:Hc.
    + apply andb_prop in Hc as [Hb Hq].
      apply (addOrder_respects _ fuel o s HR Hb Hq). now apply Hheap.
    + now rewrite (addOrder_throw fuel o s Hc).
Qed.

(** X7. If every stored market price is above zero, it stays so across
    updateMarketPrice, cancelOrder, executeBatch and addOrder, whatever
    their arguments and whether they return or throw. *)
Theorem market_prices_stay_positive (fuel : nat) (s : State) :
  pricesPositive s ->
  (forall b q p, pricesPositive (updateMarketPrice fuel b q p s).2)
  /\ (forall id reason, pricesPositive (OrderService.cancelOrder id reason s).2)
  /\ (forall ids tol, pricesPositive (OrderService.executeBatch fuel ids tol s).2)
  /\ (forall o, pricesPositive (addOrder fuel o s).2).
Proof.
  apply invariant_kept; [apply respected_pricesPositive |].
  intros h s0 Hs0. exact Hs0.
Qed.

(** X8. If no book holds more than maxTradeHistory (200) trades, none
    does after updateMarketPrice, cancelOrder, executeBatch or addOrder,
    whatever their arguments and whether they return or throw. *)
Theorem trade_history_stays_bounded (fuel : nat) (s : State) :
  historyBounded s ->
  (forall b q p, historyBounded (updateMarketPrice fuel b q p s).2)
  /\ (forall id reason, historyBounded (OrderService.cancelOrder id reason s).2)
  /\ (forall ids tol, historyBounded (OrderService.executeBatch fuel ids tol s).2)
  /\ (forall o, historyBounded (addOrder fuel o s).2).
Proof.
  apply invariant_kept; [apply respected_historyBounded |].
  intros h s0 Hs0. exact Hs0.
Qed.

(** X9. If every pair state of the price oracle holds a finite price
    above zero, that stays so across updateMarketPrice, cancelOrder,
    executeBatch and addOrder (which feed the oracle through
    registerTrade), whatever their arguments and whether they return or
    throw. *)
Theorem oracle_prices_stay_positive (fuel : nat) (s : State) :
  oraclePositive s ->
  (forall b q p, oraclePositive (updateMarketPrice fuel b q p s).2)
  /\ (forall id reason, oraclePositive (OrderService.cancelOrder id reason s).2)
  /\ (forall ids tol, oraclePositive (OrderService.executeBatch fuel ids tol s).2)
  /\ (forall o, oraclePositive (addOrder fuel o s).2).
Proof.
  apply invariant_kept; [apply respected_oraclePositive |].
  intros h s0 Hs0. exact Hs0.
Qed.

Lemma initial_invariants clock :
  pricesPositive (initial clock) /\ historyBounded (initial clock)
  /\ oraclePositive (initial clock).
Proof.
  split; [| split]; intros k x Hl; cbn in Hl; rewrite lookup_empty in Hl;
    discriminate.
Qed.
End WithEthers.
End ApiInvariants.

Module CancelFacts.
Import Matching Laws MatchingFacts.
Local Open Scope float_scope.

Section WithEthers.
Context `{Ethers} `{JS.Text}.

Lemma removeFirst_absent id l : includes id l = false -> removeFirst id l = l.
Proof.
  unfold includes. induction l as [| x r IH]; cbn; [reflexivity |].
  rewrite (String.eqb_sym id x). destruct (String.eqb x id); cbn; [discriminate |].
  intros Hr. now rewrite IH.
Qed.

Lemma removeFirst_NoDup id l : List.NoDup l -> ~ In id (removeFirst id l).
Proof.
  induction 1 as [| x r Hx Hr IH]; cbn; [tauto |].
  destruct (String.eqb x id) eqn:E.
  - apply String.eqb_eq in E. now subst x.
  - apply String.eqb_neq in E. cbn. intros [-> | Hin]; [congruence | tauto].
Qed.

Lemma removeFirst_subset id x l : In x (removeFirst id l) -> In x l.
Proof.
  induction l as [| y r IH]; cbn; [tauto |].
  destruct (String.eqb y id); cbn; tauto.
Qed.

Lemma removeOrderFromList_run key l id s :
  JS.nonEmpty id = true ->
  _removeOrderFromList key l id s
  = (Return (includes id (getList l (bookOf key s))),
     (updList key l (removeFirst id) s).2).
Proof.
  intros Hid. unfold _removeOrderFromList, readList. rewrite Hid. run.
  cbn [negb].
  destruct (includes id (getList l (bookOf key s))) eqn:Hinc; [reflexivity |].
  rewrite updList_same; [reflexivity |].
  intros b Hb. unfold bookOf in Hinc. rewrite Hb in Hinc.
  now apply removeFirst_absent.
Qed.

Lemma cancelOrder_run id s o :
  heap s !! id = Some o -> JS.nonEmpty id = true ->
  exists found,
    cancelOrder id s
    = (Return found,
       cancelled id (_getPairKey (Order.baseToken o) (Order.quoteToken o)) s).
Proof.
  intros Ho Hid. unfold cancelOrder. run. rewrite Ho.
  set (key := _getPairKey _ _).
  destruct (orderBooks s !! key) as [b0 |] eqn:Hb.
  - rewrite removeOrderFromList_run by exact Hid. cbn beta iota.
    rewrite removeOrderFromList_run by exact Hid. cbn beta iota.
    rewrite removeOrderFromList_run by exact Hid. cbn beta iota.
    rewrite removeOrderFromList_run by exact Hid. cbn beta iota.
    eexists. apply (f_equal2 pair); [reflexivity |].
    unfold cancelled, updList, modify, set_orderBooks. cbn.
    f_equal. rewrite !alter_alter_eq. apply alter_ext.
    intros [] _. reflexivity.
  - exists false. f_equal. unfold cancelled.
    rewrite alter_id; [now rewrite set_orderBooks_same |].
    intros x Hx. congruence.
Qed.


(** X11. Cancelling, through the order service, a stored order that is
    not in a terminal status (CANCELLED, FILLED, REJECTED, EXPIRED)
    returns the order as cancelled (status CANCELLED, cancelReason set,
    updatedAt stamped) and changes no other order; in the book of its
    pair the first entry with its id is removed from buy, sell, stopLoss
    and stopLimit (so the id is gone from each of these lists that held
    no id twice), marketBuy and marketSell are left as they were, and
    the trades, the other books and the market prices do not change. *)
Theorem cancel_active_order (id reason : string) (o : Order.t) (s : State) :
  heap s !! id = Some o -> JS.nonEmpty id = true ->
  Order.isTerminal o = false ->
  let r := OrderService.cancelOrder id reason s in
  let key := _getPairKey (Order.baseToken o) (Order.quoteToken o) in
  r.1 = Return (Some (Order.cancel reason (now s) o))
  /\ heap r.2 !! id = Some (Order.cancel reason (now s) o)
  /\ (forall id', id' <> id -> heap r.2 !! id' = heap s !! id')
  /\ (forall l,
        getList l (bookOf key r.2)
        = match l with
          | marketBuyL | marketSellL => getList l (bookOf key s)
          | _ => removeFirst id (getList l (bookOf key s))
          end)
  /\ (forall l, l <> marketBuyL -> l <> marketSellL ->
        List.NoDup (getList l (bookOf key s)) ->
        ~ In id (getList l (bookOf key r.2)))
  /\ (forall key', key' <> key -> orderBooks r.2 !! key' = orderBooks s !! key')
  /\ trades (bookOf key r.2) = trades (bookOf key s)
  /\ marketPrices r.2 = marketPrices s.
Proof.
  intros Ho Hid Hterm r key. subst r.
  destruct (cancelOrder_run id s o Ho Hid) as [found Hrun].
  unfold OrderService.cancelOrder, OrderService.getOrder. run.
  rewrite Hid, Ho, Hterm, Hrun. cbn beta iota. fold key.
  assert (Hlists : forall l,
    getList l (bookOf key (cancelled id key s))
    = match l with
      | marketBuyL | marketSellL => getList l (bookOf key s)
      | _ => removeFirst id (getList l (bookOf key s))
      end).
  { intros l. unfold bookOf, cancelled. cbn. rewrite lookup_alter_eq.
    destruct (orderBooks s !! key) as [b |]; cbn; now destruct l. }
  cbn. rewrite !lookup_alter_eq, Ho. cbn.
  split; [reflexivity |]. split; [reflexivity |].
  split; [intros id' Hne; now rewrite lookup_alter_ne |].
  split; [exact Hlists |].
  split.
  { intros l Hl1 Hl2 Hnd.
    change (bookOf key _) with (bookOf key (cancelled id key s)).
    rewrite Hlists. destruct l; try congruence; now apply removeFirst_NoDup. }
  split; [intros key' Hne; now rewrite lookup_alter_ne |].
  split; [| reflexivity].
  unfold bookOf. cbn. rewrite lookup_alter_eq.
  now destruct (orderBooks s !! key).
Qed.

Lemma serviceCancel_absent id reason s :
  OrderService.getOrder id s = None ->
  OrderService.cancelOrder id reason s = (Return None, s).
Proof. intros Hg. unfold OrderService.cancelOrder. run. now rewrite Hg. Qed.

Lemma serviceCancel_terminal id reason s o :
  OrderService.getOrder id s = Some o -> Order.isTerminal o = true ->
  OrderService.cancelOrder id reason s = (Return (Some o), s).
Proof.
  intros Hg Ht. unfold OrderService.cancelOrder. run. now rewrite Hg, Ht.
Qed.

Lemma serviceCancel_active id reason s o :
  OrderService.getOrder id s = Some o -> Order.isTerminal o = false ->
  OrderService.cancelOrder id reason s
  = (Return (Some (Order.cancel reason (now s) o)),
     set_heap (alter (Order.cancel reason (now s)) id (heap s))
       (cancelled id (_getPairKey (Order.baseToken o) (Order.quoteToken o)) s)).
Proof.
  intros Hg Ht. unfold OrderService.getOrder in Hg.
  destruct (JS.nonEmpty id) eqn:Hid; [| discriminate].
  destruct (cancelOrder_run id s o Hg Hid) as [found Hrun].
  unfold OrderService.cancelOrder, OrderService.getOrder. run.
  rewrite Hid, Hg, Ht, Hrun. cbn. now rewrite lookup_alter_eq, Hg.
Qed.

(** X12. Cancelling an order a second time, with any reason, returns
    what the first cancel returned and changes nothing: the record keeps
    the first cancelReason. *)
Theorem cancel_twice (id reason reason' : string) (s : State) :
  let r := OrderService.cancelOrder id reason s in
  OrderService.cancelOrder id reason' r.2 = r.
Proof.
  cbv zeta. destruct (OrderService.getOrder id s) as [o |] eqn:Hg.
  2: { rewrite (serviceCancel_absent id reason s Hg). cbn [snd].
       now apply serviceCancel_absent. }
  destruct (Order.isTerminal o) eqn:Ht.
  { rewrite (serviceCancel_terminal id reason s o Hg Ht). cbn [snd].
    now apply serviceCancel_terminal. }
  rewrite (serviceCancel_active id reason s o Hg Ht). cbn [snd].
  apply serviceCancel_terminal; [| reflexivity].
  unfold OrderService.getOrder in *.
  destruct (JS.nonEmpty id); [| discriminate].
  cbn. now rewrite lookup_alter_eq, Hg.
Qed.
End WithEthers.
End CancelFacts.

Module PlacementFacts.
Import Matching Laws MatchingFacts.
Local Open Scope float_scope.

Section WithEthers.
Context `{Ethers} `{JS.Text}.

Lemma In_insertSorted h sd x y l :
  In x (insertSorted h sd y l) <-> x = y \/ In x l.
Proof.
  induction l as [| z r IH]; cbn; [intuition |].
  destruct (after h sd y z); cbn; rewrite ?IH; intuition.
Qed.

Lemma In_sortIds h sd x l : In x (sortIds h sd l) <-> In x l.
Proof.
  unfold sortIds. induction l as [| y r IH]; cbn; [tauto |].
  rewrite In_insertSorted, IH. intuition.
Qed.

Lemma includes_In id l : includes id l = true <-> In id l.
Proof.
  unfold includes. rewrite existsb_exists. split.
  - intros (x & Hx & E). apply String.eqb_eq in E. now subst.
  - intros Hin. exists id. split; [exact Hin | apply String.eqb_refl].
Qed.

Lemma trades_setList l v b : trades (setList l v b) = trades b.
Proof. now destruct l. Qed.

Lemma rested_facts id key l sd s o b :
  heap s !! id = Some o -> orderBooks s !! key = Some b ->
  let s' := rested id key l sd s in
  heap s' !! id
  = Some (if Order.filled o =? 0 then Order.set_status PENDING o else o)
  /\ (forall id', id' <> id -> heap s' !! id' = heap s !! id')
  /\ (forall x, In x (getList l (bookOf key s')) <-> In x (getList l b) \/ x = id)
  /\ (forall l', l' <> l -> getList l' (bookOf key s') = getList l' b)
  /\ trades (bookOf key s') = trades b
  /\ (forall key', key' <> key -> orderBooks s' !! key' = orderBooks s !! key')
  /\ marketPrices s' = marketPrices s
  /\ marketPriceMeta s' = marketPriceMeta s
  /\ oracle s' = oracle s.
Proof.
  intros Ho Hb. cbv zeta. unfold rested.
  assert (Hbk : bookOf key s = b) by (unfold bookOf; now rewrite Hb).
  rewrite Hbk. clear Hbk. unfold bookOf.
  destruct (includes id (getList l b)) eqn:Hinc;
    unfold updList, updOrder, modify;
    cbn [fst snd heap set_orderBooks set_heap orderBooks]; rewrite !Ho;
    destruct (Order.filled o =? 0);
    cbn [fst snd heap set_orderBooks set_heap orderBooks marketPrices
         marketPriceMeta oracle];
    rewrite ?lookup_alter_eq, ?Hb, ?Ho;
    cbn [fmap option_fmap option_map default from_option Datatypes.id];
    rewrite ?getList_setList, ?trades_setList;
    (split; [reflexivity |]);
    (split; [intros id' Hne; rewrite ?lookup_alter_ne by congruence; reflexivity |]);
    (split; [intros x; rewrite ?decide_True by reflexivity;
             rewrite In_sortIds, ?in_app_iff; cbn [In];
             first [ apply includes_In in Hinc
                   | apply not_true_iff_false in Hinc;
                     rewrite includes_In in Hinc ];
             intuition (subst; auto) |]);
    (split; [intros l' Hne; rewrite !getList_setList, ?decide_False by assumption;
             reflexivity |]);
    (split; [rewrite ?trades_setList; reflexivity |]);
    (split; [intros key' Hne; rewrite ?lookup_alter_ne by congruence; reflexivity |]);
    auto.
Qed.


Lemma matchOrder_empty n rec key taker opp cm s o :
  heap s !! taker = Some o -> getList opp (bookOf key s) = [] ->
  _matchOrder (S n) rec key taker opp cm s = (Return [], s).
Proof.
  intros Ho Hl. unfold _matchOrder. cbn [_matchOrder_loop].
  rewrite (bind_run _ _ _ _ _ (getOrder_run _ _ _ Ho)).
  unfold readList. run. now rewrite Hl.
Qed.

Lemma restOnBook_run id key l sd s o :
  heap s !! id = Some o ->
  _restOnBook id key l sd s = (Return tt, rested id key l sd s).
Proof.
  intros Ho. unfold _restOnBook, _sortOrders, readList, rested. run.
  destruct (includes id (getList l (bookOf key s))); cbn [negb];
    unfold updList; run; cbn [fst snd heap set_orderBooks set_heap];
    rewrite !Ho; cbn beta iota; destruct (Order.filled o =? 0); reflexivity.
Qed.

Lemma handleLimit_rest n rec (o : Order.t) key s :
  heap s !! Order.id o = Some o ->
  (Order.timeInForce o = GTC \/ Order.timeInForce o = POST_ONLY) ->
  Order.allowPartialFill o = true ->
  JS.gt (Order.remaining o) 0 = true ->
  getList (if Order.isBuy o then marketSellL else marketBuyL) (bookOf key s) = [] ->
  getList (if Order.isBuy o then sellL else buyL) (bookOf key s) = [] ->
  _handleLimitOrder (S n) rec (Order.id o) key s
  = (Return [],
     rested (Order.id o) key (if Order.isBuy o then buyL else sellL)
       (Order.side o) s).
Proof.
  intros Ho Htif Hap Hrem Hm Hl.
  assert (Hff : _requiresFullFill o = false).
  { unfold _requiresFullFill. rewrite Hap.
    destruct Htif as [-> | ->]; reflexivity. }
  assert (Hioc : bool_decide (Order.timeInForce o = IOC) = false).
  { destruct Htif as [-> | ->]; reflexivity. }
  unfold _handleLimitOrder.
  erewrite bind_run by (apply getOrder_run; exact Ho). cbn beta.
  erewrite bind_run by reflexivity. cbn beta.
  rewrite Hm. cbn [length Nat.ltb Nat.leb].
  erewrite bind_run by reflexivity. cbn beta.
  erewrite bind_run.
  2: { destruct (bool_decide (Order.timeInForce o = POST_ONLY)); [| reflexivity].
       erewrite bind_run by reflexivity. cbn beta. rewrite Hl. reflexivity. }
  cbn beta iota. rewrite Hff.
  erewrite bind_run by reflexivity. cbn beta iota.
  erewrite bind_run by (eapply matchOrder_empty; eassumption). cbn beta.
  erewrite bind_run by (apply getOrder_run; exact Ho). cbn beta.
  rewrite Hrem, Hioc, Hff.
  erewrite bind_run by (eapply restOnBook_run; exact Ho).
  reflexivity.
Qed.


(** X13. A GTC or POST_ONLY limit order that allows partial fills, has
    something left to fill and finds the opposite limit list and the
    opposite market queue of its pair empty is rested by addOrder: the
    call returns, the order is on the list of its side and nothing else
    joins that list, it is PENDING if nothing was filled, and no other
    order, no other list, no trade and no market price changes. *)
Theorem limit_order_rests (n : nat) (o : Order.t) (s : State) :
  Order.orderType o = LIMIT ->
  JS.nonEmpty (Order.baseToken o) = true ->
  JS.nonEmpty (Order.quoteToken o) = true ->
  (Order.timeInForce o = GTC \/ Order.timeInForce o = POST_ONLY) ->
  Order.allowPartialFill o = true ->
  JS.gt (Order.remaining o) 0 = true ->
  let key := _getPairKey (Order.baseToken o) (Order.quoteToken o) in
  let sideList := if Order.isBuy o then buyL else sellL in
  getList (if Order.isBuy o then marketSellL else marketBuyL) (bookOf key s) = [] ->
  getList (if Order.isBuy o then sellL else buyL) (bookOf key s) = [] ->
  let r := addOrder (S n) o s in
  r.1 = Return tt
  /\ heap r.2 !! Order.id o
     = Some (if Order.filled o =? 0 then Order.set_status PENDING o else o)
  /\ (forall id', id' <> Order.id o -> heap r.2 !! id' = heap s !! id')
  /\ (forall x, In x (getList sideList (bookOf key r.2))
                <-> In x (getList sideList (bookOf key s)) \/ x = Order.id o)
  /\ (forall l, l <> sideList ->
        getList l (bookOf key r.2) = getList l (bookOf key s))
  /\ trades (bookOf key r.2) = trades (bookOf key s)
  /\ marketPrices r.2 = marketPrices s.
Proof.
  intros Hty Hb Hq Htif Hap Hrem key sideList Hm Hl r. subst r.
  rewrite (addOrder_accepted (S n) o s Hb Hq). rewrite Hty. fold key.
  destruct (accepted_facts o s) as (Hheap & Hbook & Hlook & _ & Hmp & _).
  fold key in Hbook, Hlook.
  assert (Ho : heap (Reference.accepted o s) !! Order.id o = Some o)
    by (rewrite Hheap; apply lookup_insert_eq).
  erewrite bind_run.
  2: { apply handleLimit_rest; try assumption; rewrite Hbook; assumption. }
  cbn [length Nat.ltb Nat.leb when]. cbn [fst snd mret M_ret].
  destruct (rested_facts (Order.id o) key sideList (Order.side o)
              (Reference.accepted o s) o (bookOf key s) Ho Hlook)
    as (F1 & F2 & F3 & F4 & F5 & _ & F7 & _).
  split; [reflexivity |]. split; [exact F1 |].
  split.
  { intros id' Hne. etransitivity; [exact (F2 id' Hne) |].
    rewrite Hheap. now apply lookup_insert_ne. }
  split; [exact F3 |]. split; [exact F4 |]. split; [exact F5 |].
  etransitivity; [exact F7 | exact Hmp].
Qed.
End WithEthers.
End PlacementFacts.

Module RefusalFacts.
Import Matching Laws MatchingFacts PlacementFacts.
Local Open Scope float_scope.

Section WithEthers.
Context `{Ethers} `{JS.Text}.

(** The order [id] after [f], nothing else touched. *)
Lemma updOrder_run id f s : updOrder id f s = (Return tt, (updOrder id f s).2).
Proof. reflexivity. Qed.


(** *** POST_ONLY against a crossing best opposite order *)

Lemma handleLimit_postOnly n rec (o bo : Order.t) key best rest s :
  heap s !! Order.id o = Some o ->
  Order.timeInForce o = POST_ONLY ->
  getList (if Order.isBuy o then marketSellL else marketBuyL) (bookOf key s) = [] ->
  getList (if Order.isBuy o then sellL else buyL) (bookOf key s) = best :: rest ->
  heap s !! best = Some bo ->
  canMatch (priceCondition (Order.isBuy o) (Order.price o)) bo = true ->
  _handleLimitOrder n rec (Order.id o) key s
  = (Return [],
     set_heap
       (alter (Order.set_status REJECTED) (Order.id o)
          (alter (Order.upd_metadata
                    (Metadata.set_rejectReason (Some "POST_ONLY_WOULD_TRADE"%string)))
             (Order.id o) (heap s))) s).
Proof.
  intros Ho Htif Hm Hl Hbest Hcross. unfold _handleLimitOrder.
  erewrite bind_run by (apply getOrder_run; exact Ho). cbn beta.
  erewrite bind_run by reflexivity. cbn beta.
  rewrite Hm. cbn [length Nat.ltb Nat.leb].
  erewrite bind_run by reflexivity. cbn beta.
  rewrite Htif. cbn [bool_decide decide_rel].
  erewrite bind_run.
  2: { rewrite bool_decide_eq_true_2 by reflexivity.
       erewrite bind_run by reflexivity. cbn beta. rewrite Hl.
       erewrite bind_run by (apply getOrder_run; exact Hbest). cbn beta.
       rewrite Hcross. reflexivity. }
  cbn beta iota. reflexivity.
Qed.

(** X14. A POST_ONLY limit order that finds the opposite market queue
    empty and whose price crosses the price of the first order of the
    opposite limit list (another order) is rejected by addOrder without
    trading: the call returns, the order is REJECTED with rejectReason
    POST_ONLY_WOULD_TRADE, and the book of the pair, every other order
    and the market prices are what they were. *)
Theorem post_only_crossing_is_rejected (n : nat) (o bo : Order.t)
    (best : string) (rest : list string) (s : State) :
  Order.orderType o = LIMIT ->
  JS.nonEmpty (Order.baseToken o) = true ->
  JS.nonEmpty (Order.quoteToken o) = true ->
  Order.timeInForce o = POST_ONLY ->
  let key := _getPairKey (Order.baseToken o) (Order.quoteToken o) in
  getList (if Order.isBuy o then marketSellL else marketBuyL) (bookOf key s) = [] ->
  getList (if Order.isBuy o then sellL else buyL) (bookOf key s) = best :: rest ->
  best <> Order.id o -> heap s !! best = Some bo ->
  canMatch (priceCondition (Order.isBuy o) (Order.price o)) bo = true ->
  let r := addOrder n o s in
  r.1 = Return tt
  /\ heap r.2 !! Order.id o
     = Some (Order.set_status REJECTED
               (Order.upd_metadata
                  (Metadata.set_rejectReason (Some "POST_ONLY_WOULD_TRADE"%string))
                  o))
  /\ (forall id', id' <> Order.id o -> heap r.2 !! id' = heap s !! id')
  /\ bookOf key r.2 = bookOf key s
  /\ marketPrices r.2 = marketPrices s.
Proof.
  intros Hty Hb Hq Htif key Hm Hl Hne Hbest Hcross r. subst r.
  rewrite (addOrder_accepted n o s Hb Hq). rewrite Hty. fold key.
  destruct (accepted_facts o s) as (Hheap & Hbook & Hlook & _ & Hmp & _).
  fold key in Hbook, Hlook.
  erewrite bind_run.
  2: { eapply handleLimit_postOnly; rewrite ?Hbook; try eassumption.
       - apply accepted_self.
       - rewrite accepted_other by assumption. exact Hbest. }
  cbn [length Nat.ltb Nat.leb when]. cbn [fst snd mret M_ret heap set_heap].
  rewrite !lookup_alter_eq, accepted_self. cbn.
  split; [reflexivity |]. split; [reflexivity |].
  split.
  { intros id' Hne'. rewrite !lookup_alter_ne by congruence.
    now apply accepted_other. }
  split; [exact Hbook | exact Hmp].
Qed.

(** *** A limit order that may not rest, on an empty opposite side *)





End WithEthers.
End RefusalFacts.

Module MarketFacts.
Import Matching Laws MatchingFacts PlacementFacts RefusalFacts.
Local Open Scope float_scope.

Section WithEthers.
Context `{Ethers} `{JS.Text}.

Lemma shouldUseSynthetic_fields o s' s :
  marketPriceMeta s' = marketPriceMeta s ->
  _shouldUseSyntheticLiquidity o s' = _shouldUseSyntheticLiquidity o s.
Proof. intros Hm. unfold _shouldUseSyntheticLiquidity. now rewrite Hm. Qed.

Lemma marketRested_eq (o : Order.t) key s :
  heap s !! Order.id o = Some o ->
  let id := Order.id o in
  let o' := Order.upd_metadata
              (Metadata.set_unfilledAmount (Some (Order.remaining o))) o in
  let s' := (updMetadata id
               (Metadata.set_unfilledAmount (Some (Order.remaining o))) s).2 in
  (let l := if Order.isBuy o' then marketBuyL else marketSellL in
   let s1 :=
     if includes id (getList l (bookOf key s')) then s'
     else (updList key l (fun ys => ys ++ [id]) s').2 in
   set_heap
     (alter (Order.upd_metadata
               (fun m => match Metadata.restedAt m with
                         | Some _ => m
                         | None => Metadata.set_restedAt (Some (now s')) m
                         end)) id
        (alter (Order.set_status
                  (if JS.gt (Order.filled o') 0 then PARTIAL else PENDING)) id
           (heap s1))) s1)
  = marketRested o key s.
Proof.
  intros Ho id o' s'. subst id. cbv zeta. unfold marketRested.
  change (Order.isBuy o') with (Order.isBuy o).
  change (Order.filled o') with (Order.filled o).
  change (bookOf key s') with (bookOf key s).
  change (now s') with (now s).
  set (l := if Order.isBuy o then marketBuyL else marketSellL).
  set (id := Order.id o) in *.
  assert (Hmap : forall h : gmap string Order.t,
    h !! id = Some o ->
    alter (Order.upd_metadata
             (fun m => match Metadata.restedAt m with
                       | Some _ => m
                       | None => Metadata.set_restedAt (Some (now s)) m
                       end)) id
      (alter (Order.set_status
                (if JS.gt (Order.filled o) 0 then PARTIAL else PENDING)) id
         (alter (Order.upd_metadata
                   (Metadata.set_unfilledAmount (Some (Order.remaining o)))) id h))
    = <[id := restedMarketOrder (now s) o]> h).
  { intros h Hh. apply map_eq. intros i.
    destruct (decide (i = id)) as [-> | Hne].
    - now rewrite !lookup_alter_eq, lookup_insert_eq, Hh.
    - now rewrite !lookup_alter_ne, lookup_insert_ne by congruence. }
  destruct (includes id (getList l (bookOf key s)));
    unfold s', updMetadata, updOrder, updList, modify, set_heap, set_orderBooks;
    cbn [fst snd heap orderBooks marketPrices marketPriceMeta oracle now entropy];
    now rewrite (Hmap _ Ho).
Qed.


Lemma restMarketOrder_run (o' : Order.t) id key s :
  heap s !! id = Some o' ->
  _restMarketOrder id key s
  = (Return tt,
     let l := if Order.isBuy o' then marketBuyL else marketSellL in
     let s1 :=
       if includes id (getList l (bookOf key s)) then s
       else (updList key l (fun ys => ys ++ [id]) s).2 in
     set_heap
       (alter (Order.upd_metadata
                 (fun m => match Metadata.restedAt m with
                           | Some _ => m
                           | None => Metadata.set_restedAt (Some (now s)) m
                           end)) id
          (alter (Order.set_status
                    (if JS.gt (Order.filled o') 0 then PARTIAL else PENDING)) id
             (heap s1))) s1).
Proof.
  intros Ho. unfold _restMarketOrder.
  erewrite bind_run by (apply getOrder_run; exact Ho). cbn beta zeta.
  erewrite bind_run by reflexivity. cbn beta.
  destruct (includes id (getList _ (bookOf key s))); cbn [negb when];
    erewrite bind_run by reflexivity; cbn beta;
    erewrite bind_run by reflexivity; cbn beta;
    erewrite bind_run by reflexivity; cbn beta; reflexivity.
Qed.

Lemma handleMarket_rest n rec (o : Order.t) key s :
  heap s !! Order.id o = Some o ->
  Order.timeInForce o <> IOC -> _requiresFullFill o = false ->
  JS.gt (Order.remaining o) 0 = true ->
  _shouldUseSyntheticLiquidity o s = false ->
  getList (if Order.isBuy o then marketSellL else marketBuyL) (bookOf key s) = [] ->
  getList (if Order.isBuy o then sellL else buyL) (bookOf key s) = [] ->
  _handleMarketOrder (S n) rec (Order.id o) key s
  = (Return [], marketRested o key s).
Proof.
  intros Ho Hioc Hff Hrem Hsyn Hm Hl. unfold _handleMarketOrder.
  erewrite bind_run by (apply getOrder_run; exact Ho). cbn beta.
  erewrite bind_run by reflexivity. cbn beta.
  rewrite Hm. cbn [length Nat.ltb Nat.leb].
  erewrite bind_run by reflexivity. cbn beta zeta. rewrite Hff.
  erewrite bind_run by reflexivity. cbn beta iota.
  erewrite bind_run by (apply getOrder_run; exact Ho). cbn beta.
  rewrite Hrem.
  erewrite bind_run by (eapply matchOrder_empty; eassumption). cbn beta.
  erewrite bind_run by (apply getOrder_run; exact Ho). cbn beta.
  erewrite bind_run by reflexivity. cbn beta.
  rewrite Hrem, Hsyn. cbn [andb].
  erewrite bind_run by reflexivity. cbn beta.
  erewrite bind_run by (apply getOrder_run; exact Ho). cbn beta.
  rewrite Hrem, Hff. rewrite bool_decide_eq_false_2 by exact Hioc.
  erewrite bind_run.
  2: { erewrite bind_run by reflexivity. cbn beta.
       apply restMarketOrder_run with
         (o' := Order.upd_metadata
                  (Metadata.set_unfilledAmount (Some (Order.remaining o))) o).
       cbn. now rewrite lookup_alter_eq, Ho. }
  cbn beta. unfold mret, M_ret. f_equal.
  now apply marketRested_eq.
Qed.

(** X17. A market order that is neither IOC nor FOK, allows partial
    fills, has something left to fill, is not served by synthetic
    liquidity and finds the opposite limit list and the opposite market
    queue of its pair empty is rested by addOrder on the market queue of
    its side: status PENDING (PARTIAL if partly filled before),
    unfilledAmount set to its remaining amount, restedAt stamped unless
    already set, and no other order, no other list, no trade and no
    market price changes. *)
Theorem market_order_rests (n : nat) (o : Order.t) (s : State) :
  Order.orderType o = MARKET ->
  JS.nonEmpty (Order.baseToken o) = true ->
  JS.nonEmpty (Order.quoteToken o) = true ->
  Order.timeInForce o <> IOC -> Order.timeInForce o <> FOK ->
  Order.allowPartialFill o = true ->
  JS.gt (Order.remaining o) 0 = true ->
  _shouldUseSyntheticLiquidity o s = false ->
  let key := _getPairKey (Order.baseToken o) (Order.quoteToken o) in
  let queue := if Order.isBuy o then marketBuyL else marketSellL in
  getList (if Order.isBuy o then marketSellL else marketBuyL) (bookOf key s) = [] ->
  getList (if Order.isBuy o then sellL else buyL) (bookOf key s) = [] ->
  let r := addOrder (S n) o s in
  r.1 = Return tt
  /\ heap r.2 !! Order.id o = Some (restedMarketOrder (now s) o)
  /\ (forall id', id' <> Order.id o -> heap r.2 !! id' = heap s !! id')
  /\ (forall x, In x (getList queue (bookOf key r.2))
                <-> In x (getList queue (bookOf key s)) \/ x = Order.id o)
  /\ (forall l, l <> queue -> getList l (bookOf key r.2) = getList l (bookOf key s))
  /\ trades (bookOf key r.2) = trades (bookOf key s)
  /\ marketPrices r.2 = marketPrices s.
Proof.
  intros Hty Hb Hq Hioc Hfok Hap Hrem Hsyn key queue Hm Hl r. subst r.
  assert (Hff : _requiresFullFill o = false).
  { unfold _requiresFullFill. rewrite Hap.
    now rewrite bool_decide_eq_false_2 by exact Hfok. }
  rewrite (addOrder_accepted (S n) o s Hb Hq). rewrite Hty. fold key.
  destruct (accepted_facts o s) as (Hheap & Hbook & Hlook & _ & Hmp & Hmeta & _ & Hnow).
  fold key in Hbook, Hlook.
  erewrite bind_run.
  2: { apply handleMarket_rest; rewrite ?Hbook; try assumption.
       - apply accepted_self.
       - now rewrite (shouldUseSynthetic_fields o _ s Hmeta). }
  cbn [length Nat.ltb Nat.leb when]. cbn [fst snd mret M_ret].
  unfold marketRested. cbn zeta. fold queue. rewrite Hbook, Hnow.
  destruct (includes (Order.id o) (getList queue (bookOf key s))) eqn:Hinc.
  - cbn [heap set_heap]. rewrite lookup_insert_eq.
    split; [reflexivity |]. split; [reflexivity |].
    split.
    { intros id' Hne. rewrite lookup_insert_ne by congruence.
      now apply accepted_other. }
    change (bookOf key (set_heap _ (Reference.accepted o s))) with (bookOf key (Reference.accepted o s)).
    rewrite Hbook.
    split. { intros x. apply includes_In in Hinc. intuition (subst; auto). }
    split; [reflexivity |]. split; [reflexivity | exact Hmp].
  - set (s1 := (updList key queue _ (Reference.accepted o s)).2).
    change (bookOf key (set_heap _ s1)) with (bookOf key s1).
    subst s1. rewrite (bookOf_updList key queue _ _ _ Hlook).
    cbn [heap set_heap]. rewrite lookup_insert_eq.
    split; [reflexivity |]. split; [reflexivity |].
    split.
    { intros id' Hne. rewrite lookup_insert_ne by congruence.
      now apply accepted_other. }
    rewrite getList_setList, decide_True by reflexivity.
    split. { intros x. rewrite in_app_iff. cbn. intuition. }
    split.
    { intros l Hne. now rewrite getList_setList, decide_False by assumption. }
    split; [apply trades_setList | exact Hmp].
Qed.
End WithEthers.
End MarketFacts.

Module BatchFacts.
Import Matching Laws MatchingFacts PlacementFacts Preservation.
Local Open Scope float_scope.

Section WithEthers.
Context `{Ethers} `{JS.Text}.

Lemma normalize_state id s : (_normalizeBatchOrder id s).2 = s.
Proof.
  unfold _normalizeBatchOrder, getOrder, mbind, M_bind.
  destruct (heap s !! id) as [o |]; [| reflexivity]. cbn beta iota.
  repeat match goal with
         | |- context [if ?c then _ else _] => destruct c
         end; reflexivity.
Qed.

Lemma mapM_normalize_state l s : (mapM _normalizeBatchOrder l s).2 = s.
Proof.
  induction l as [| id r IH]; [reflexivity |].
  cbn [mapM]. unfold mbind, M_bind.
  pose proof (normalize_state id s) as Hn.
  destruct (_normalizeBatchOrder id s) as [[e | msg |] s1]; cbn in Hn; subst s1;
    try reflexivity.
  destruct (mapM _normalizeBatchOrder r s) as [[es | msg |] s2]; cbn in IH;
    subst s2; reflexivity.
Qed.

Lemma normalize_unfit id o s :
  heap s !! id = Some o -> unfit o = true ->
  exists msg, _normalizeBatchOrder id s = (Throw msg, s).
Proof.
  intros Ho Hu. unfold _normalizeBatchOrder.
  erewrite bind_run by (apply getOrder_run; exact Ho). cbn beta zeta.
  unfold unfit in Hu.
  destruct (Order.remaining o <=? 0); [eexists; reflexivity |].
  destruct (Order.isTerminal o); [eexists; reflexivity |].
  cbn [orb] in Hu. rewrite Hu. eexists; reflexivity.
Qed.

Lemma mapM_normalize_unfit l id o s :
  In id l -> heap s !! id = Some o -> unfit o = true ->
  exists msg, mapM _normalizeBatchOrder l s = (Throw msg, s).
Proof.
  intros Hin Ho Hu. induction l as [| x r IH]; [destruct Hin |].
  cbn [mapM]. unfold mbind, M_bind.
  pose proof (normalize_state x s) as Hn.
  destruct (_normalizeBatchOrder x s) as [[e | msg |] s1] eqn:Hx; cbn in Hn;
    subst s1.
  - destruct Hin as [-> | Hin].
    + destruct (normalize_unfit id o s Ho Hu) as [msg Hmsg]. congruence.
    + destruct (IH Hin) as [msg Hmsg]. rewrite Hmsg. eauto.
  - eauto.
  - exfalso. revert Hx. unfold _normalizeBatchOrder, getOrder, mbind, M_bind.
    destruct (heap s !! x); [| discriminate]. cbn beta iota.
    repeat match goal with
           | |- context [if ?c then _ else _] => destruct c
           end; discriminate.
Qed.


Lemma legs_throw fuel tol bid ts i legs :
  throwsOnly lateMessage _ (applyLegs fuel tol bid ts i legs).
Proof.
  apply (pres_applyLegs lateMessage (throwsOnly lateMessage)).
  - apply closed_throwsOnly. right. right. reflexivity.
  - left. reflexivity.
  - right. left. reflexivity.
Qed.

Lemma batchTrades_cases fuel ids tol s r :
  r = executeBatchTrades fuel ids tol s ->
  (exists msg, r = (Throw msg, s))
  \/ (forall msg, r.1 = Throw msg -> lateMessage msg).
Proof.
  unfold executeBatchTrades.
  destruct (_ <? 2)%nat; [intros ->; left; eexists; reflexivity |].
  unfold mbind at 1, M_bind at 1.
  pose proof (mapM_normalize_state ids s) as Hst.
  destruct (mapM _normalizeBatchOrder ids s) as [[es | msg' |] s1]; cbn in Hst;
    subst s1;
    [| intros ->; left; eexists; reflexivity
     | intros ->; right; intros m; cbn; discriminate].
  repeat match goal with
         | |- context [if ?c then _ else _] =>
             destruct c; [intros ->; left; eexists; reflexivity |]
         end.
  destruct es as [| first rest]; [intros ->; left; eexists; reflexivity |].
  repeat match goal with
         | |- context [if ?c then _ else _] =>
             destruct c; [intros ->; left; eexists; reflexivity |]
         | |- context [match ?x with Some _ => _ | None => _ end] =>
             destruct x; [| intros ->; left; eexists; reflexivity]
         | |- context [let '(_, _) := ?p in _] => destruct p
         end.
  intros ->. right. intros msg.
  unfold mbind, M_bind, randomHex, gets. cbn beta iota.
  match goal with
  | |- context [applyLegs ?f ?t ?b ?ts ?i ?legs ?st] =>
      pose proof (legs_throw f t b ts i legs st) as Hlegs;
      destruct (applyLegs f t b ts i legs st) as [[tr | m |] s2]
  end; cbn; try discriminate.
  intros [= <-]. now apply Hlegs.
Qed.

(** X18. When executeBatch throws any error other than the two raised
    while the fills are applied ('Batch execution overfills an order'
    and 'Batch execution would only partially fill an all-or-nothing
    order') and the model's own error for an id that names no order
    object, the engine is exactly as it was before the call: no order,
    book, price or oracle entry has changed. *)
Theorem batch_validation_changes_nothing (fuel : nat) (ids : list string)
    (tol : option float) (s : State) (msg : string) :
  let r := OrderService.executeBatch fuel ids tol s in
  r.1 = Throw msg -> ~ lateMessage msg -> r.2 = s.
Proof.
  cbv zeta. unfold OrderService.executeBatch.
  destruct (_ <? 2)%nat; [reflexivity |].
  unfold mbind, M_bind, get.
  destruct (List.find _ ids); [reflexivity |].
  destruct (batchTrades_cases fuel ids tol s _ eq_refl) as [[m Hm] | Hlate].
  - now rewrite Hm.
  - intros Hthrow Hno. exfalso. apply Hno. now apply Hlate.
Qed.

(** X19. executeBatch throws, and changes nothing, when the list has
    fewer than two ids, when an id names no order, or when one of the
    orders has nothing left to fill, is in a terminal status (CANCELLED,
    FILLED, REJECTED, EXPIRED) or has no finite price above zero. *)
Theorem batch_with_unfit_order_is_refused (fuel : nat) (ids : list string)
    (tol : option float) (s : State) :
  ((length ids < 2)%nat
   \/ (exists id, In id ids /\ OrderService.getOrder id s = None)
   \/ exists id o, In id ids /\ heap s !! id = Some o /\ unfit o = true) ->
  exists msg, OrderService.executeBatch fuel ids tol s = (Throw msg, s).
Proof.
  intros Hbad. unfold OrderService.executeBatch.
  destruct (length ids <? 2)%nat eqn:Hlen; [eexists; reflexivity |].
  apply Nat.ltb_ge in Hlen.
  unfold mbind at 1, M_bind at 1, get.
  destruct (List.find _ ids) eqn:Hfind; [eexists; reflexivity |].
  destruct Hbad as [Hshort | [(id & Hin & Hnone) | (id & o & Hin & Ho & Hu)]].
  - lia.
  - exfalso. apply (find_none _ _ Hfind) in Hin. rewrite Hnone in Hin.
    discriminate.
  - unfold executeBatchTrades.
    apply Nat.ltb_ge in Hlen. rewrite Hlen.
    destruct (mapM_normalize_unfit ids id o s Hin Ho Hu) as [msg Hmsg].
    unfold mbind, M_bind. rewrite Hmsg. eauto.
Qed.
End WithEthers.

(** *** The amounts along the ring *)

(** X20. When the loop of executeBatchTrades that fills offerAmounts and
    requestAmounts completes, there is one offer and one request per
    order, the first offer is the amount the loop started from, every
    offer is above zero, every request is its offer times the order's
    rate, and every order but the first offers exactly what the order
    before it requests. *)
Theorem propagate_chain (x : float) (es : list BatchEntry)
    (offers requests : list float) :
  propagate x es = Some (offers, requests) ->
  length offers = length es /\ length requests = length es
  /\ head offers = (if es is [] then None else Some x)
  /\ (forall i e, es !! i = Some e ->
        exists off, offers !! i = Some off /\ JS.gt off 0 = true
                    /\ requests !! i = Some (off * e_rate e))
  /\ (forall i req, requests !! i = Some req -> (S i < length es)%nat ->
        offers !! S i = Some req).
Proof.
  revert x offers requests.
  induction es as [| e r IH]; intros x offers requests; cbn [propagate].
  - intros [= <- <-].
    split; [reflexivity |]. split; [reflexivity |]. split; [reflexivity |].
    split; [intros i e He | intros i req Hr]; discriminate.
  - destruct (negb (JS.gt x 0)) eqn:Hx; [discriminate |].
    apply negb_false_iff in Hx.
    destruct r as [| e' r'].
    + intros [= <- <-].
      split; [reflexivity |]. split; [reflexivity |]. split; [reflexivity |].
      split.
      * intros [| i] e0 He; cbn in He; [| discriminate].
        injection He as <-. exists x. auto.
      * intros i req _ Hlt. cbn in Hlt. lia.
    + destruct (propagate (x * e_rate e) (e' :: r')) as [[os rs] |] eqn:Hp;
        [| discriminate].
      intros [= <- <-].
      destruct (IH _ _ _ Hp) as (L1 & L2 & Hhd & Hall & Hnext).
      split; [cbn [length] in *; lia |].
      split; [cbn [length] in *; lia |].
      split; [reflexivity |].
      split.
      * intros [| i] e0 He; cbn in He.
        -- injection He as <-. exists x. auto.
        -- apply (Hall i e0 He).
      * intros [| i] req Hreq Hlt; cbn in Hreq.
        -- injection Hreq as <-. destruct os as [| o1 os']; [discriminate |].
           cbn in Hhd. injection Hhd as ->. reflexivity.
        -- apply (Hnext i req Hreq). cbn [length] in *. lia.
Qed.
End BatchFacts.

Module TriggerFacts.
Import Matching Laws.
Local Open Scope float_scope.

Lemma min_cases a b :
  PrimFloat.is_nan a = false -> PrimFloat.is_nan b = false ->
  (JS.min a b <=? a) = true /\ (JS.min a b <=? b) = true
  /\ (JS.min a b = a \/ JS.min a b = b).
Proof.
  intros Ha Hb. unfold JS.min, JS.isNaN. rewrite Ha, Hb. cbn [orb].
  destruct (a <? b) eqn:Hab.
  { repeat split; auto using FloatOrder.leb_refl, FloatOrder.ltb_leb. }
  destruct (b <? a) eqn:Hba.
  { repeat split; auto using FloatOrder.leb_refl, FloatOrder.ltb_leb. }
  pose proof (FloatOrder.nlt_le a b Ha Hb Hab) as Hle1.
  pose proof (FloatOrder.nlt_le b a Hb Ha Hba) as Hle2.
  destruct (JS.negZero a); repeat split; auto using FloatOrder.leb_refl.
Qed.

Lemma remaining_not_nan o : PrimFloat.is_nan (Order.remaining o) = false.
Proof.
  pose proof (OrderLaws.remaining_nonneg o) as Hnn.
  exact (proj2 (FloatOrder.leb_not_nan 0 _ Hnn)).
Qed.

(** X21. The amount at which two triggered stop orders are cross-matched
    is never negative and never above the remaining amount of either
    order; an order that requires a full fill is filled completely or
    not at all, and a positive amount is never below a finite
    minFillAmount of either order. *)
Theorem triggered_fill_is_bounded (buyOrder sellOrder : Order.t) :
  let fill := _determineTriggeredStopFillAmount buyOrder sellOrder in
  (0 <=? fill) = true
  /\ (fill <=? Order.remaining buyOrder) = true
  /\ (fill <=? Order.remaining sellOrder) = true
  /\ (_requiresFullFill buyOrder = true ->
      fill = 0 \/ fill = Order.remaining buyOrder)
  /\ (_requiresFullFill sellOrder = true ->
      fill = 0 \/ (Order.remaining sellOrder <=? fill) = true)
  /\ (forall o m, o = buyOrder \/ o = sellOrder ->
        Order.minFillAmount o = Some m -> JS.isFinite m = true ->
        JS.gt fill 0 = true -> (m <=? fill) = true).
Proof.
  cbv zeta.
  pose proof (remaining_not_nan buyOrder) as Nb.
  pose proof (remaining_not_nan sellOrder) as Ns.
  pose proof (OrderLaws.remaining_nonneg buyOrder) as Pb.
  pose proof (OrderLaws.remaining_nonneg sellOrder) as Ps.
  destruct (min_cases _ _ Nb Ns) as (Mb & Ms & Mc).
  assert (Z0 : (0 <=? 0) = true) by reflexivity.
  assert (G0 : JS.gt 0 0 = false) by reflexivity.
  unfold _determineTriggeredStopFillAmount.
  set (rb := Order.remaining buyOrder) in *.
  set (rs := Order.remaining sellOrder) in *.
  set (maxFill := JS.min rb rs) in *.
  assert (Hzero :
    (0 <=? 0) = true /\ (0 <=? rb) = true /\ (0 <=? rs) = true
    /\ (_requiresFullFill buyOrder = true -> 0 = 0 \/ 0 = rb)
    /\ (_requiresFullFill sellOrder = true -> 0 = 0 \/ (rs <=? 0) = true)
    /\ (forall o m, o = buyOrder \/ o = sellOrder ->
          Order.minFillAmount o = Some m -> JS.isFinite m = true ->
          JS.gt 0 0 = true -> (m <=? 0) = true)).
  { repeat split; auto. intros o m _ _ _ H0. rewrite G0 in H0. discriminate. }
  destruct (negb (JS.gt maxFill 0)) eqn:Hpos; [exact Hzero |].
  apply negb_false_iff in Hpos.
  destruct (_requiresFullFill buyOrder && (rs <? rb)) eqn:C1; [exact Hzero |].
  destruct (_requiresFullFill sellOrder && (rb <? rs)) eqn:C2; [exact Hzero |].
  destruct (JS.isFiniteN (Order.minFillAmount buyOrder)
            && JS.gt (JS.Number (Order.minFillAmount buyOrder)) maxFill) eqn:C3;
    [exact Hzero |].
  destruct (JS.isFiniteN (Order.minFillAmount sellOrder)
            && JS.gt (JS.Number (Order.minFillAmount sellOrder)) maxFill) eqn:C4;
    [exact Hzero |].
  assert (Hmax0 : (0 <=? maxFill) = true) by (now apply FloatOrder.ltb_leb).
  assert (Nm : PrimFloat.is_nan maxFill = false)
    by (exact (proj2 (FloatOrder.leb_not_nan 0 _ Hmax0))).
  assert (Hmin : forall o m, o = buyOrder \/ o = sellOrder ->
            Order.minFillAmount o = Some m -> JS.isFinite m = true ->
            (m <=? maxFill) = true).
  { intros o m Ho Hm Hfin.
    assert (Nmf : PrimFloat.is_nan m = false).
    { unfold JS.isFinite, PrimFloat.is_finite in Hfin.
      now destruct (PrimFloat.is_nan m). }
    apply FloatOrder.nlt_le; auto.
    destruct Ho as [-> | ->]; rewrite Hm in *; cbn in *;
      rewrite Hfin in *; cbn in *; assumption. }
  assert (Hge : forall f, (maxFill <=? f) = true ->
            forall o m, o = buyOrder \/ o = sellOrder ->
            Order.minFillAmount o = Some m -> JS.isFinite m = true ->
            JS.gt f 0 = true -> (m <=? f) = true).
  { intros f Hf o m Ho Hm Hfin _.
    eapply FloatOrder.le_trans; [eapply Hmin; eauto | exact Hf]. }
  destruct (_requiresFullFill buyOrder) eqn:Fb.
  - cbn [andb] in C1.
    pose proof (FloatOrder.nlt_le _ _ Ns Nb C1) as Hbs.
    split; [exact Pb |]. split; [now apply FloatOrder.leb_refl |].
    split; [exact Hbs |]. split; [intros _; now right |].
    split.
    + intros Fs. rewrite Fs in C2. cbn [andb] in C2. right.
      exact (FloatOrder.nlt_le _ _ Nb Ns C2).
    + apply Hge. exact Mb.
  - destruct (_requiresFullFill sellOrder) eqn:Fs.
    + cbn [andb] in C2.
      pose proof (FloatOrder.nlt_le _ _ Nb Ns C2) as Hsb.
      split; [exact Ps |]. split; [exact Hsb |].
      split; [now apply FloatOrder.leb_refl |]. split; [discriminate |].
      split; [intros _; right; now apply FloatOrder.leb_refl |].
      apply Hge. exact Ms.
    + split; [exact Hmax0 |]. split; [exact Mb |]. split; [exact Ms |].
      split; [discriminate |]. split; [discriminate |].
      apply Hge. now apply FloatOrder.leb_refl.
Qed.
End TriggerFacts.

Module HistoryFacts.
Import Matching Laws.
Local Open Scope float_scope.

Lemma skipn_suffix {A} n (l : list A) : exists pre, l = pre ++ skipn n l.
Proof. exists (firstn n l). symmetry. apply firstn_skipn. Qed.

Section Runtime.
Context `{JS.Text}.

(** X22. For an integer limit, getRecentTrades returns a suffix of the
    pair's trade history: at most limit trades when limit is above zero,
    the whole history when it is zero or negative; right after a trade
    has been recorded, getRecentTrades with limit 1 returns exactly that
    trade. *)
Theorem recent_trades (b q : string) (limit : Z) (s : State) :
  let key := _getPairKey b q in
  (exists older, trades (bookOf key s) = older ++ getRecentTrades b q limit s)
  /\ ((0 < limit)%Z ->
      (Z.of_nat (length (getRecentTrades b q limit s)) <= limit)%Z)
  /\ ((limit <= 0)%Z -> getRecentTrades b q limit s = trades (bookOf key s))
  /\ (forall t, getRecentTrades b q 1 (_recordTrade key t s).2 = [t]).
Proof.
  cbv zeta. unfold getRecentTrades, bookOf.
  split; [| split; [| split]].
  - destruct (orderBooks s !! _) as [book |]; cbn; [| now exists []].
    destruct (limit <=? 0)%Z; [now exists [] | apply skipn_suffix].
  - intros Hpos. destruct (orderBooks s !! _) as [book |]; cbn; [| lia].
    destruct (Z.leb_spec limit 0) as [Hle | _]; [lia |].
    rewrite length_skipn. lia.
  - intros Hle. destruct (orderBooks s !! _) as [book |]; cbn; [| reflexivity].
    now destruct (Z.leb_spec limit 0) as [_ | Hlt]; [| lia].
  - intros t. unfold _recordTrade, _getOrCreateOrderBook, modify, mbind, M_bind.
    cbn. set (key := _getPairKey b q).
    assert (Hlast : forall l : list Trade.t,
      let ts := l ++ [t] in
      let kept := if (maxTradeHistory <? length ts)%nat then tl ts else ts in
      skipn (length kept - 1) kept = [t]).
    { intros l. cbv zeta.
      destruct (Nat.ltb_spec maxTradeHistory (length (l ++ [t]))) as [Hlt | _].
      - destruct l as [| x l']; cbn [app tl length];
          [cbn in Hlt; unfold maxTradeHistory in Hlt; lia |].
        rewrite length_app. cbn [length].
        replace (length l' + 1 - 1)%nat with (length l' + 0)%nat by lia.
        now rewrite skipn_app, Nat.add_0_r, skipn_all, Nat.sub_diag.
      - rewrite length_app. cbn [length].
        replace (length l + 1 - 1)%nat with (length l + 0)%nat by lia.
        now rewrite skipn_app, Nat.add_0_r, skipn_all, Nat.sub_diag. }
    destruct (orderBooks s !! key) as [book |] eqn:Hb; cbn;
      rewrite lookup_alter_eq, ?lookup_insert_eq, ?Hb; cbn;
      first [reflexivity | exact (Hlast (trades book))].
Qed.
End Runtime.
End HistoryFacts.

Module PriceTableFacts.
Import Matching Laws Preservation Invariants ApiInvariants.
Local Open Scope float_scope.

Section WithEthers.
Context `{Ethers} `{JS.Text}.

Lemma respected_tablesAgree : respected (keeps tablesAgree).
Proof.
  split; unfold keeps; try (intros; assumption).
  - auto.
  - intros s key t Hs k.
    destruct (recordTrade_fields key t s) as (_ & -> & -> & _). apply Hs.
  - intros s key p md Hp Hs k. cbn.
    destruct (decide (key = k)) as [<- | Hne].
    + now rewrite !lookup_insert_eq.
    + rewrite !lookup_insert_ne by assumption. apply Hs.
Qed.

(** X10. If marketPrices and marketPriceMeta have the same keys and
    every metadata entry records the price stored for its key, that
    stays so across updateMarketPrice, cancelOrder, executeBatch and
    addOrder, whatever their arguments and whether they return or throw. *)
Theorem price_tables_stay_in_step (fuel : nat) (s : State) :
  tablesAgree s ->
  (forall b q p, tablesAgree (updateMarketPrice fuel b q p s).2)
  /\ (forall id reason, tablesAgree (OrderService.cancelOrder id reason s).2)
  /\ (forall ids tol, tablesAgree (OrderService.executeBatch fuel ids tol s).2)
  /\ (forall o, tablesAgree (addOrder fuel o s).2).
Proof.
  apply invariant_kept; [apply respected_tablesAgree |].
  intros h s0 Hs0. exact Hs0.
Qed.
End WithEthers.
End PriceTableFacts.

(** ** The laws at the scenarios *)

Module CaseFacts.
Import Matching Scenario Laws Cases.
Local Open Scope float_scope.

#[local] Abbreviation keyOf o :=
  (_getPairKey (Order.baseToken o) (Order.quoteToken o)).

Lemma initial_state_invariants clock :
  pricesPositive (initial clock) /\ historyBounded (initial clock)
  /\ oraclePositive (initial clock) /\ tablesAgree (initial clock).
Proof.
  split; [| split; [| split]]; try (intros k x Hl; cbn in Hl;
    rewrite lookup_empty in Hl; discriminate).
  intros k. cbn. now rewrite !lookup_empty.
Qed.

Lemma oracle_directions_share_state_witness :
  exists sn,
    Oracle.getCachedPairSnapshot "AAA" "BBB" tradedOracle = Some sn
    /\ exists d st,
         Oracle._getCanonicalDescriptor "AAA" "BBB" = Some d
         /\ Oracle.pairStates tradedOracle !! Oracle.key d = Some st
         /\ Oracle.s_price sn
            = (if Oracle.forward d then Oracle.price st else 1 / Oracle.price st)
         /\ option_map Oracle.s_price
              (Oracle.getCachedPairSnapshot "BBB" "AAA" tradedOracle)
            = (if Oracle.forward d
               then Oracle.positiveOrNull (1 / Oracle.price st)
               else Some (Oracle.price st)).
Proof.
  assert (Hs : exists sn,
             Oracle.getCachedPairSnapshot "AAA" "BBB" tradedOracle = Some sn).
  { eexists. vm_compute. reflexivity. }
  destruct Hs as [sn Hs]. exists sn. split; [exact Hs |].
  exact (OraclePairs.oracle_directions_share_state "AAA" "BBB" tradedOracle sn Hs).
Defined.

Lemma registerTrade_one_pair_witness :
  Oracle._getCanonicalDescriptor (Oracle.normalizeAddress "CCC")
    (Oracle.normalizeAddress "DDD")
  = Some (Oracle.mkDescriptor "ccc-ddd" "ccc" "ddd" true)
  /\ Oracle.pairStates
       (Oracle.registerTrade 2000 "CCC" "DDD" 3 1 3 None "trade" tradedOracle)
     !! "aaa-bbb"%string
     = Oracle.pairStates tradedOracle !! "aaa-bbb"%string.
Proof.
  assert (Hd : Oracle._getCanonicalDescriptor (Oracle.normalizeAddress "CCC")
                 (Oracle.normalizeAddress "DDD")
               = Some (Oracle.mkDescriptor "ccc-ddd" "ccc" "ddd" true))
    by (vm_compute; reflexivity).
  split; [exact Hd |].
  refine (OraclePairs.registerTrade_one_pair 2000 "CCC" "DDD" 3 1 3 None "trade"
            tradedOracle "aaa-bbb" _).
  intros d Hd'. rewrite Hd in Hd'. injection Hd' as <-. discriminate.
Defined.

(** The invariants along a run: a market buy rests, is cancelled, and a
    sell limit order arrives. *)
Lemma market_prices_stay_positive_witness :
  pricesPositive (initial 1000)
  /\ pricesPositive
       (addOrder fuel sellLimitFill
          (OrderService.cancelOrder "buy-market-rest" "USER_CANCELLED"
             (addOrder fuel buyMarketRest (initial 1000)).2).2).2.
Proof.
  pose proof (proj1 (initial_state_invariants 1000)) as H0.
  split; [exact H0 |].
  pose proof (proj2 (proj2 (proj2
    (ApiInvariants.market_prices_stay_positive fuel (initial 1000) H0)))
    buyMarketRest) as H1.
  pose proof (proj1 (proj2
    (ApiInvariants.market_prices_stay_positive fuel _ H1))
    "buy-market-rest"%string "USER_CANCELLED"%string) as H2.
  exact (proj2 (proj2 (proj2
    (ApiInvariants.market_prices_stay_positive fuel _ H2))) sellLimitFill).
Defined.

Lemma trade_history_stays_bounded_witness :
  historyBounded (initial 1000)
  /\ historyBounded
       (addOrder fuel sellLimitFill
          (OrderService.cancelOrder "buy-market-rest" "USER_CANCELLED"
             (addOrder fuel buyMarketRest (initial 1000)).2).2).2.
Proof.
  pose proof (proj1 (proj2 (initial_state_invariants 1000))) as H0.
  split; [exact H0 |].
  pose proof (proj2 (proj2 (proj2
    (ApiInvariants.trade_history_stays_bounded fuel (initial 1000) H0)))
    buyMarketRest) as H1.
  pose proof (proj1 (proj2
    (ApiInvariants.trade_history_stays_bounded fuel _ H1))
    "buy-market-rest"%string "USER_CANCELLED"%string) as H2.
  exact (proj2 (proj2 (proj2
    (ApiInvariants.trade_history_stays_bounded fuel _ H2))) sellLimitFill).
Defined.

Lemma oracle_prices_stay_positive_witness :
  oraclePositive (initial 1000)
  /\ oraclePositive
       (addOrder fuel sellLimitFill
          (OrderService.cancelOrder "buy-market-rest" "USER_CANCELLED"
             (addOrder fuel buyMarketRest (initial 1000)).2).2).2.
Proof.
  pose proof (proj1 (proj2 (proj2 (initial_state_invariants 1000)))) as H0.
  split; [exact H0 |].
  pose proof (proj2 (proj2 (proj2
    (ApiInvariants.oracle_prices_stay_positive fuel (initial 1000) H0)))
    buyMarketRest) as H1.
  pose proof (proj1 (proj2
    (ApiInvariants.oracle_prices_stay_positive fuel _ H1))
    "buy-market-rest"%string "USER_CANCELLED"%string) as H2.
  exact (proj2 (proj2 (proj2
    (ApiInvariants.oracle_prices_stay_positive fuel _ H2))) sellLimitFill).
Defined.

Lemma price_tables_stay_in_step_witness :
  tablesAgree (initial 1000)
  /\ tablesAgree
       (addOrder fuel sellLimitFill
          (OrderService.cancelOrder "buy-market-rest" "USER_CANCELLED"
             (addOrder fuel buyMarketRest (initial 1000)).2).2).2.
Proof.
  pose proof (proj2 (proj2 (proj2 (initial_state_invariants 1000)))) as H0.
  split; [exact H0 |].
  pose proof (proj2 (proj2 (proj2
    (PriceTableFacts.price_tables_stay_in_step fuel (initial 1000) H0)))
    buyMarketRest) as H1.
  pose proof (proj1 (proj2
    (PriceTableFacts.price_tables_stay_in_step fuel _ H1))
    "buy-market-rest"%string "USER_CANCELLED"%string) as H2.
  exact (proj2 (proj2 (proj2
    (PriceTableFacts.price_tables_stay_in_step fuel _ H2))) sellLimitFill).
Defined.

(** A resting sell limit order is cancelled. *)
Lemma cancel_active_order_witness :
  (heap restingAsk !! "ask"%string = Some ask
   /\ getList sellL (bookOf (keyOf ask) restingAsk) = ["ask"]%string)
  /\ (OrderService.cancelOrder "ask" "USER_CANCELLED" restingAsk).1
     = Return (Some (Order.cancel "USER_CANCELLED" (now restingAsk) ask))
  /\ heap (OrderService.cancelOrder "ask" "USER_CANCELLED" restingAsk).2
       !! "ask"%string
     = Some (Order.cancel "USER_CANCELLED" (now restingAsk) ask)
  /\ ~ In "ask"%string
         (getList sellL
            (bookOf (keyOf ask)
               (OrderService.cancelOrder "ask" "USER_CANCELLED" restingAsk).2)).
Proof.
  assert (Ho : heap restingAsk !! "ask"%string = Some ask)
    by (vm_compute; reflexivity).
  assert (Hl : getList sellL (bookOf (keyOf ask) restingAsk) = ["ask"]%string)
    by (vm_compute; reflexivity).
  split; [split; assumption |].
  pose proof (CancelFacts.cancel_active_order "ask" "USER_CANCELLED" ask
                restingAsk Ho eq_refl eq_refl) as Hw.
  cbv zeta in Hw.
  destruct Hw as (Hres & Hheap & _ & _ & Hgone & _).
  split; [exact Hres |]. split; [exact Hheap |].
  apply (Hgone sellL); [discriminate | discriminate |].
  rewrite Hl. repeat constructor. intros [].
Defined.

(** A sell limit order arrives at an empty book. *)
Lemma limit_order_rests_witness :
  (addOrder (S 63) ask (initial 1000)).1 = Return tt
  /\ heap (addOrder (S 63) ask (initial 1000)).2 !! Order.id ask
     = Some (if Order.filled ask =? 0 then Order.set_status PENDING ask else ask)
  /\ (forall x,
        In x (getList (if Order.isBuy ask then buyL else sellL)
                (bookOf (keyOf ask) (addOrder (S 63) ask (initial 1000)).2))
        <-> In x (getList (if Order.isBuy ask then buyL else sellL)
                    (bookOf (keyOf ask) (initial 1000)))
            \/ x = Order.id ask).
Proof.
  assert (Hm : getList (if Order.isBuy ask then marketSellL else marketBuyL)
                 (bookOf (keyOf ask) (initial 1000)) = [])
    by (vm_compute; reflexivity).
  assert (Hl : getList (if Order.isBuy ask then sellL else buyL)
                 (bookOf (keyOf ask) (initial 1000)) = [])
    by (vm_compute; reflexivity).
  pose proof (PlacementFacts.limit_order_rests 63 ask (initial 1000)
                eq_refl eq_refl eq_refl (or_introl eq_refl) eq_refl eq_refl
                Hm Hl) as Hw.
  cbv zeta in Hw.
  destruct Hw as (Hres & Hheap & _ & Hin & _).
  split; [exact Hres |]. split; [exact Hheap | exact Hin].
Defined.

(** A post-only buy at 100 meets the resting ask at 10. *)
Lemma post_only_crossing_is_rejected_witness :
  (getList (if Order.isBuy postOnly then sellL else buyL)
     (bookOf (keyOf postOnly) restingAsk) = ["ask"]%string
   /\ canMatch (priceCondition (Order.isBuy postOnly) (Order.price postOnly)) ask
      = true)
  /\ (addOrder fuel postOnly restingAsk).1 = Return tt
  /\ heap (addOrder fuel postOnly restingAsk).2 !! Order.id postOnly
     = Some (Order.set_status REJECTED
               (Order.upd_metadata
                  (Metadata.set_rejectReason (Some "POST_ONLY_WOULD_TRADE"%string))
                  postOnly))
  /\ bookOf (keyOf postOnly) (addOrder fuel postOnly restingAsk).2
     = bookOf (keyOf postOnly) restingAsk.
Proof.
  assert (Hm : getList (if Order.isBuy postOnly then marketSellL else marketBuyL)
                 (bookOf (keyOf postOnly) restingAsk) = [])
    by (vm_compute; reflexivity).
  assert (Hl : getList (if Order.isBuy postOnly then sellL else buyL)
                 (bookOf (keyOf postOnly) restingAsk) = ["ask"]%string)
    by (vm_compute; reflexivity).
  assert (Hc : canMatch (priceCondition (Order.isBuy postOnly)
                           (Order.price postOnly)) ask = true)
    by (vm_compute; reflexivity).
  assert (Ho : heap restingAsk !! "ask"%string = Some ask)
    by (vm_compute; reflexivity).
  assert (Hne : "ask"%string <> Order.id postOnly) by discriminate.
  split; [split; assumption |].
  pose proof (RefusalFacts.post_only_crossing_is_rejected fuel postOnly ask
                "ask" [] restingAsk eq_refl eq_refl eq_refl eq_refl Hm Hl
                Hne Ho Hc) as Hw.
  cbv zeta in Hw.
  destruct Hw as (Hres & Hheap & _ & Hbook & _).
  split; [exact Hres |]. split; [exact Hheap | exact Hbook].
Defined.



(** A market buy arrives at an empty book. *)
Lemma market_order_rests_witness :
  (addOrder (S 63) buyMarketRest (initial 1000)).1 = Return tt
  /\ heap (addOrder (S 63) buyMarketRest (initial 1000)).2
       !! Order.id buyMarketRest
     = Some (restedMarketOrder (now (initial 1000)) buyMarketRest)
  /\ (forall x,
        In x (getList (if Order.isBuy buyMarketRest then marketBuyL
                       else marketSellL)
                (bookOf (keyOf buyMarketRest)
                   (addOrder (S 63) buyMarketRest (initial 1000)).2))
        <-> In x (getList (if Order.isBuy buyMarketRest then marketBuyL
                           else marketSellL)
                    (bookOf (keyOf buyMarketRest) (initial 1000)))
            \/ x = Order.id buyMarketRest).
Proof.
  assert (Hs : _shouldUseSyntheticLiquidity buyMarketRest (initial 1000) = false)
    by (vm_compute; reflexivity).
  assert (Hm : getList (if Order.isBuy buyMarketRest then marketSellL
                        else marketBuyL)
                 (bookOf (keyOf buyMarketRest) (initial 1000)) = [])
    by (vm_compute; reflexivity).
  assert (Hl : getList (if Order.isBuy buyMarketRest then sellL else buyL)
                 (bookOf (keyOf buyMarketRest) (initial 1000)) = [])
    by (vm_compute; reflexivity).
  assert (Hioc : Order.timeInForce buyMarketRest <> IOC) by discriminate.
  assert (Hfok : Order.timeInForce buyMarketRest <> FOK) by discriminate.
  pose proof (MarketFacts.market_order_rests 63 buyMarketRest (initial 1000)
                eq_refl eq_refl eq_refl Hioc Hfok eq_refl eq_refl Hs Hm Hl)
    as Hw.
  cbv zeta in Hw.
  destruct Hw as (Hres & Hheap & _ & Hin & _).
  split; [exact Hres |]. split; [exact Hheap | exact Hin].
Defined.

(** A batch that names one order twice is no ring. *)
Lemma batch_validation_changes_nothing_witness :
  (OrderService.executeBatch fuel ["ring-0"; "ring-0"]%string None beforeBatch).1
  = Throw "Batch orders must form a closed token loop"
  /\ (OrderService.executeBatch fuel ["ring-0"; "ring-0"]%string None beforeBatch).2
     = beforeBatch.
Proof.
  assert (Ht : (OrderService.executeBatch fuel ["ring-0"; "ring-0"]%string None
                  beforeBatch).1
               = Throw "Batch orders must form a closed token loop")
    by (vm_compute; reflexivity).
  split; [exact Ht |].
  refine (BatchFacts.batch_validation_changes_nothing fuel
            ["ring-0"; "ring-0"]%string None beforeBatch
            "Batch orders must form a closed token loop" Ht _).
  intros [Hm | [Hm | Hm]]; discriminate Hm.
Defined.

(** A batch with a filled order. *)
Lemma batch_with_unfit_order_is_refused_witness :
  (exists o, heap afterCancelThenLimit !! "sell-limit-fill"%string = Some o
             /\ unfit o = true)
  /\ exists msg,
       OrderService.executeBatch fuel ["sell-limit-fill"; "buy-market-rest"]%string
         None afterCancelThenLimit
       = (Throw msg, afterCancelThenLimit).
Proof.
  assert (Hu : exists o,
             heap afterCancelThenLimit !! "sell-limit-fill"%string = Some o
             /\ unfit o = true).
  { eexists. split; [vm_compute; reflexivity | vm_compute; reflexivity]. }
  split; [exact Hu |].
  destruct Hu as (o & Ho & Hunfit).
  refine (BatchFacts.batch_with_unfit_order_is_refused fuel
            ["sell-limit-fill"; "buy-market-rest"]%string None
            afterCancelThenLimit _).
  right. right. exists "sell-limit-fill"%string, o.
  split; [left; reflexivity |]. split; assumption.
Defined.

(** A ring of two legs with rates 2 and 1/2. *)
Lemma propagate_chain_witness :
  propagate 1 [leg "x" 2; leg "y" 0.5] = Some ([1; 2], [2; 1])
  /\ (forall i e, [leg "x" 2; leg "y" 0.5] !! i = Some e ->
        exists off, [1; 2] !! i = Some off /\ JS.gt off 0 = true
                    /\ [2; 1] !! i = Some (off * e_rate e))
  /\ (forall i req, [2; 1] !! i = Some req ->
        (S i < length [leg "x" 2; leg "y" 0.5])%nat ->
        [1; 2] !! S i = Some req).
Proof.
  assert (Hp : propagate 1 [leg "x" 2; leg "y" 0.5] = Some ([1; 2], [2; 1]))
    by (vm_compute; reflexivity).
  split; [exact Hp |].
  destruct (BatchFacts.propagate_chain 1 [leg "x" 2; leg "y" 0.5] [1; 2] [2; 1]
              Hp) as (_ & _ & _ & Hlegs & Hnext).
  split; [exact Hlegs | exact Hnext].
Defined.
End CaseFacts.
